(** * Backtest engine: a shallow embedding of
      [ml-service/src/backtesting/backtest_engine.py]

    The ledger part of [BacktestEngine] (capital, positions, orders, trades,
    the per-bar loop and the terminal liquidation) is embedded over exact
    rationals [Q]: every Python [float] of the ledger is read as the rational
    it denotes, so rounding is not modelled there.  Equalities between
    amounts are stated with [==] ([Qeq]) unless the two sides are the same
    expression of the source.

    Position objects are mutable and shared in the source ([pos =
    self.positions[sym]] followed by in-place updates, and the snapshot
    [list(self.positions.items())] of [_close_all_positions], which is read
    after [_execute_orders] has mutated the objects).  They therefore live in
    a store ([heap]) and the position dictionary maps a symbol to a store
    index, in insertion order as a Python [dict] does.

    Two places decide or degenerate on the binary64 value itself, and are
    embedded over IEEE-754 binary64 numbers, which is what numpy computes
    with: the threshold tests of [_check_risk_management], whose return is
    computed and compared in binary64 from the ledger numbers, and
    [_calculate_metrics] (division by zero, NaN), in module [Metrics]. *)

From Stdlib Require Import QArith Qabs ZArith List String Bool Lia Lqa.
From Stdlib Require Import Floats.
From stdpp Require Import base list.

Import ListNotations.
Local Open Scope Q_scope.

(** ** Comparisons on rationals, as booleans *)

Definition Qlt_bool (x y : Q) : bool := negb (Qle_bool y x).

(** Python's [min(a, b)]: [b] when [b < a], otherwise [a]. *)
Definition py_min (a b : Q) : Q := if Qlt_bool b a then b else a.

(** ** Ledger numbers in binary64 *)

(** The binary64 number nearest to an integer. *)
Definition Z_to_binary64 (z : Z) : float :=
  SF2Prim (SpecFloat.binary_normalize prec emax z 0 false).

(** A ledger number as binary64: in lowest terms, the number nearest to the
    numerator divided in binary64 by the one nearest to the denominator.
    This is the number itself wherever binary64 holds it (100, 115, 0.5, ...)
    and the correctly rounded quotient of two integers below 2^53.  For a
    ledger number that binary64 does not hold, the code has the result of
    its own rounded operations, which may be a neighbour of this one. *)
Definition binary64 (q : Q) : float :=
  let q := Qred q in
  (Z_to_binary64 (Qnum q) / Z_to_binary64 (Zpos (Qden q)))%float.

(** ** Data model *)

Inductive OrderSide : Type := BUY | SELL.

Inductive OrderStatus : Type := PENDING | FILLED | CANCELLED.

Module Order.
Record t : Type := mk {
  symbol : string;
  side : OrderSide;
  quantity : Q;
  price : Q;
  timestamp : Z;
  status : OrderStatus;
  fill_price : option Q;
  fill_timestamp : option Z
}.
End Order.

Module Position.
Record t : Type := mk {
  symbol : string;
  quantity : Q;
  entry_price : Q;
  entry_timestamp : Z;
  current_price : Q;
  unrealized_pnl : Q
}.
End Position.

Module Trade.
Record t : Type := mk {
  symbol : string;
  side : OrderSide;
  quantity : Q;
  entry_price : Q;
  exit_price : Q;
  entry_timestamp : Z;
  exit_timestamp : Z;
  pnl : Q;
  return_pct : Q;
  holding_period : Z
}.
End Trade.

Record BacktestConfig : Type := mkConfig {
  initial_capital : Q;
  commission_rate : Q;
  slippage_bps : Q;
  market_impact_coef : Q;
  max_position_size : Q;
  max_leverage : Q;
  stop_loss_pct : option Q;
  take_profit_pct : option Q;
  execution_delay : Z;
  use_market_orders : bool;
  train_period_days : Z;
  test_period_days : Z;
  step_days : Z
}.

(** The defaults of the dataclass [BacktestConfig]. *)
Definition default_config : BacktestConfig :=
  {| initial_capital := 100000;
     commission_rate := 1 # 1000;
     slippage_bps := 5;
     market_impact_coef := 1 # 10;
     max_position_size := 2 # 10;
     max_leverage := 1;
     stop_loss_pct := None;
     take_profit_pct := None;
     execution_delay := 1;
     use_market_orders := true;
     train_period_days := 252;
     test_period_days := 63;
     step_days := 21 |}.

(** A bar is one row [data.iloc[i]] of the price table: a pandas Series whose
    [name] is the row's index label (the timestamp [data.index[i]]) and whose
    entries map a symbol to a price. *)
Module Bar.
Record t : Type := mk {
  name : Z;
  row : list (string * Q)
}.
End Bar.

(** Lookup in an insertion-ordered dictionary with string keys. *)
Fixpoint lookup {A : Type} (k : string) (d : list (string * A)) : option A :=
  match d with
  | [] => None
  | (k', v) :: d' => if String.eqb k k' then Some v else lookup k d'
  end.

(** [del d[k]]. *)
Fixpoint remove_key {A : Type} (k : string) (d : list (string * A))
  : list (string * A) :=
  match d with
  | [] => []
  | (k', v) :: d' =>
      if String.eqb k k' then remove_key k d' else (k', v) :: remove_key k d'
  end.

(** [symbol in bar] *)
Definition bar_has (sym : string) (bar : Bar.t) : bool :=
  match lookup sym (Bar.row bar) with Some _ => true | None => false end.

(** [bar.get(symbol, 0)] *)
Definition bar_get (sym : string) (bar : Bar.t) : Q :=
  match lookup sym (Bar.row bar) with Some p => p | None => 0 end.

(** The signal dictionary returned by a strategy: [signal['symbol']],
    [signal['action']] and the optional key ['quantity']. *)
Module Signal.
Record t : Type := mk {
  symbol : string;
  action : string;
  quantity : option Q
}.
End Signal.

(** The mutable state of [BacktestEngine].  [heap] is the store of Position
    objects; [positions] is the dictionary [self.positions], from a symbol to
    the index of its object in [heap]. *)
Record BacktestEngine : Type := mkEngine {
  capital : Q;
  heap : list Position.t;
  positions : list (string * nat);
  orders : list Order.t;
  trades : list Trade.t;
  equity_curve : list Q;
  timestamps : list Z;
  total_pnl : Q;
  total_commission : Q;
  total_slippage : Q
}.

Definition set_capital (c : Q) (s : BacktestEngine) : BacktestEngine :=
  mkEngine c (heap s) (positions s) (orders s) (trades s) (equity_curve s)
           (timestamps s) (total_pnl s) (total_commission s) (total_slippage s).

Definition set_heap (h : list Position.t) (s : BacktestEngine) : BacktestEngine :=
  mkEngine (capital s) h (positions s) (orders s) (trades s) (equity_curve s)
           (timestamps s) (total_pnl s) (total_commission s) (total_slippage s).

Definition set_positions (d : list (string * nat)) (s : BacktestEngine)
  : BacktestEngine :=
  mkEngine (capital s) (heap s) d (orders s) (trades s) (equity_curve s)
           (timestamps s) (total_pnl s) (total_commission s) (total_slippage s).

Definition set_orders (os : list Order.t) (s : BacktestEngine) : BacktestEngine :=
  mkEngine (capital s) (heap s) (positions s) os (trades s) (equity_curve s)
           (timestamps s) (total_pnl s) (total_commission s) (total_slippage s).

Definition set_trades (ts : list Trade.t) (s : BacktestEngine) : BacktestEngine :=
  mkEngine (capital s) (heap s) (positions s) (orders s) ts (equity_curve s)
           (timestamps s) (total_pnl s) (total_commission s) (total_slippage s).

Definition set_total_pnl (x : Q) (s : BacktestEngine) : BacktestEngine :=
  mkEngine (capital s) (heap s) (positions s) (orders s) (trades s)
           (equity_curve s) (timestamps s) x (total_commission s)
           (total_slippage s).

Definition set_total_commission (x : Q) (s : BacktestEngine) : BacktestEngine :=
  mkEngine (capital s) (heap s) (positions s) (orders s) (trades s)
           (equity_curve s) (timestamps s) (total_pnl s) x (total_slippage s).

Definition set_total_slippage (x : Q) (s : BacktestEngine) : BacktestEngine :=
  mkEngine (capital s) (heap s) (positions s) (orders s) (trades s)
           (equity_curve s) (timestamps s) (total_pnl s) (total_commission s) x.

(** ** Operations *)

(** [_reset] (and [__init__]). *)
Definition _reset (cfg : BacktestConfig) : BacktestEngine :=
  {| capital := initial_capital cfg;
     heap := [];
     positions := [];
     orders := [];
     trades := [];
     equity_curve := [initial_capital cfg];
     timestamps := [];
     total_pnl := 0;
     total_commission := 0;
     total_slippage := 0 |}.

(** The body of the loop of [_update_positions] for one dictionary item. *)
Definition mark_position (bar : Bar.t) (h : list Position.t)
           (item : string * nat) : list Position.t :=
  let '(sym, r) := item in
  match lookup sym (Bar.row bar), h !! r with
  | Some p, Some pos =>
      <[r := Position.mk (Position.symbol pos) (Position.quantity pos)
                         (Position.entry_price pos)
                         (Position.entry_timestamp pos)
                         p
                         ((p - Position.entry_price pos) * Position.quantity pos)]> h
  | _, _ => h
  end.

Definition _update_positions (bar : Bar.t) (s : BacktestEngine) : BacktestEngine :=
  set_heap (fold_left (mark_position bar) (positions s) (heap s)) s.

(** The fill price of [_execute_orders]. *)
Definition fill_price_of (cfg : BacktestConfig) (o : Order.t) : Q :=
  if use_market_orders cfg then
    let slippage := slippage_bps cfg / 10000 in
    match Order.side o with
    | BUY => Order.price o * (1 + slippage)
    | SELL => Order.price o * (1 - slippage)
    end
  else Order.price o.

Definition commission_of (cfg : BacktestConfig) (o : Order.t) : Q :=
  Qabs (Order.quantity o * fill_price_of cfg o * commission_rate cfg).

(** The order after [order.fill_price = ...; order.fill_timestamp = bar.name;
    order.status = FILLED]. *)
Definition filled (cfg : BacktestConfig) (bar : Bar.t) (o : Order.t) : Order.t :=
  Order.mk (Order.symbol o) (Order.side o) (Order.quantity o) (Order.price o)
           (Order.timestamp o) FILLED (Some (fill_price_of cfg o))
           (Some (Bar.name bar)).

(** The BUY branch: add to the existing position or open a new one. *)
Definition buy_update (cfg : BacktestConfig) (bar : Bar.t) (o : Order.t)
           (s : BacktestEngine) : BacktestEngine :=
  let fill_price := fill_price_of cfg o in
  match lookup (Order.symbol o) (positions s) with
  | Some r =>
      match heap s !! r with
      | Some pos =>
          let total_quantity := Position.quantity pos + Order.quantity o in
          set_heap
            (<[r := Position.mk (Position.symbol pos) total_quantity
                      ((Position.entry_price pos * Position.quantity pos
                        + fill_price * Order.quantity o) / total_quantity)
                      (Position.entry_timestamp pos)
                      (Position.current_price pos)
                      (Position.unrealized_pnl pos)]> (heap s)) s
      | None => s (* a dictionary entry always points into the store *)
      end
  | None =>
      set_positions (positions s ++ [(Order.symbol o, length (heap s))])
        (set_heap (heap s ++ [Position.mk (Order.symbol o) (Order.quantity o)
                                fill_price (Bar.name bar) fill_price 0]) s)
  end.

(** The SELL branch: close the position, partly or fully, and record the
    trade; nothing happens when the symbol has no position. *)
Definition sell_update (cfg : BacktestConfig) (bar : Bar.t) (o : Order.t)
           (s : BacktestEngine) : BacktestEngine :=
  let fill_price := fill_price_of cfg o in
  let commission := commission_of cfg o in
  match lookup (Order.symbol o) (positions s) with
  | Some r =>
      match heap s !! r with
      | Some pos =>
          let close_quantity := py_min (Order.quantity o) (Position.quantity pos) in
          let pnl :=
            (fill_price - Position.entry_price pos) * close_quantity - commission in
          let trade :=
            Trade.mk (Order.symbol o) SELL close_quantity
                     (Position.entry_price pos) fill_price
                     (Position.entry_timestamp pos) (Bar.name bar) pnl
                     ((fill_price / Position.entry_price pos - 1) * 100)
                     (Bar.name bar - Position.entry_timestamp pos)%Z in
          let s1 := set_trades (trades s ++ [trade]) s in
          let s2 := set_total_pnl (total_pnl s1 + pnl) s1 in
          let s3 := set_capital (capital s2 + (close_quantity * fill_price - commission)) s2 in
          let q' := Position.quantity pos - close_quantity in
          let s4 :=
            set_heap
              (<[r := Position.mk (Position.symbol pos) q'
                        (Position.entry_price pos)
                        (Position.entry_timestamp pos)
                        (Position.current_price pos)
                        (Position.unrealized_pnl pos)]> (heap s3)) s3 in
          if Qle_bool q' 0
          then set_positions (remove_key (Order.symbol o) (positions s4)) s4
          else s4
      | None => s (* a dictionary entry always points into the store *)
      end
  | None => s
  end.

(** The body of the loop of [_execute_orders] for one order: the order as it
    is afterwards, and the new engine state ([orders] is set by the loop). *)
Definition execute_order (cfg : BacktestConfig) (bar : Bar.t) (o : Order.t)
           (s : BacktestEngine) : Order.t * BacktestEngine :=
  match Order.status o with
  | PENDING =>
      let fill_price := fill_price_of cfg o in
      let commission := commission_of cfg o in
      let s1 := set_total_commission (total_commission s + commission) s in
      let s2 :=
        set_total_slippage
          (total_slippage s1
           + Qabs (fill_price - Order.price o) * Qabs (Order.quantity o)) s1 in
      let s3 :=
        match Order.side o with
        | BUY =>
            let s' := buy_update cfg bar o s2 in
            set_capital (capital s' - (Order.quantity o * fill_price + commission)) s'
        | SELL => sell_update cfg bar o s2
        end in
      (filled cfg bar o, s3)
  | _ => (o, s)
  end.

(** [for order in self.orders: ...] *)
Fixpoint execute_loop (cfg : BacktestConfig) (bar : Bar.t) (os : list Order.t)
         (s : BacktestEngine) : list Order.t * BacktestEngine :=
  match os with
  | [] => ([], s)
  | o :: os' =>
      let '(o', s') := execute_order cfg bar o s in
      let '(os'', s'') := execute_loop cfg bar os' s' in
      (o' :: os'', s'')
  end.

Definition _execute_orders (cfg : BacktestConfig) (bar : Bar.t)
           (s : BacktestEngine) : BacktestEngine :=
  let '(os, s') := execute_loop cfg bar (orders s) s in
  set_orders os s'.

(** [_place_order] *)
Definition _place_order (sym : string) (sd : OrderSide) (qty prc : Q) (ts : Z)
           (s : BacktestEngine) : BacktestEngine :=
  set_orders (orders s ++ [Order.mk sym sd qty prc ts PENDING None None]) s.

(** [return_pct = (current_price / position.entry_price - 1) * 100], computed
    in binary64 as the code does: 14.999999999999991 for 115 over 100, and
    infinity or NaN over an entry price of 0. *)
Definition return_pct_of (current_price entry_price : Q) : float :=
  ((binary64 current_price / binary64 entry_price - 1) * 100)%float.

(** The body of the loop of [_check_risk_management] for one item of the
    snapshot [list(self.positions.items())]; [return_pct <= -stop_loss_pct]
    and [return_pct >= take_profit_pct] are binary64 comparisons. *)
Definition risk_check (cfg : BacktestConfig) (bar : Bar.t) (s : BacktestEngine)
           (item : string * nat) : BacktestEngine :=
  let '(sym, r) := item in
  match lookup sym (Bar.row bar), heap s !! r with
  | Some current_price, Some position =>
      let return_pct :=
        return_pct_of current_price (Position.entry_price position) in
      let s1 :=
        match stop_loss_pct cfg with
        | Some sl =>
            if PrimFloat.leb return_pct (- binary64 sl)%float
            then _place_order sym SELL (Position.quantity position)
                              current_price (Bar.name bar) s
            else s
        | None => s
        end in
      match take_profit_pct cfg with
      | Some tp =>
          if PrimFloat.leb (binary64 tp) return_pct
          then _place_order sym SELL (Position.quantity position)
                            current_price (Bar.name bar) s1
          else s1
      | None => s1
      end
  | _, _ => s
  end.

Definition _check_risk_management (cfg : BacktestConfig) (bar : Bar.t)
           (s : BacktestEngine) : BacktestEngine :=
  match stop_loss_pct cfg, take_profit_pct cfg with
  | None, None => s
  | _, _ => fold_left (risk_check cfg bar) (positions s) s
  end.

(** [_process_signal] *)
Definition _process_signal (cfg : BacktestConfig) (signal : Signal.t)
           (bar : Bar.t) (ts : Z) (s : BacktestEngine) : BacktestEngine :=
  let symbol := Signal.symbol signal in
  let action := Signal.action signal in
  if String.eqb action "buy" then
    let price := bar_get symbol bar in
    if Qeq_bool price 0 then s
    else
      let max_quantity := (capital s * max_position_size cfg) / price in
      let quantity :=
        match Signal.quantity signal with Some q => q | None => max_quantity end in
      let quantity := py_min quantity max_quantity in
      if Qlt_bool 0 quantity
      then _place_order symbol BUY quantity price ts s
      else s
  else if String.eqb action "sell" then
    match lookup symbol (positions s) with
    | Some r =>
        match heap s !! r with
        | Some position =>
            let price := bar_get symbol bar in
            let quantity :=
              match Signal.quantity signal with
              | Some q => q
              | None => Position.quantity position
              end in
            if Qlt_bool 0 quantity
            then _place_order symbol SELL quantity price ts s
            else s
        | None => s (* a dictionary entry always points into the store *)
        end
    | None => s
    end
  else s.

(** The body of the loop of [_close_all_positions] for one item of the
    snapshot: the quantity is read from the object when the item is reached. *)
Definition close_position (cfg : BacktestConfig) (bar : Bar.t) (ts : Z)
           (s : BacktestEngine) (item : string * nat) : BacktestEngine :=
  let '(sym, r) := item in
  match lookup sym (Bar.row bar), heap s !! r with
  | Some price, Some position =>
      _execute_orders cfg bar
        (_place_order sym SELL (Position.quantity position) price ts s)
  | _, _ => s
  end.

Definition _close_all_positions (cfg : BacktestConfig) (bar : Bar.t) (ts : Z)
           (s : BacktestEngine) : BacktestEngine :=
  fold_left (close_position cfg bar ts) (positions s) s.

(** The body of the loop of [_calculate_equity] for one dictionary item. *)
Definition add_position_value (bar : Bar.t) (h : list Position.t) (equity : Q)
           (item : string * nat) : Q :=
  let '(sym, r) := item in
  match lookup sym (Bar.row bar), h !! r with
  | Some p, Some position => equity + Position.quantity position * p
  | _, _ => equity
  end.

Definition _calculate_equity (bar : Bar.t) (s : BacktestEngine) : Q :=
  fold_left (add_position_value bar (heap s)) (positions s) (capital s).

(** A strategy is a function of the data observed so far. *)
Definition Strategy : Type := list Bar.t -> option Signal.t.

(** Steps 3 and 4 of the loop body of [run_backtest] at index [i]: the risk
    overlay, then the strategy's signal. *)
Definition queue_orders (cfg : BacktestConfig) (strategy : Strategy)
           (data : list Bar.t) (i : nat) (bar : Bar.t) (s : BacktestEngine)
  : BacktestEngine :=
  let s3 := _check_risk_management cfg bar s in
  if (execution_delay cfg <=? Z.of_nat i)%Z then
    match strategy (firstn (S i) data) with
    | Some signal => _process_signal cfg signal bar (Bar.name bar) s3
    | None => s3
    end
  else s3.

Definition record_equity (bar : Bar.t) (s : BacktestEngine) : BacktestEngine :=
  mkEngine (capital s) (heap s) (positions s) (orders s) (trades s)
           (equity_curve s ++ [_calculate_equity bar s])
           (timestamps s ++ [Bar.name bar])
           (total_pnl s) (total_commission s) (total_slippage s).

(** The loop body of [run_backtest] at index [i]. *)
Definition process_bar (cfg : BacktestConfig) (strategy : Strategy)
           (data : list Bar.t) (i : nat) (bar : Bar.t) (s : BacktestEngine)
  : BacktestEngine :=
  let s1 := _update_positions bar s in
  let s2 := _execute_orders cfg bar s1 in
  let s4 := queue_orders cfg strategy data i bar s2 in
  record_equity bar s4.

(** [for i in range(len(data))] from index [i] on, [rest] being [data[i:]]. *)
Fixpoint run_bars (cfg : BacktestConfig) (strategy : Strategy)
         (data : list Bar.t) (i : nat) (rest : list Bar.t) (s : BacktestEngine)
  : BacktestEngine :=
  match rest with
  | [] => s
  | bar :: rest' =>
      run_bars cfg strategy data (S i) rest' (process_bar cfg strategy data i bar s)
  end.

(** The engine state after the first [k] bars of [data]. *)
Definition state_after (cfg : BacktestConfig) (strategy : Strategy)
           (data : list Bar.t) (k : nat) : BacktestEngine :=
  run_bars cfg strategy data 0 (firstn k data) (_reset cfg).

(** [run_backtest], up to the call of [_calculate_metrics]: the final engine
    state, or [None] where [data.iloc[-1]] raises on an empty table. *)
Definition run_backtest (cfg : BacktestConfig) (strategy : Strategy)
           (data : list Bar.t) : option BacktestEngine :=
  let s := run_bars cfg strategy data 0 data (_reset cfg) in
  match last data with
  | Some final_bar =>
      Some (_close_all_positions cfg final_bar (Bar.name final_bar) s)
  | None => None
  end.

(** ** Invariant of the ledger *)

(** Every dictionary entry points to a distinct object of the store, and
    that object holds a strictly positive quantity. *)
Definition book_ok (h : list Position.t) (d : list (string * nat)) : Prop :=
  NoDup d.*2 /\
  forall sym r, (sym, r) ∈ d ->
                exists pos, h !! r = Some pos /\ 0 < Position.quantity pos.

(** Every pending BUY order asks for a strictly positive quantity. *)
Definition buys_ok (os : list Order.t) : Prop :=
  forall o, o ∈ os -> Order.status o = PENDING -> Order.side o = BUY ->
            0 < Order.quantity o.

Definition store_ok (s : BacktestEngine) : Prop :=
  book_ok (heap s) (positions s) /\ buys_ok (orders s).

(** The points of a run: the states an engine goes through from [_reset] by
    the calls [run_backtest] makes, one order of the execution loop and one
    position of the liquidation loop at a time. *)
Inductive reachable (cfg : BacktestConfig) : BacktestEngine -> Prop :=
| reach_reset : reachable cfg (_reset cfg)
| reach_mark bar s :
    reachable cfg s -> reachable cfg (_update_positions bar s)
| reach_fill bar s done o todo :
    reachable cfg s -> orders s = done ++ o :: todo ->
    reachable cfg (set_orders (done ++ (execute_order cfg bar o s).1 :: todo)
                              (execute_order cfg bar o s).2)
| reach_risk bar s :
    reachable cfg s -> reachable cfg (_check_risk_management cfg bar s)
| reach_signal signal bar ts s :
    reachable cfg s -> reachable cfg (_process_signal cfg signal bar ts s)
| reach_record bar s :
    reachable cfg s -> reachable cfg (record_equity bar s)
| reach_close bar ts s item :
    reachable cfg s -> reachable cfg (close_position cfg bar ts s item).

(** The order as the execution loop leaves it. *)
Definition settle (cfg : BacktestConfig) (bar : Bar.t) (o : Order.t) : Order.t :=
  match Order.status o with PENDING => filled cfg bar o | _ => o end.

(** The value [_calculate_equity] adds for one dictionary item. *)
Definition position_value (bar : Bar.t) (h : list Position.t)
           (item : string * nat) : Q :=
  match lookup item.1 (Bar.row bar), h !! item.2 with
  | Some p, Some position => Position.quantity position * p
  | _, _ => 0
  end.

Fixpoint Qsum (l : list Q) : Q :=
  match l with
  | [] => 0
  | x :: l' => x + Qsum l'
  end.

(** Σ quantity × bar price over the open positions priced by the bar. *)
Definition priced_value (bar : Bar.t) (s : BacktestEngine) : Q :=
  Qsum (position_value bar (heap s) <$> positions s).

(** Σ quantity × current mark price over all open positions. *)
Definition marked_value (s : BacktestEngine) : Q :=
  Qsum ((fun item : string * nat =>
           match heap s !! item.2 with
           | Some position =>
               Position.quantity position * Position.current_price position
           | None => 0
           end) <$> positions s).

(** Timestamps of the table strictly increase from each row to the next. *)
Definition increasing (data : list Bar.t) : Prop :=
  forall i b b', data !! i = Some b -> data !! S i = Some b' ->
                 (Bar.name b < Bar.name b')%Z.

(** ** The metrics that divide *)

(** [_calculate_metrics] computes with numpy on float64 arrays; its Sharpe
    ratio is embedded over binary64 floats so that a division by zero gives
    what numpy gives (an infinity or NaN, with a warning but no exception).
    [np_sum] adds from left to right, which is numpy's order for arrays of
    fewer than eight elements. *)
Module Metrics.
Local Open Scope float_scope.

Definition np_len (a : list float) : float :=
  PrimFloat.of_uint63 (Uint63.of_Z (Z.of_nat (length a))).

(** The eight running sums of numpy's unrolled summation loop. *)
Record lanes : Type := mkLanes {
  r0 : float; r1 : float; r2 : float; r3 : float;
  r4 : float; r5 : float; r6 : float; r7 : float
}.

(** [for (i = 8; i < n - (n % 8); i += 8) r[j] += a[i + j]]: every further
    full group of eight is added lane by lane; what is returned with the
    lanes is the rest, of fewer than eight elements. *)
Fixpoint unrolled (r : lanes) (a : list float) : lanes * list float :=
  match a with
  | x0 :: x1 :: x2 :: x3 :: x4 :: x5 :: x6 :: x7 :: a' =>
      unrolled (mkLanes (r0 r + x0) (r1 r + x1) (r2 r + x2) (r3 r + x3)
                        (r4 r + x4) (r5 r + x5) (r6 r + x6) (r7 r + x7)) a'
  | _ => (r, a)
  end.

(** [for (; i < n; i++) res += a[i]] *)
Definition in_order (res : float) (a : list float) : float :=
  fold_left PrimFloat.add a res.

(** The two non-recursive cases of numpy's [pairwise_sum]: fewer than eight
    elements are added in order, starting from -0; otherwise the lanes are
    filled, added as a tree, and the rest is added in order. *)
Definition block_sum (a : list float) : float :=
  match a with
  | x0 :: x1 :: x2 :: x3 :: x4 :: x5 :: x6 :: x7 :: a' =>
      let '(r, rest) := unrolled (mkLanes x0 x1 x2 x3 x4 x5 x6 x7) a' in
      in_order (((r0 r + r1 r) + (r2 r + r3 r)) + ((r4 r + r5 r) + (r6 r + r7 r)))
               rest
  | _ => in_order (-0) a
  end.

(** numpy's [pairwise_sum]: above the block size of 128 the array is split
    at [n2 = n/2 - (n/2) % 8] and the two sums are added.  Both parts are
    shorter than the array, so a [depth] of its length is never used up
    ([pairwise_sum_depth]). *)
Fixpoint pairwise_sum (depth : nat) (a : list float) : float :=
  match depth with
  | S depth' =>
      if (128 <? length a)%nat then
        let n2 := (length a / 2)%nat in
        let n2 := (n2 - n2 mod 8)%nat in
        pairwise_sum depth' (firstn n2 a) + pairwise_sum depth' (skipn n2 a)
      else block_sum a
  | O => block_sum a
  end.

(** [np.add.reduce(a)] on a contiguous array: 0 for an empty array,
    otherwise the pairwise sum added to the identity -0. *)
Definition np_sum (a : list float) : float :=
  match a with
  | [] => 0
  | _ => (-0) + pairwise_sum (length a) a
  end.

Definition np_mean (a : list float) : float := np_sum a / np_len a.

(** [np.std(a)] is [sqrt(mean(abs(a - a.mean())**2))]. *)
Definition np_std (a : list float) : float :=
  let m := np_mean a in
  PrimFloat.sqrt
    (np_mean (List.map (fun x => PrimFloat.abs (x - m) * PrimFloat.abs (x - m)) a)).

Fixpoint np_diff (a : list float) : list float :=
  match a with
  | x :: (y :: _) as tl => (y - x) :: np_diff tl
  | _ => []
  end.

(** [returns = np.diff(equity_curve) / equity_curve[:-1]] *)
Definition returns_of (equity_curve : list float) : list float :=
  zip_with PrimFloat.div (np_diff equity_curve) (removelast equity_curve).

(** [sharpe_ratio = np.mean(returns) / np.std(returns) * np.sqrt(252)
    if len(returns) > 0 else 0] *)
Definition sharpe_ratio (equity_curve : list float) : float :=
  let returns := returns_of equity_curve in
  if (0 <? length returns)%nat
  then np_mean returns / np_std returns * PrimFloat.sqrt 252
  else 0.
End Metrics.

(** ** Example tables, strategies and configurations *)

Definition one_symbol (ts : Z) (p : Q) : Bar.t := Bar.mk ts [("X"%string, p)].

Definition unpriced (ts : Z) : Bar.t := Bar.mk ts [].

Definition buy_X : Signal.t := Signal.mk "X" "buy" None.

Definition sell_X (q : option Q) : Signal.t := Signal.mk "X" "sell" q.

(** The strategy that answers [script[i]] on seeing the bars up to index [i]. *)
Definition scripted (script : list (option Signal.t)) : Strategy :=
  fun seen =>
    match script !! (length seen - 1)%nat with
    | Some answer => answer
    | None => None
    end.

Definition buy_once : Strategy := scripted [None; Some buy_X].

Definition buy_on_third : Strategy := scripted [None; None; Some buy_X].

Definition buy_then_sell : Strategy :=
  scripted [None; Some buy_X; Some (sell_X None)].

Definition buy_then_oversell : Strategy :=
  scripted [None; Some buy_X; Some (sell_X (Some 300))].

Definition buy_then_sell_late (q : option Q) : Strategy :=
  scripted [None; Some buy_X; None; Some (sell_X q)].

Definition rising : list Bar.t :=
  [one_symbol 0 100; one_symbol 1 100; one_symbol 2 110].

Definition rising_more : list Bar.t :=
  [one_symbol 0 100; one_symbol 1 100; one_symbol 2 120; one_symbol 3 120].

(** X is priced on the first four bars and missing from the fifth. *)
Definition late_gap : list Bar.t :=
  [one_symbol 0 100; one_symbol 1 100; one_symbol 2 100; one_symbol 3 100;
   unpriced 4].

(** X is missing from the third bar on. *)
Definition early_gap : list Bar.t :=
  [one_symbol 0 100; one_symbol 1 100; unpriced 2].

(** X is missing from the fourth bar on. *)
Definition long_gap : list Bar.t :=
  [one_symbol 0 100; one_symbol 1 100; one_symbol 2 100; unpriced 3;
   unpriced 4].

(** The defaults, with the whole capital allowed in one position. *)
Definition all_in_config : BacktestConfig :=
  mkConfig 100000 (1 # 1000) 5 (1 # 10) 1 1 None None 1 true 252 63 21.

(** A fresh engine on which one SELL of X has been placed. *)
Definition lone_sell : BacktestEngine :=
  _place_order "X" SELL 1 100 0 (_reset default_config).

(** The scenario of the specification: no slippage, 200 units of X bought at
    100 out of a capital of 100,000 (commission 20), then sold at 120. *)
Definition no_slippage_config : BacktestConfig :=
  mkConfig 100000 (1 # 1000) 0 (1 # 10) (2 # 10) 1 None None 1 true 252 63 21.

Definition holding_200 : BacktestEngine :=
  mkEngine 79980 [Position.mk "X" 200 100 11 100 0] [("X"%string, 0%nat)]
           [] [] [100000] [] 0 20 0.

Definition sell_at_120 (q : Q) : Order.t :=
  Order.mk "X" SELL q 120 30 PENDING None None.

Definition buy_at (q p : Q) (ts : Z) : Order.t :=
  Order.mk "X" BUY q p ts PENDING None None.

(** The reconciliation as the specification words it: the last recorded
    equity is capital plus Σ quantity × current mark price over all open
    positions. *)
Definition reconciles_with_marks (s : BacktestEngine) : Prop :=
  exists e, last (equity_curve s) = Some e /\ e == capital s + marked_value s.

(** The trade identity as the specification words it, for a closed quantity
    [q] charged the commission |q × exit price × commission_rate|. *)
Definition trade_identity (cfg : BacktestConfig) (t : Trade.t) (q : Q)
           (capital_before capital_after : Q) : Prop :=
  let c := Qabs (q * Trade.exit_price t * commission_rate cfg) in
  Trade.pnl t == (Trade.exit_price t - Trade.entry_price t) * q - c /\
  capital_after == capital_before + (q * Trade.exit_price t - c).

(** ** Relations between engine states *)

(** [h'] holds the same books as [h]: the same objects, with the same
    quantity, cost basis and entry timestamp. *)
Definition same_book (h h' : list Position.t) : Prop :=
  length h' = length h /\
  forall r pos, h !! r = Some pos ->
    exists pos', h' !! r = Some pos' /\
      Position.quantity pos' = Position.quantity pos /\
      Position.entry_price pos' = Position.entry_price pos /\
      Position.entry_timestamp pos' = Position.entry_timestamp pos.

(** From [s] to [s']: the store only grows, the objects already there keep
    their mark, and a dictionary entry of [s'] pointing into the old store
    was an entry of [s]. *)
Definition fill_ext (s s' : BacktestEngine) : Prop :=
  (length (heap s) <= length (heap s'))%nat /\
  (forall r pos, heap s !! r = Some pos ->
     exists pos', heap s' !! r = Some pos' /\
                  Position.current_price pos' = Position.current_price pos) /\
  (forall sym r, (sym, r) ∈ positions s' -> (r < length (heap s))%nat ->
                 (sym, r) ∈ positions s).

(** [s'] is [s] up to its order list. *)
Definition only_orders (s s' : BacktestEngine) : Prop :=
  s' = set_orders (orders s') s.

(** An order as [_place_order] creates it at [ts]. *)
Definition placed_at (ts : Z) (o : Order.t) : Prop :=
  Order.status o = PENDING /\ Order.timestamp o = ts /\
  Order.fill_timestamp o = None.

(** An order as the risk overlay creates it during [bar]: a SELL on a symbol
    the bar prices. *)
Definition risk_order (bar : Bar.t) (o : Order.t) : Prop :=
  placed_at (Bar.name bar) o /\ Order.side o = SELL /\
  bar_has (Order.symbol o) bar = true.

(** From [s] to [s'] orders were only queued, all of them satisfying [P]. *)
Definition queued (P : Order.t -> Prop) (s s' : BacktestEngine) : Prop :=
  exists new, orders s' = orders s ++ new /\ Forall P new.

(** Orders that are no longer pending stay as they are. *)
Definition settled_kept (s s' : BacktestEngine) : Prop :=
  forall j o, orders s !! j = Some o -> Order.status o <> PENDING ->
              orders s' !! j = Some o.

(** Orders from index [n0] on are filled at the time they were placed. *)
Definition liquidated_from (n0 : nat) (ts : Z) (s : BacktestEngine) : Prop :=
  forall j o, (n0 <= j)%nat -> orders s !! j = Some o ->
    Order.status o = FILLED /\ Order.timestamp o = ts /\
    Order.fill_timestamp o = Some ts /\ Order.side o = SELL.

Ltac by_computation :=
  vm_compute; first [reflexivity | discriminate | (intro; discriminate)].

(** ** Steps of the engine *)

(** The states an engine goes through when each queued order counts as a
    step of its own: [_reset], a marking, one order of the execution loop,
    one call of [_place_order] (a BUY only for a positive quantity, as
    [_process_signal] guards it) and one recording of the equity.  Every
    point of a run is such a state. *)
Inductive stepwise (cfg : BacktestConfig) : BacktestEngine -> Prop :=
| step_reset : stepwise cfg (_reset cfg)
| step_mark bar s :
    stepwise cfg s -> stepwise cfg (_update_positions bar s)
| step_fill bar s done o todo :
    stepwise cfg s -> orders s = done ++ o :: todo ->
    stepwise cfg (set_orders (done ++ (execute_order cfg bar o s).1 :: todo)
                             (execute_order cfg bar o s).2)
| step_place sym sd qty prc ts s :
    stepwise cfg s -> (sd = BUY -> 0 < qty) ->
    stepwise cfg (_place_order sym sd qty prc ts s)
| step_record bar s :
    stepwise cfg s -> stepwise cfg (record_equity bar s).

(** ** Accounting *)

(** The dictionary has one entry per symbol, and the Position stored under a
    symbol carries that symbol. *)
Definition keys_ok (s : BacktestEngine) : Prop :=
  NoDup (positions s).*1 /\
  forall sym r pos, (sym, r) ∈ positions s -> heap s !! r = Some pos ->
                    Position.symbol pos = sym.

(** What an order has cost in commission: nothing while it is pending. *)
Definition order_commission (cfg : BacktestConfig) (o : Order.t) : Q :=
  match Order.status o with
  | PENDING => 0
  | _ => commission_of cfg o
  end.

(** What an order has cost in slippage: nothing while it is pending. *)
Definition order_slippage (cfg : BacktestConfig) (o : Order.t) : Q :=
  match Order.status o with
  | PENDING => 0
  | _ => Qabs (fill_price_of cfg o - Order.price o) * Qabs (Order.quantity o)
  end.

(** The commission an executed BUY order took out of the capital. *)
Definition buy_commission (cfg : BacktestConfig) (o : Order.t) : Q :=
  match Order.status o, Order.side o with
  | PENDING, _ => 0
  | _, BUY => commission_of cfg o
  | _, SELL => 0
  end.

(** The commission of the orders that were executed. *)
Definition charged (cfg : BacktestConfig) (os : list Order.t) : Q :=
  Qsum (order_commission cfg <$> os).

(** The slippage cost of the orders that were executed. *)
Definition slipped (cfg : BacktestConfig) (os : list Order.t) : Q :=
  Qsum (order_slippage cfg <$> os).

(** The commission of the BUY orders that were executed. *)
Definition buy_commissions (cfg : BacktestConfig) (os : list Order.t) : Q :=
  Qsum (buy_commission cfg <$> os).

(** Σ pnl over the recorded trades. *)
Definition realized (ts : list Trade.t) : Q := Qsum (Trade.pnl <$> ts).

(** What one dictionary item cost: entry price × quantity. *)
Definition item_cost (h : list Position.t) (item : string * nat) : Q :=
  match h !! item.2 with
  | Some position => Position.entry_price position * Position.quantity position
  | None => 0
  end.

(** Σ entry price × quantity over the open positions. *)
Definition cost_basis (s : BacktestEngine) : Q :=
  Qsum (item_cost (heap s) <$> positions s).

(** The five outcomes of one order of the loop on a well-formed store. *)
Inductive fill_case (cfg : BacktestConfig) (bar : Bar.t) (o : Order.t)
          (s : BacktestEngine) : Prop :=
| fill_settled :
    Order.status o <> PENDING -> execute_order cfg bar o s = (o, s) ->
    fill_case cfg bar o s
| fill_buy_new :
    Order.status o = PENDING -> Order.side o = BUY ->
    lookup (Order.symbol o) (positions s) = None ->
    fill_case cfg bar o s
| fill_buy_held r pos :
    Order.status o = PENDING -> Order.side o = BUY ->
    lookup (Order.symbol o) (positions s) = Some r -> heap s !! r = Some pos ->
    0 < Position.quantity pos ->
    fill_case cfg bar o s
| fill_sell_held r pos :
    Order.status o = PENDING -> Order.side o = SELL ->
    lookup (Order.symbol o) (positions s) = Some r -> heap s !! r = Some pos ->
    0 < Position.quantity pos ->
    fill_case cfg bar o s
| fill_sell_ghost :
    Order.status o = PENDING -> Order.side o = SELL ->
    lookup (Order.symbol o) (positions s) = None ->
    fill_case cfg bar o s.

(** ** Orders over time *)

(** Two orders ask for the same thing: what [_place_order] wrote in them. *)
Definition same_request (o o' : Order.t) : Prop :=
  Order.symbol o' = Order.symbol o /\ Order.side o' = Order.side o /\
  Order.quantity o' = Order.quantity o /\ Order.price o' = Order.price o /\
  Order.timestamp o' = Order.timestamp o.

(** From [s] to [s'] every order kept its place, and is either untouched or
    was pending and is now filled. *)
Definition orders_kept (cfg : BacktestConfig) (s s' : BacktestEngine) : Prop :=
  forall j o, orders s !! j = Some o ->
    exists o', orders s' !! j = Some o' /\
      (o' = o \/ (Order.status o = PENDING /\ exists bar, o' = filled cfg bar o)).

(** ** What the risk overlay queues *)

(** The orders the loop of [_check_risk_management] places for one item of
    the snapshot, the store being [h]: none if the bar does not price the
    symbol, one for a breached stop loss, one for a reached take profit. *)
Definition risk_orders (cfg : BacktestConfig) (bar : Bar.t)
           (h : list Position.t) (item : string * nat) : list Order.t :=
  match lookup item.1 (Bar.row bar), h !! item.2 with
  | Some current_price, Some position =>
      let return_pct :=
        return_pct_of current_price (Position.entry_price position) in
      let protective :=
        Order.mk item.1 SELL (Position.quantity position) current_price
                 (Bar.name bar) PENDING None None in
      (match stop_loss_pct cfg with
       | Some sl =>
           if PrimFloat.leb return_pct (- binary64 sl)%float
           then [protective] else []
       | None => []
       end)
      ++
      (match take_profit_pct cfg with
       | Some tp =>
           if PrimFloat.leb (binary64 tp) return_pct then [protective] else []
       | None => []
       end)
  | _, _ => []
  end.

(** The defaults with a stop loss of 5% and a take profit of 10%. *)
Definition guarded_config : BacktestConfig :=
  mkConfig 100000 (1 # 1000) 5 (1 # 10) (2 # 10) 1 (Some 5) (Some 10) 1 true
           252 63 21.

(** The defaults with a take profit of 15% and no stop loss. *)
Definition take_profit_15 : BacktestConfig :=
  mkConfig 100000 (1 # 1000) 5 (1 # 10) (2 # 10) 1 None (Some 15) 1 true
           252 63 21.

(** 200 units held at an entry price of 0. *)
Definition holding_free_200 : BacktestEngine :=
  mkEngine 100000 [Position.mk "X" 200 0 11 0 0] [("X"%string, 0%nat)]
           [] [] [100000] [] 0 0 0.

(** ** The terminal liquidation *)

(** The dictionary items whose symbol the bar prices, and the others. *)
Definition priced (bar : Bar.t) (item : string * nat) : bool := bar_has item.1 bar.

Definition unpriced_items (bar : Bar.t) (d : list (string * nat))
  : list (string * nat) :=
  List.filter (fun item => negb (priced bar item)) d.

(** The dictionary after deleting, item by item, the priced symbols of
    [items]. *)
Definition remove_priced (bar : Bar.t) (items d : list (string * nat))
  : list (string * nat) :=
  fold_left (fun d item => if priced bar item then remove_key item.1 d else d)
            items d.

(** ** Walk-forward analysis *)

(** Where Python puts the bound [i] of a slice of [n] elements. *)
Definition py_bound (n i : Z) : Z :=
  if (i <? 0)%Z then Z.max (i + n) 0 else Z.min i n.

(** [l[a:b]], for a list and for the rows [data.iloc[a:b]] of a table. *)
Definition py_slice {A} (l : list A) (a b : Z) : list A :=
  let n := Z.of_nat (length l) in
  firstn (Z.to_nat (py_bound n b - py_bound n a))
         (skipn (Z.to_nat (py_bound n a)) l).

(** One entry of [results]: the engine as [run_backtest] left it on the
    test rows, from which the window's metrics are computed, and the four
    timestamps added to the dictionary. *)
Module Window.
Record t : Type := mk {
  result : BacktestEngine;
  train_start : Z;
  train_end : Z;
  test_start : Z;
  test_end : Z
}.
End Window.

(** The four entries of a window's result that the aggregation reads. *)
Module Scores.
Record t : Type := mk {
  sharpe_ratio : float;
  total_return : float;
  max_drawdown : float;
  win_rate : float
}.
End Scores.

(** The dictionary of [_aggregate_walk_forward_results]. *)
Module Aggregate.
Record t : Type := mk {
  n_windows : nat;
  avg_sharpe : float;
  avg_return : float;
  avg_max_drawdown : float;
  avg_win_rate : float;
  consistency : float;
  windows : list Window.t
}.
End Aggregate.

(** [strategy_factory(train_data)] *)
Definition StrategyFactory : Type := list Bar.t -> Strategy.

(** The body of the loop of [run_walk_forward] for the window starting at
    [start_idx]; [None] where [index[0]], [index[-1]] or [iloc[-1]] raise
    IndexError on an empty slice. *)
Definition walk_window (cfg : BacktestConfig) (strategy_factory : StrategyFactory)
           (data : list Bar.t) (start_idx : Z) : option Window.t :=
  let train_end := (start_idx + train_period_days cfg)%Z in
  let test_end := (train_end + test_period_days cfg)%Z in
  let train_data := py_slice data start_idx train_end in
  let test_data := py_slice data train_end test_end in
  match head train_data, last train_data, head test_data, last test_data with
  | Some train_first, Some train_last, Some test_first, Some test_last =>
      let strategy := strategy_factory train_data in
      match run_backtest cfg strategy test_data with
      | Some final =>
          Some (Window.mk final (Bar.name train_first) (Bar.name train_last)
                          (Bar.name test_first) (Bar.name test_last))
      | None => None
      end
  | _, _, _, _ => None
  end.

(** How the walk ends, if it does. *)
Inductive walk (A : Type) : Type :=
| Returned (value : A)
| IndexError.
Arguments Returned {A} value.
Arguments IndexError {A}.

(** The while loop of [run_walk_forward]; [None] when [fuel] iterations
    did not reach its end. *)
Fixpoint walk_loop (cfg : BacktestConfig) (strategy_factory : StrategyFactory)
         (data : list Bar.t) (fuel : nat) (start_idx : Z)
         (results : list Window.t) : option (walk (list Window.t)) :=
  match fuel with
  | O => None
  | S fuel' =>
      if (start_idx + train_period_days cfg + test_period_days cfg
          <=? Z.of_nat (length data))%Z
      then
        match walk_window cfg strategy_factory data start_idx with
        | Some result =>
            walk_loop cfg strategy_factory data fuel'
                      (start_idx + step_days cfg)%Z (results ++ [result])
        | None => Some IndexError
        end
      else Some (Returned results)
  end.

(** [_aggregate_walk_forward_results]; [scores] reads the four keys of a
    window's result. *)
Definition _aggregate_walk_forward_results (scores : Window.t -> Scores.t)
           (results : list Window.t) : Aggregate.t :=
  let column key := List.map (fun r => key (scores r)) results in
  Aggregate.mk (length results)
               (Metrics.np_mean (column Scores.sharpe_ratio))
               (Metrics.np_mean (column Scores.total_return))
               (Metrics.np_mean (column Scores.max_drawdown))
               (Metrics.np_mean (column Scores.win_rate))
               (Metrics.np_std (column Scores.sharpe_ratio))
               results.

Definition run_walk_forward (cfg : BacktestConfig) (scores : Window.t -> Scores.t)
           (strategy_factory : StrategyFactory) (data : list Bar.t) (fuel : nat)
  : option (walk Aggregate.t) :=
  match walk_loop cfg strategy_factory data fuel 0 [] with
  | Some (Returned results) =>
      Some (Returned (_aggregate_walk_forward_results scores results))
  | Some IndexError => Some IndexError
  | None => None
  end.

(** The number of windows of [total] rows. *)
Definition window_count (cfg : BacktestConfig) (total : Z) : nat :=
  let spare := (total - train_period_days cfg - test_period_days cfg)%Z in
  if (spare <? 0)%Z then 0%nat else S (Z.to_nat (spare / step_days cfg)).

(** A table of [n] bars of one symbol at 100, and walks over it. *)
Definition flat (n : nat) : list Bar.t :=
  List.map (fun i => one_symbol (Z.of_nat i) 100) (seq 0 n).

Definition walk_config (train test step : Z) : BacktestConfig :=
  mkConfig 100000 (1 # 1000) 5 (1 # 10) (2 # 10) 1 None None 1 true
           train test step.

Definition no_scores : Window.t -> Scores.t :=
  fun _ => Scores.mk 0%float 0%float 0%float 0%float.

Definition never : StrategyFactory := fun _ _ => None.

(** ** Trade statistics *)

Definition Qlen {A} (l : list A) : Q := inject_Z (Z.of_nat (length l)).

(** [[t for t in self.trades if t.pnl > 0]] *)
Definition winning_trades (ts : list Trade.t) : list Trade.t :=
  List.filter (fun t => Qlt_bool 0 (Trade.pnl t)) ts.

(** [[t for t in self.trades if t.pnl <= 0]] *)
Definition losing_trades (ts : list Trade.t) : list Trade.t :=
  List.filter (fun t => Qle_bool (Trade.pnl t) 0) ts.

Definition win_rate (ts : list Trade.t) : Q :=
  match ts with
  | [] => 0
  | _ => Qlen (winning_trades ts) / Qlen ts * 100
  end.

Definition total_wins (ts : list Trade.t) : Q :=
  Qsum (Trade.pnl <$> winning_trades ts).

Definition total_losses (ts : list Trade.t) : Q :=
  Qabs (Qsum (Trade.pnl <$> losing_trades ts)).

Definition profit_factor (ts : list Trade.t) : Q :=
  if Qlt_bool 0 (total_losses ts)
  then total_wins ts / total_losses ts
  else 0.

(** ** Basic facts *)

(** The depth of [Metrics.pairwise_sum] is immaterial once it covers the
    length of the array. *)
Lemma pairwise_sum_depth d1 d2 (a : list float) :
  (length a <= d1)%nat -> (length a <= d2)%nat ->
  Metrics.pairwise_sum d1 a = Metrics.pairwise_sum d2 a.
Proof.
  revert d2 a. induction d1 as [|d1 IH]; intros d2 a H1 H2.
  - destruct d2 as [|d2]; [done|]. cbn [Metrics.pairwise_sum].
    destruct (Nat.ltb_spec 128 (length a)); [lia | done].
  - cbn [Metrics.pairwise_sum].
    destruct (Nat.ltb_spec 128 (length a)) as [Hbig|Hsmall].
    + destruct d2 as [|d2]; [lia|]. cbn [Metrics.pairwise_sum].
      destruct (Nat.ltb_spec 128 (length a)); [|lia].
      set (n2 := (length a / 2 - (length a / 2) mod 8)%nat).
      assert (Hn2 : (57 <= n2 /\ n2 < length a)%nat).
      { unfold n2.
        pose proof (Nat.mod_upper_bound (length a / 2) 8).
        pose proof (Nat.div_mod_eq (length a) 2).
        pose proof (Nat.mod_upper_bound (length a) 2). lia. }
      f_equal; apply IH; rewrite ?length_take, ?length_drop; lia.
    + destruct d2 as [|d2]; [done|]. cbn [Metrics.pairwise_sum].
      destruct (Nat.ltb_spec 128 (length a)); [lia | done].
Qed.

(** The equation of numpy's [pairwise_sum], at the depth [np_sum] uses. *)
Lemma pairwise_sum_eq (a : list float) :
  Metrics.pairwise_sum (length a) a =
  if (128 <? length a)%nat then
    let n2 := (length a / 2 - (length a / 2) mod 8)%nat in
    (Metrics.pairwise_sum (length (firstn n2 a)) (firstn n2 a)
     + Metrics.pairwise_sum (length (skipn n2 a)) (skipn n2 a))%float
  else Metrics.block_sum a.
Proof.
  destruct (length a) as [|n] eqn:En.
  - cbn [Metrics.pairwise_sum]. destruct (Nat.ltb_spec 128 0); [lia | done].
  - cbn [Metrics.pairwise_sum]. rewrite En.
    destruct (Nat.ltb_spec 128 (S n)) as [Hbig|Hsmall]; [|done].
    cbv zeta. set (n2 := (S n / 2 - (S n / 2) mod 8)%nat).
    assert (Hn2 : (57 <= n2 /\ n2 < S n)%nat).
    { unfold n2.
      pose proof (Nat.mod_upper_bound (S n / 2) 8).
      pose proof (Nat.div_mod_eq (S n) 2).
      pose proof (Nat.mod_upper_bound (S n) 2). lia. }
    f_equal; apply pairwise_sum_depth; rewrite ?length_take, ?length_drop; lia.
Qed.

Lemma Qlt_bool_iff x y : Qlt_bool x y = true <-> x < y.
Proof.
  unfold Qlt_bool. rewrite negb_true_iff.
  split.
  - intros H. apply Qnot_le_lt. intros Hle.
    apply Qle_bool_iff in Hle. congruence.
  - intros H. destruct (Qle_bool y x) eqn:E; [|reflexivity].
    apply Qle_bool_iff in E. lra.
Qed.

Lemma Qlt_bool_false x y : Qlt_bool x y = false <-> y <= x.
Proof.
  unfold Qlt_bool. rewrite negb_false_iff. apply Qle_bool_iff.
Qed.

Lemma Qle_bool_false x y : Qle_bool x y = false <-> y < x.
Proof.
  split.
  - intros H. apply Qnot_le_lt. intros Hle.
    apply Qle_bool_iff in Hle. congruence.
  - intros H. destruct (Qle_bool x y) eqn:E; [|reflexivity].
    apply Qle_bool_iff in E. lra.
Qed.

Lemma py_min_le_r a b : py_min a b <= b.
Proof.
  unfold py_min. destruct (Qlt_bool b a) eqn:E.
  - lra.
  - apply Qlt_bool_false in E. exact E.
Qed.

Lemma py_min_cases a b :
  (b < a /\ py_min a b = b) \/ (a <= b /\ py_min a b = a).
Proof.
  unfold py_min. destruct (Qlt_bool b a) eqn:E.
  - left. apply Qlt_bool_iff in E. auto.
  - right. apply Qlt_bool_false in E. auto.
Qed.

Lemma lookup_elem {A} k (d : list (string * A)) v :
  lookup k d = Some v -> (k, v) ∈ d.
Proof.
  induction d as [|[k' v'] d IH]; simpl; [discriminate|].
  destruct (String.eqb_spec k k') as [->|Hne].
  - intros [= ->]. apply elem_of_cons. by left.
  - intros H. apply elem_of_cons. right. auto.
Qed.

Lemma lookup_remove_key {A} k (d : list (string * A)) :
  lookup k (remove_key k d) = None.
Proof.
  induction d as [|[k' v'] d IH]; simpl; [reflexivity|].
  destruct (String.eqb k k') eqn:E; [exact IH|].
  simpl. by rewrite E.
Qed.

Lemma elem_remove_key {A} k (d : list (string * A)) x :
  x ∈ remove_key k d -> x ∈ d /\ x.1 <> k.
Proof.
  induction d as [|[k' v'] d IH]; simpl.
  - intros H. by apply elem_of_nil in H.
  - destruct (String.eqb_spec k k') as [->|Hne].
    + intros H. destruct (IH H). split; [|done]. apply elem_of_cons. by right.
    + intros H. apply elem_of_cons in H as [->|H].
      * split; [apply elem_of_cons; by left | simpl; congruence].
      * destruct (IH H). split; [|done]. apply elem_of_cons. by right.
Qed.

Lemma NoDup_remove_key k (d : list (string * nat)) :
  NoDup d.*2 -> NoDup (remove_key k d).*2.
Proof.
  induction d as [|[k' v'] d IH]; simpl; [done|].
  rewrite NoDup_cons. intros [Hni Hnd].
  destruct (String.eqb k k'); [auto|].
  simpl. apply NoDup_cons. split; [|auto].
  intros Hin. apply Hni.
  apply list_elem_of_fmap in Hin as [[k0 v0] [-> Hin]].
  apply elem_remove_key in Hin as [Hin _].
  apply list_elem_of_fmap. by exists (k0, v0).
Qed.

Lemma lookup_app_dict {A} k (d d' : list (string * A)) :
  lookup k (d ++ d') =
  match lookup k d with Some v => Some v | None => lookup k d' end.
Proof.
  induction d as [|[k' v'] d IH]; simpl; [reflexivity|].
  by destruct (String.eqb k k').
Qed.

Lemma NoDup_refs_inj (d : list (string * nat)) a b r :
  NoDup d.*2 -> (a, r) ∈ d -> (b, r) ∈ d -> a = b.
Proof.
  induction d as [|[k v] d IH]; simpl.
  - intros _ H. by apply elem_of_nil in H.
  - rewrite NoDup_cons. intros [Hni Hnd] Ha Hb.
    apply elem_of_cons in Ha as [Ha|Ha]; apply elem_of_cons in Hb as [Hb|Hb].
    + congruence.
    + exfalso. apply Hni. apply list_elem_of_fmap. exists (b, r).
      split; [simpl; congruence | done].
    + exfalso. apply Hni. apply list_elem_of_fmap. exists (a, r).
      split; [simpl; congruence | done].
    + auto.
Qed.

(** ** The store under marking *)

Lemma same_book_refl h : same_book h h.
Proof. split; [done|]. intros r pos H. by exists pos. Qed.

Lemma same_book_trans h1 h2 h3 :
  same_book h1 h2 -> same_book h2 h3 -> same_book h1 h3.
Proof.
  intros [L12 H12] [L23 H23]. split; [congruence|].
  intros r pos H.
  destruct (H12 r pos H) as (p2 & E2 & ? & ? & ?).
  destruct (H23 r p2 E2) as (p3 & E3 & ? & ? & ?).
  exists p3. repeat split; congruence.
Qed.

Lemma mark_position_same_book bar h item :
  same_book h (mark_position bar h item).
Proof.
  destruct item as [sym r]. unfold mark_position.
  destruct (lookup sym (Bar.row bar)) as [p|]; [|apply same_book_refl].
  destruct (h !! r) as [pos|] eqn:E; [|apply same_book_refl].
  split; [apply length_insert|].
  intros r' pos' H'. destruct (decide (r = r')) as [<-|Hne].
  - rewrite list_lookup_insert_eq by (eapply lookup_lt_Some; eauto).
    eexists. split; [reflexivity|]. simpl. by simplify_eq.
  - rewrite list_lookup_insert_ne by done. by exists pos'.
Qed.

Lemma mark_fold_same_book bar items h :
  same_book h (fold_left (mark_position bar) items h).
Proof.
  revert h. induction items as [|item items IH]; intros h; simpl.
  - apply same_book_refl.
  - eapply same_book_trans; [apply mark_position_same_book | apply IH].
Qed.

Lemma book_ok_same_book h h' d :
  same_book h h' -> book_ok h d -> book_ok h' d.
Proof.
  intros [_ Hsb] [Hnd Hlive]. split; [done|].
  intros sym r Hin. destruct (Hlive sym r Hin) as (pos & E & Hq).
  destruct (Hsb r pos E) as (pos' & E' & Hq' & _).
  exists pos'. split; [done|]. by rewrite Hq'.
Qed.

Lemma _update_positions_ok bar s :
  store_ok s -> store_ok (_update_positions bar s).
Proof.
  intros [Hb Ho]. split; [|exact Ho]. simpl.
  eapply book_ok_same_book; [apply mark_fold_same_book | exact Hb].
Qed.

(** ** The store under fills *)

Lemma book_ok_ref_lt h d sym r : book_ok h d -> (sym, r) ∈ d -> (r < length h)%nat.
Proof.
  intros [_ Hlive] Hin. destruct (Hlive sym r Hin) as (pos & E & _).
  by eapply lookup_lt_Some.
Qed.

Lemma buy_update_ok cfg bar o s :
  book_ok (heap s) (positions s) -> 0 < Order.quantity o ->
  book_ok (heap (buy_update cfg bar o s)) (positions (buy_update cfg bar o s)).
Proof.
  intros Hb Hq. unfold buy_update.
  destruct (lookup (Order.symbol o) (positions s)) as [r|] eqn:El.
  - destruct (heap s !! r) as [pos|] eqn:Eh; [|exact Hb].
    simpl. destruct Hb as [Hnd Hlive]. split; [done|].
    intros sym r' Hin. destruct (decide (r = r')) as [<-|Hne].
    + rewrite list_lookup_insert_eq by (eapply lookup_lt_Some; eauto).
      eexists. split; [reflexivity|]. simpl.
      destruct (Hlive sym r Hin) as (pos0 & E0 & Hq0).
      assert (pos0 = pos) by congruence. subst. lra.
    + rewrite list_lookup_insert_ne by done. eauto.
  - simpl. pose proof Hb as [Hnd Hlive]. split.
    + rewrite fmap_app. apply NoDup_app. split; [done|]. split.
      * intros x Hx Hx'. apply list_elem_of_fmap in Hx as [[k v] [-> Hin]].
        simpl in Hx'. apply list_elem_of_singleton in Hx'.
        pose proof (book_ok_ref_lt _ _ _ _ Hb Hin). simpl in *. lia.
      * apply NoDup_singleton.
    + intros sym r Hin. apply elem_of_app in Hin as [Hin|Hin].
      * destruct (Hlive sym r Hin) as (pos & E & Hq0). exists pos.
        split; [|done]. rewrite lookup_app_l; [done|].
        by eapply lookup_lt_Some.
      * apply list_elem_of_singleton in Hin. injection Hin as -> ->.
        eexists. split.
        -- rewrite lookup_app_r by lia. rewrite Nat.sub_diag. reflexivity.
        -- simpl. exact Hq.
Qed.

Lemma sell_update_ok cfg bar o s :
  book_ok (heap s) (positions s) ->
  book_ok (heap (sell_update cfg bar o s)) (positions (sell_update cfg bar o s)).
Proof.
  intros Hb. unfold sell_update.
  destruct (lookup (Order.symbol o) (positions s)) as [r|] eqn:El; [|exact Hb].
  destruct (heap s !! r) as [pos|] eqn:Eh; [|exact Hb].
  pose proof Hb as [Hnd Hlive].
  pose proof (lookup_elem _ _ _ El) as Hel.
  cbv zeta.
  destruct (Qle_bool _ 0) eqn:Eq; simpl.
  - split; [by apply NoDup_remove_key|].
    intros sym r' Hin. apply elem_remove_key in Hin as [Hin Hne]. simpl in Hne.
    destruct (decide (r = r')) as [<-|Hr].
    + exfalso. apply Hne. eapply NoDup_refs_inj; eauto.
    + rewrite list_lookup_insert_ne by done. eauto.
  - split; [done|].
    intros sym r' Hin. destruct (decide (r = r')) as [<-|Hr].
    + rewrite list_lookup_insert_eq by (eapply lookup_lt_Some; eauto).
      eexists. split; [reflexivity|]. simpl.
      by apply Qle_bool_false in Eq.
    + rewrite list_lookup_insert_ne by done. eauto.
Qed.

Lemma execute_order_book_ok cfg bar o s :
  book_ok (heap s) (positions s) ->
  (Order.status o = PENDING -> Order.side o = BUY -> 0 < Order.quantity o) ->
  book_ok (heap (execute_order cfg bar o s).2)
          (positions (execute_order cfg bar o s).2).
Proof.
  intros Hb Hq. unfold execute_order.
  destruct (Order.status o); simpl; try exact Hb.
  destruct (Order.side o); simpl.
  - apply (buy_update_ok cfg bar o
             (set_total_slippage _ (set_total_commission _ s))); auto.
  - apply (sell_update_ok cfg bar o
             (set_total_slippage _ (set_total_commission _ s))); auto.
Qed.

Lemma execute_order_fst cfg bar o s :
  (execute_order cfg bar o s).1 = settle cfg bar o.
Proof. unfold execute_order, settle. by destruct (Order.status o). Qed.

Lemma settle_not_pending cfg bar o : Order.status (settle cfg bar o) <> PENDING.
Proof. unfold settle. destruct (Order.status o) eqn:E; simpl; congruence. Qed.

Lemma execute_order_orders cfg bar o s :
  orders (execute_order cfg bar o s).2 = orders s.
Proof.
  unfold execute_order. destruct (Order.status o); try reflexivity.
  destruct (Order.side o); simpl.
  - unfold buy_update. simpl.
    destruct (lookup _ _); [destruct (_ !! _)|]; reflexivity.
  - unfold sell_update. simpl.
    destruct (lookup _ _); [destruct (_ !! _)|]; try reflexivity.
    cbv zeta. by destruct (Qle_bool _ _).
Qed.

(** ** The execution loop *)

Lemma execute_order_set_orders cfg bar o os s :
  execute_order cfg bar o (set_orders os s) =
  ((execute_order cfg bar o s).1, set_orders os (execute_order cfg bar o s).2).
Proof.
  unfold execute_order. destruct (Order.status o); try reflexivity.
  destruct (Order.side o); simpl.
  - unfold buy_update. simpl.
    destruct (lookup _ _); [destruct (_ !! _)|]; reflexivity.
  - unfold sell_update. simpl.
    destruct (lookup _ _); [destruct (_ !! _)|]; try reflexivity.
    cbv zeta. simpl. by destruct (Qle_bool _ _).
Qed.

Lemma execute_loop_set_orders cfg bar todo os s :
  execute_loop cfg bar todo (set_orders os s) =
  ((execute_loop cfg bar todo s).1, set_orders os (execute_loop cfg bar todo s).2).
Proof.
  revert s. induction todo as [|o todo IH]; intros s; simpl; [reflexivity|].
  rewrite execute_order_set_orders.
  destruct (execute_order cfg bar o s) as [o' s']. simpl.
  rewrite IH. by destruct (execute_loop cfg bar todo s').
Qed.

Lemma execute_loop_fst cfg bar os s :
  (execute_loop cfg bar os s).1 = settle cfg bar <$> os.
Proof.
  revert s. induction os as [|o os IH]; intros s; simpl; [reflexivity|].
  pose proof (execute_order_fst cfg bar o s) as Ho.
  destruct (execute_order cfg bar o s) as [o' s']. simpl in Ho.
  specialize (IH s'). destruct (execute_loop cfg bar os s') as [os' s''].
  simpl in *. by subst.
Qed.

Lemma execute_loop_book_ok cfg bar os s :
  buys_ok os -> book_ok (heap s) (positions s) ->
  book_ok (heap (execute_loop cfg bar os s).2)
          (positions (execute_loop cfg bar os s).2).
Proof.
  revert s. induction os as [|o os IH]; intros s Hos Hb; simpl; [done|].
  pose proof (execute_order_book_ok cfg bar o s Hb) as Ho.
  destruct (execute_order cfg bar o s) as [o' s']. simpl in Ho.
  assert (Hb' : book_ok (heap s') (positions s')).
  { apply Ho. apply Hos. apply elem_of_cons. by left. }
  assert (Hos' : buys_ok os).
  { intros x Hx. apply Hos. apply elem_of_cons. by right. }
  specialize (IH s' Hos' Hb').
  by destruct (execute_loop cfg bar os s') as [os' s''].
Qed.

Lemma _execute_orders_orders cfg bar s :
  orders (_execute_orders cfg bar s) = settle cfg bar <$> orders s.
Proof.
  unfold _execute_orders.
  pose proof (execute_loop_fst cfg bar (orders s) s) as H.
  destruct (execute_loop cfg bar (orders s) s) as [os s']. simpl in *.
  done.
Qed.

Lemma _execute_orders_eq cfg bar s :
  _execute_orders cfg bar s =
  set_orders (settle cfg bar <$> orders s) (execute_loop cfg bar (orders s) s).2.
Proof.
  unfold _execute_orders.
  pose proof (execute_loop_fst cfg bar (orders s) s) as H.
  destruct (execute_loop cfg bar (orders s) s) as [os s']. simpl in *.
  by subst.
Qed.

Lemma buys_ok_settle cfg bar os : buys_ok (settle cfg bar <$> os).
Proof.
  intros o Hin Hp. apply list_elem_of_fmap in Hin as [o0 [-> _]].
  by apply settle_not_pending in Hp.
Qed.

Lemma _execute_orders_ok cfg bar s :
  store_ok s -> store_ok (_execute_orders cfg bar s).
Proof.
  intros [Hb Ho]. rewrite _execute_orders_eq. split; simpl.
  - by apply execute_loop_book_ok.
  - apply buys_ok_settle.
Qed.

(** ** Queuing orders *)

Lemma _place_order_ok sym sd qty prc ts s :
  store_ok s -> (sd = BUY -> 0 < qty) ->
  store_ok (_place_order sym sd qty prc ts s).
Proof.
  intros [Hb Ho] Hq. split; [exact Hb|]. simpl.
  intros o Hin Hp Hs. apply elem_of_app in Hin as [Hin|Hin]; [by apply Ho|].
  apply list_elem_of_singleton in Hin. subst o. simpl in *. auto.
Qed.

Lemma risk_check_ok cfg bar s item :
  store_ok s -> store_ok (risk_check cfg bar s item).
Proof.
  intros Hs. destruct item as [sym r]. unfold risk_check.
  destruct (lookup sym (Bar.row bar)) as [p|]; [|done].
  destruct (heap s !! r) as [pos|]; [|done].
  set (s1 := match stop_loss_pct cfg with Some _ => _ | None => _ end).
  assert (H1 : store_ok s1).
  { unfold s1. destruct (stop_loss_pct cfg); [|done].
    destruct (PrimFloat.leb _ _); [|done]. by apply _place_order_ok. }
  destruct (take_profit_pct cfg); [|done].
  destruct (PrimFloat.leb _ _); [|done]. by apply _place_order_ok.
Qed.

Lemma fold_left_preserves {A B} (P : A -> Prop) (f : A -> B -> A) l a :
  (forall a b, P a -> P (f a b)) -> P a -> P (fold_left f l a).
Proof.
  intros Hf. revert a. induction l as [|b l IH]; intros a Ha; simpl; auto.
Qed.

Lemma _check_risk_management_ok cfg bar s :
  store_ok s -> store_ok (_check_risk_management cfg bar s).
Proof.
  intros Hs. unfold _check_risk_management.
  assert (Hf : store_ok (fold_left (risk_check cfg bar) (positions s) s)).
  { apply fold_left_preserves; [|done]. intros. by apply risk_check_ok. }
  destruct (stop_loss_pct cfg), (take_profit_pct cfg); done.
Qed.

Lemma _process_signal_ok cfg signal bar ts s :
  store_ok s -> store_ok (_process_signal cfg signal bar ts s).
Proof.
  intros Hs. unfold _process_signal.
  destruct (String.eqb _ "buy").
  - destruct (Qeq_bool _ 0); [done|].
    destruct (Qlt_bool 0 _) eqn:E; [|done].
    apply _place_order_ok; [done|]. intros _. by apply Qlt_bool_iff.
  - destruct (String.eqb _ "sell"); [|done].
    destruct (lookup _ _); [|done]. destruct (_ !! _); [|done].
    destruct (Qlt_bool 0 _); [|done]. by apply _place_order_ok.
Qed.

Lemma close_position_ok cfg bar ts s item :
  store_ok s -> store_ok (close_position cfg bar ts s item).
Proof.
  intros Hs. destruct item as [sym r]. unfold close_position.
  destruct (lookup sym (Bar.row bar)); [|done].
  destruct (heap s !! r); [|done].
  apply _execute_orders_ok. by apply _place_order_ok.
Qed.

Lemma _close_all_positions_ok cfg bar ts s :
  store_ok s -> store_ok (_close_all_positions cfg bar ts s).
Proof.
  intros Hs. unfold _close_all_positions.
  apply fold_left_preserves; [|done]. intros. by apply close_position_ok.
Qed.

Lemma _reset_ok cfg : store_ok (_reset cfg).
Proof.
  split; simpl.
  - split; [apply NoDup_nil_2|]. intros sym r H. by apply elem_of_nil in H.
  - intros o H. by apply elem_of_nil in H.
Qed.

Lemma reachable_ok cfg s : reachable cfg s -> store_ok s.
Proof.
  induction 1 as [|bar s _ IH|bar s dn o todo _ IH Hos|bar s _ IH
                  |signal bar ts s _ IH|bar s _ IH|bar ts s item _ IH].
  - apply _reset_ok.
  - by apply _update_positions_ok.
  - destruct IH as [Hb Ho]. split; simpl.
    + apply execute_order_book_ok; [done|]. apply Ho. rewrite Hos.
      apply elem_of_app. right. apply elem_of_cons. by left.
    + intros x Hin. apply elem_of_app in Hin as [Hin|Hin].
      * apply Ho. rewrite Hos. apply elem_of_app. by left.
      * apply elem_of_cons in Hin as [->|Hin].
        -- rewrite execute_order_fst. intros Hp.
           by apply settle_not_pending in Hp.
        -- apply Ho. rewrite Hos. apply elem_of_app. right.
           apply elem_of_cons. by right.
  - by apply _check_risk_management_ok.
  - by apply _process_signal_ok.
  - exact IH.
  - by apply close_position_ok.
Qed.

(** ** Runs go through reachable states *)

Lemma set_orders_id s : set_orders (orders s) s = s.
Proof. by destruct s. Qed.

Lemma execute_loop_reachable cfg bar todo dn s :
  reachable cfg s -> orders s = dn ++ todo ->
  reachable cfg (set_orders (dn ++ (execute_loop cfg bar todo s).1)
                            (execute_loop cfg bar todo s).2).
Proof.
  revert dn s. induction todo as [|o todo IH]; intros dn s Hr Hos; simpl.
  - rewrite <- Hos. by rewrite set_orders_id.
  - pose proof (reach_fill cfg bar s dn o todo Hr Hos) as H1.
    specialize (IH (dn ++ [(execute_order cfg bar o s).1]) _ H1).
    simpl in IH. rewrite <- app_assoc in IH. specialize (IH eq_refl).
    rewrite execute_loop_set_orders in IH. simpl in IH.
    destruct (execute_order cfg bar o s) as [o' s']. simpl in *.
    destruct (execute_loop cfg bar todo s') as [os' s'']. simpl in *.
    by rewrite <- app_assoc in IH.
Qed.

Lemma _execute_orders_reachable cfg bar s :
  reachable cfg s -> reachable cfg (_execute_orders cfg bar s).
Proof.
  intros Hr.
  pose proof (execute_loop_reachable cfg bar (orders s) [] s Hr eq_refl) as H.
  simpl in H. unfold _execute_orders.
  by destruct (execute_loop cfg bar (orders s) s).
Qed.

Lemma queue_orders_reachable cfg strategy data i bar s :
  reachable cfg s -> reachable cfg (queue_orders cfg strategy data i bar s).
Proof.
  intros Hr. unfold queue_orders.
  pose proof (reach_risk cfg bar s Hr) as H3.
  destruct (_ <=? _)%Z; [|done].
  destruct (strategy _); [|done]. by apply reach_signal.
Qed.

Lemma process_bar_reachable cfg strategy data i bar s :
  reachable cfg s -> reachable cfg (process_bar cfg strategy data i bar s).
Proof.
  intros Hr. unfold process_bar. apply reach_record.
  apply queue_orders_reachable. apply _execute_orders_reachable.
  by apply reach_mark.
Qed.

Lemma run_bars_reachable cfg strategy data i rest s :
  reachable cfg s -> reachable cfg (run_bars cfg strategy data i rest s).
Proof.
  revert i s. induction rest as [|bar rest IH]; intros i s Hr; simpl; [done|].
  apply IH. by apply process_bar_reachable.
Qed.

Lemma state_after_reachable cfg strategy data k :
  reachable cfg (state_after cfg strategy data k).
Proof. apply run_bars_reachable. apply reach_reset. Qed.

Lemma _close_all_positions_reachable cfg bar ts s :
  reachable cfg s -> reachable cfg (_close_all_positions cfg bar ts s).
Proof.
  intros Hr. unfold _close_all_positions.
  apply fold_left_preserves; [|done]. intros. by apply reach_close.
Qed.

Lemma run_backtest_reachable cfg strategy data final :
  run_backtest cfg strategy data = Some final -> reachable cfg final.
Proof.
  unfold run_backtest. destruct (last data); [|discriminate].
  intros [= <-]. apply _close_all_positions_reachable.
  apply run_bars_reachable. apply reach_reset.
Qed.

(** ** Single fills *)

(** A SELL fill on a symbol that has a position, spelled out. *)
Lemma execute_sell_held cfg bar o s r pos :
  Order.status o = PENDING -> Order.side o = SELL ->
  lookup (Order.symbol o) (positions s) = Some r -> heap s !! r = Some pos ->
  let fill_price := fill_price_of cfg o in
  let commission := commission_of cfg o in
  let close_quantity := py_min (Order.quantity o) (Position.quantity pos) in
  let pnl := (fill_price - Position.entry_price pos) * close_quantity - commission in
  let s' := (execute_order cfg bar o s).2 in
  trades s' =
    trades s ++ [Trade.mk (Order.symbol o) SELL close_quantity
                   (Position.entry_price pos) fill_price
                   (Position.entry_timestamp pos) (Bar.name bar) pnl
                   ((fill_price / Position.entry_price pos - 1) * 100)
                   (Bar.name bar - Position.entry_timestamp pos)%Z] /\
  capital s' = capital s + (close_quantity * fill_price - commission) /\
  total_pnl s' = total_pnl s + pnl /\
  heap s' =
    <[r := Position.mk (Position.symbol pos)
             (Position.quantity pos - close_quantity)
             (Position.entry_price pos) (Position.entry_timestamp pos)
             (Position.current_price pos) (Position.unrealized_pnl pos)]> (heap s) /\
  positions s' =
    (if Qle_bool (Position.quantity pos - close_quantity) 0
     then remove_key (Order.symbol o) (positions s) else positions s).
Proof.
  intros Hp Hs Hl Hh. unfold execute_order. rewrite Hp, Hs.
  unfold sell_update. simpl. rewrite Hl, Hh. cbv zeta. simpl.
  destruct (Qle_bool _ 0); simpl; auto.
Qed.

(** C4. Every stored Position of a reachable state holds a strictly positive
    quantity (so no short or empty position is ever stored); a SELL fill
    closes min(requested, held), which never exceeds the held quantity, and
    the Position is removed from the dictionary exactly when nothing is left,
    otherwise it stays with the strictly positive remainder. *)
Theorem positions_stay_positive cfg s :
  reachable cfg s ->
  (forall sym r, (sym, r) ∈ positions s ->
     exists pos, heap s !! r = Some pos /\ 0 < Position.quantity pos) /\
  (forall bar o r pos,
     Order.status o = PENDING -> Order.side o = SELL ->
     lookup (Order.symbol o) (positions s) = Some r ->
     heap s !! r = Some pos ->
     let s' := (execute_order cfg bar o s).2 in
     let closed := py_min (Order.quantity o) (Position.quantity pos) in
     (exists t, trades s' = trades s ++ [t] /\ Trade.quantity t = closed) /\
     closed <= Position.quantity pos /\
     (Position.quantity pos - closed <= 0 ->
      lookup (Order.symbol o) (positions s') = None) /\
     (0 < Position.quantity pos - closed ->
      lookup (Order.symbol o) (positions s') = Some r /\
      exists pos', heap s' !! r = Some pos' /\
        Position.quantity pos' = Position.quantity pos - closed) /\
     (forall sym' r', (sym', r') ∈ positions s' ->
        exists pos', heap s' !! r' = Some pos' /\ 0 < Position.quantity pos')).
Proof.
  intros Hr. pose proof (reachable_ok cfg s Hr) as [Hb Ho]. split.
  - apply Hb.
  - intros bar o r pos Hp Hs Hl Hh s' closed.
    destruct (execute_sell_held cfg bar o s r pos Hp Hs Hl Hh)
      as (Ht & _ & _ & Hheap & Hpos).
    fold s' in Ht, Hheap, Hpos. fold closed in Ht, Hheap, Hpos.
    split; [eexists; split; [exact Ht | reflexivity]|].
    split; [apply py_min_le_r|].
    split; [|split].
    + intros Hle. apply Qle_bool_iff in Hle. rewrite Hpos, Hle.
      apply lookup_remove_key.
    + intros Hlt. apply Qle_bool_false in Hlt. rewrite Hpos, Hlt.
      split; [done|]. rewrite Hheap.
      rewrite list_lookup_insert_eq by (eapply lookup_lt_Some; eauto).
      eexists. split; reflexivity.
    + assert (Hb' : book_ok (heap s') (positions s')).
      { apply execute_order_book_ok; [done|]. intros _ Hbuy. congruence. }
      apply Hb'.
Qed.

(** ** Marking, item by item *)

Lemma mark_fold_untouched bar items h r :
  (forall k, (k, r) ∈ items -> lookup k (Bar.row bar) = None) ->
  fold_left (mark_position bar) items h !! r = h !! r.
Proof.
  revert h. induction items as [|[k v] items IH]; intros h Hno; simpl; [done|].
  rewrite IH.
  - destruct (lookup k (Bar.row bar)) as [p|] eqn:Ek; [|done].
    destruct (h !! v) eqn:Ev; [|done].
    apply list_lookup_insert_ne. intros ->.
    rewrite Hno in Ek; [discriminate|]. apply elem_of_cons. by left.
  - intros k' Hin. apply Hno. apply elem_of_cons. by right.
Qed.

Lemma mark_fold_priced bar items h sym r p :
  NoDup items.*2 -> (sym, r) ∈ items -> lookup sym (Bar.row bar) = Some p ->
  (r < length h)%nat ->
  exists pos, fold_left (mark_position bar) items h !! r = Some pos /\
              Position.current_price pos = p.
Proof.
  revert h. induction items as [|[k v] items IH]; intros h Hnd Hin Hp Hlt.
  - by apply elem_of_nil in Hin.
  - simpl in Hnd. apply NoDup_cons in Hnd as [Hni Hnd].
    apply elem_of_cons in Hin as [Heq|Hin].
    + injection Heq as <- <-. simpl. rewrite Hp.
      destruct (lookup_lt_is_Some_2 h r Hlt) as [pos Epos]. rewrite Epos.
      rewrite mark_fold_untouched.
      * rewrite list_lookup_insert_eq by done. eexists. split; reflexivity.
      * intros k Hk. exfalso. apply Hni. apply list_elem_of_fmap.
        by exists (k, r).
    + change (fold_left (mark_position bar) ((k, v) :: items) h)
        with (fold_left (mark_position bar) items (mark_position bar h (k, v))).
      apply IH; try done.
      destruct (mark_position_same_book bar h (k, v)) as [Hlen _].
      by rewrite Hlen.
Qed.

(** ** What a fill leaves of the store *)

Lemma fill_ext_refl s : fill_ext s s.
Proof. split; [done|]. split; [|done]. intros r pos H. by exists pos. Qed.

Lemma fill_ext_trans s1 s2 s3 :
  fill_ext s1 s2 -> fill_ext s2 s3 -> fill_ext s1 s3.
Proof.
  intros (L12 & H12 & P12) (L23 & H23 & P23). split; [lia|]. split.
  - intros r pos H. destruct (H12 r pos H) as (p2 & E2 & ?).
    destruct (H23 r p2 E2) as (p3 & E3 & ?). exists p3. split; congruence.
  - intros sym r Hin Hlt. apply P12; [|done]. apply P23; [done|lia].
Qed.

Lemma insert_keeps_mark (h : list Position.t) r pos new :
  h !! r = Some pos ->
  Position.current_price new = Position.current_price pos ->
  forall r' pos', h !! r' = Some pos' ->
    exists pos'', <[r := new]> h !! r' = Some pos'' /\
                  Position.current_price pos'' = Position.current_price pos'.
Proof.
  intros Hh Hc r' pos' H'. destruct (decide (r = r')) as [<-|Hne].
  - rewrite list_lookup_insert_eq by (eapply lookup_lt_Some; eauto).
    exists new. split; [done|]. congruence.
  - rewrite list_lookup_insert_ne by done. by exists pos'.
Qed.

Lemma fill_ext_proper a a' b b' :
  heap a = heap a' -> positions a = positions a' ->
  heap b = heap b' -> positions b = positions b' ->
  fill_ext a b -> fill_ext a' b'.
Proof. unfold fill_ext. by intros <- <- <- <-. Qed.

Lemma buy_update_fill_ext cfg bar o s : fill_ext s (buy_update cfg bar o s).
Proof.
  unfold buy_update.
  destruct (lookup _ _) as [r|] eqn:El.
  - destruct (heap s !! r) as [pos|] eqn:Eh; [|apply fill_ext_refl].
    split; simpl; [by rewrite length_insert|]. split; [|done].
    by apply insert_keeps_mark with pos.
  - split; simpl; [rewrite length_app; lia|]. split.
    + intros r pos H. exists pos. split; [|done].
      rewrite lookup_app_l; [done|]. by eapply lookup_lt_Some.
    + intros sym r Hin Hlt. apply elem_of_app in Hin as [Hin|Hin]; [done|].
      apply list_elem_of_singleton in Hin. injection Hin as -> ->. lia.
Qed.

Lemma sell_update_fill_ext cfg bar o s : fill_ext s (sell_update cfg bar o s).
Proof.
  unfold sell_update.
  destruct (lookup _ _) as [r|] eqn:El; [|apply fill_ext_refl].
  destruct (heap s !! r) as [pos|] eqn:Eh; [|apply fill_ext_refl].
  cbv zeta.
  destruct (Qle_bool _ 0); (split; simpl; [by rewrite length_insert|]).
  - split.
    + by apply insert_keeps_mark with pos.
    + intros sym r' Hin _. by apply elem_remove_key in Hin as [Hin _].
  - split; [|done]. by apply insert_keeps_mark with pos.
Qed.

Lemma execute_order_fill_ext cfg bar o s :
  fill_ext s (execute_order cfg bar o s).2.
Proof.
  unfold execute_order.
  destruct (Order.status o); try apply fill_ext_refl.
  cbv zeta.
  set (s2 := set_total_slippage _ (set_total_commission _ s)).
  destruct (Order.side o); cbn [snd].
  - eapply fill_ext_proper; [..|apply (buy_update_fill_ext cfg bar o s2)];
      reflexivity.
  - eapply fill_ext_proper; [..|apply (sell_update_fill_ext cfg bar o s2)];
      reflexivity.
Qed.

Lemma execute_loop_fill_ext cfg bar os s :
  fill_ext s (execute_loop cfg bar os s).2.
Proof.
  revert s. induction os as [|o os IH]; intros s; simpl.
  - apply fill_ext_refl.
  - pose proof (execute_order_fill_ext cfg bar o s) as H1.
    destruct (execute_order cfg bar o s) as [o' s']. simpl in *.
    specialize (IH s').
    destruct (execute_loop cfg bar os s') as [os' s'']. simpl in *.
    by eapply fill_ext_trans.
Qed.

(** ** Queuing touches nothing but the order list *)

Lemma only_orders_refl s : only_orders s s.
Proof. unfold only_orders. by rewrite set_orders_id. Qed.

Lemma only_orders_trans s1 s2 s3 :
  only_orders s1 s2 -> only_orders s2 s3 -> only_orders s1 s3.
Proof. unfold only_orders. intros H12 H23. rewrite H23 at 1. by rewrite H12. Qed.

Lemma risk_check_only_orders cfg bar s item :
  only_orders s (risk_check cfg bar s item).
Proof.
  destruct item as [sym r]. unfold risk_check.
  destruct (lookup _ _); [|apply only_orders_refl].
  destruct (_ !! _); [|apply only_orders_refl].
  destruct (stop_loss_pct cfg), (take_profit_pct cfg);
    repeat destruct (PrimFloat.leb _ _);
    first [apply only_orders_refl | reflexivity].
Qed.

Lemma risk_fold_only_orders cfg bar items s :
  only_orders s (fold_left (risk_check cfg bar) items s).
Proof.
  revert s. induction items as [|item items IH]; intros s; simpl.
  - apply only_orders_refl.
  - eapply only_orders_trans; [apply risk_check_only_orders | apply IH].
Qed.

Lemma _check_risk_management_only_orders cfg bar s :
  only_orders s (_check_risk_management cfg bar s).
Proof.
  unfold _check_risk_management.
  destruct (stop_loss_pct cfg), (take_profit_pct cfg);
    first [apply only_orders_refl | apply risk_fold_only_orders].
Qed.

Lemma _process_signal_only_orders cfg signal bar ts s :
  only_orders s (_process_signal cfg signal bar ts s).
Proof.
  unfold _process_signal.
  destruct (String.eqb _ "buy").
  - destruct (Qeq_bool _ 0); [apply only_orders_refl|].
    destruct (Qlt_bool 0 _); [reflexivity | apply only_orders_refl].
  - destruct (String.eqb _ "sell"); [|apply only_orders_refl].
    destruct (lookup _ _); [|apply only_orders_refl].
    destruct (_ !! _); [|apply only_orders_refl].
    destruct (Qlt_bool 0 _); [reflexivity | apply only_orders_refl].
Qed.

Lemma queue_orders_only_orders cfg strategy data i bar s :
  only_orders s (queue_orders cfg strategy data i bar s).
Proof.
  unfold queue_orders.
  pose proof (_check_risk_management_only_orders cfg bar s) as H3.
  destruct (_ <=? _)%Z; [|done]. destruct (strategy _); [|done].
  eapply only_orders_trans; [exact H3 | apply _process_signal_only_orders].
Qed.

(** ** The loop of [run_backtest], bar by bar *)

Lemma run_bars_app cfg strategy data i l1 l2 s :
  run_bars cfg strategy data i (l1 ++ l2) s =
  run_bars cfg strategy data (i + length l1) l2 (run_bars cfg strategy data i l1 s).
Proof.
  revert i s. induction l1 as [|b l1 IH]; intros i s; simpl.
  - by rewrite Nat.add_0_r.
  - rewrite IH. f_equal. lia.
Qed.

Lemma state_after_S cfg strategy data k bar :
  data !! k = Some bar ->
  state_after cfg strategy data (S k) =
  process_bar cfg strategy data k bar (state_after cfg strategy data k).
Proof.
  intros Hk. unfold state_after. erewrite take_S_r by exact Hk.
  rewrite run_bars_app. simpl. rewrite length_take.
  apply lookup_lt_Some in Hk. by rewrite Nat.min_l by lia.
Qed.

Lemma state_after_all cfg strategy data :
  state_after cfg strategy data (length data) =
  run_bars cfg strategy data 0 data (_reset cfg).
Proof. unfold state_after. by rewrite firstn_all. Qed.

Lemma equity_fold_sum bar h d c :
  fold_left (add_position_value bar h) d c == c + Qsum (position_value bar h <$> d).
Proof.
  revert c. induction d as [|[sym r] d IH]; intros c.
  - simpl. lra.
  - change (fold_left (add_position_value bar h) ((sym, r) :: d) c)
      with (fold_left (add_position_value bar h) d
              (add_position_value bar h c (sym, r))).
    rewrite IH.
    change (Qsum (position_value bar h <$> (sym, r) :: d))
      with (position_value bar h (sym, r) + Qsum (position_value bar h <$> d)).
    unfold position_value, add_position_value. cbn [fst snd].
    destruct (lookup sym (Bar.row bar)); [destruct (h !! r)|]; lra.
Qed.

(** ** Equity reconciliation *)

(** C1, as amended.  For every bar of a run, the equity recorded for the bar
    equals the capital held after the bar's order executions plus the sum,
    over the open positions whose symbol is priced by the bar's row, of
    quantity times the bar's price; a position whose symbol is absent from
    the row adds nothing.  The bar's price is the position's current mark
    for every position that was already open when the bar began. *)
Theorem equity_reconciliation cfg strategy data k bar :
  data !! k = Some bar ->
  let s0 := state_after cfg strategy data k in
  let s2 := _execute_orders cfg bar (_update_positions bar s0) in
  let s' := state_after cfg strategy data (S k) in
  (capital s' = capital s2 /\ positions s' = positions s2 /\ heap s' = heap s2) /\
  (exists e, last (equity_curve s') = Some e /\
             e == capital s' + priced_value bar s') /\
  (forall sym r, (sym, r) ∈ positions s' ->
     lookup sym (Bar.row bar) = None ->
     position_value bar (heap s') (sym, r) = 0) /\
  (forall sym r p, (sym, r) ∈ positions s' -> (r < length (heap s0))%nat ->
     lookup sym (Bar.row bar) = Some p ->
     exists pos, heap s' !! r = Some pos /\ Position.current_price pos = p /\
       position_value bar (heap s') (sym, r) =
       Position.quantity pos * Position.current_price pos).
Proof.
  intros Hk s0 s2 s'.
  assert (Hs' : s' = record_equity bar (queue_orders cfg strategy data k bar s2)).
  { unfold s'. by rewrite (state_after_S _ _ _ _ _ Hk). }
  pose proof (queue_orders_only_orders cfg strategy data k bar s2) as Hq.
  set (s4 := queue_orders cfg strategy data k bar s2) in *.
  assert (Hc : capital s' = capital s2) by (rewrite Hs', Hq; reflexivity).
  assert (Hp : positions s' = positions s2) by (rewrite Hs', Hq; reflexivity).
  assert (Hh : heap s' = heap s2) by (rewrite Hs', Hq; reflexivity).
  split; [done|]. split; [|split].
  - exists (_calculate_equity bar s4). split.
    + rewrite Hs'. simpl. apply last_snoc.
    + unfold _calculate_equity, priced_value. rewrite equity_fold_sum.
      rewrite Hc, Hp, Hh, Hq. reflexivity.
  - intros sym r _ Hno. unfold position_value. simpl. by rewrite Hno.
  - intros sym r p Hin Hlt Hpr.
    pose proof (reachable_ok cfg s0 (state_after_reachable cfg strategy data k))
      as [[Hnd Hlive] Hbuys].
    set (s1 := _update_positions bar s0) in *.
    pose proof (execute_loop_fill_ext cfg bar (orders s1) s1) as (_ & Hmark & Hold).
    assert (Hh2 : heap s2 = heap (execute_loop cfg bar (orders s1) s1).2).
    { unfold s2. by rewrite _execute_orders_eq. }
    assert (Hp2 : positions s2 = positions (execute_loop cfg bar (orders s1) s1).2).
    { unfold s2. by rewrite _execute_orders_eq. }
    rewrite Hp, Hp2 in Hin. rewrite Hh, Hh2.
    assert (Hlen : length (heap s1) = length (heap s0)).
    { apply (mark_fold_same_book bar (positions s0) (heap s0)). }
    assert (Hin0 : (sym, r) ∈ positions s0).
    { apply (Hold sym r Hin). by rewrite Hlen. }
    destruct (mark_fold_priced bar (positions s0) (heap s0) sym r p
                Hnd Hin0 Hpr Hlt) as (pos1 & E1 & Hc1).
    destruct (Hmark r pos1 E1) as (pos2 & E2 & Hc2).
    exists pos2. split; [done|]. split; [congruence|].
    unfold position_value. cbn [fst snd]. rewrite Hpr, E2. congruence.
Qed.

(** ** The order list along a run *)

Lemma queued_refl P s : queued P s s.
Proof. exists []. split; [by rewrite app_nil_r | constructor]. Qed.

Lemma queued_trans P s1 s2 s3 :
  queued P s1 s2 -> queued P s2 s3 -> queued P s1 s3.
Proof.
  intros (n1 & E1 & F1) (n2 & E2 & F2). exists (n1 ++ n2). split.
  - by rewrite E2, E1, app_assoc.
  - by apply Forall_app.
Qed.

Lemma queued_weaken (P Q : Order.t -> Prop) s s' :
  (forall o, P o -> Q o) -> queued P s s' -> queued Q s s'.
Proof.
  intros HPQ (new & E & F). exists new. split; [done|].
  eapply Forall_impl; eauto.
Qed.

Lemma _place_order_queued (P : Order.t -> Prop) sym sd qty prc ts s :
  P (Order.mk sym sd qty prc ts PENDING None None) ->
  queued P s (_place_order sym sd qty prc ts s).
Proof.
  intros HP. eexists. split; [reflexivity|]. by repeat constructor.
Qed.

Lemma risk_check_queued cfg bar s item :
  queued (risk_order bar) s (risk_check cfg bar s item).
Proof.
  destruct item as [sym r]. unfold risk_check.
  destruct (lookup sym (Bar.row bar)) as [p|] eqn:Ep; [|apply queued_refl].
  destruct (_ !! _); [|apply queued_refl].
  assert (Hro : forall q, risk_order bar
                  (Order.mk sym SELL q p (Bar.name bar) PENDING None None)).
  { intros q. repeat split. unfold bar_has. simpl. by rewrite Ep. }
  set (s1 := match stop_loss_pct cfg with Some _ => _ | None => _ end).
  assert (H1 : queued (risk_order bar) s s1).
  { unfold s1. destruct (stop_loss_pct cfg); [|apply queued_refl].
    destruct (PrimFloat.leb _ _); [|apply queued_refl].
    by apply _place_order_queued. }
  destruct (take_profit_pct cfg); [|done].
  destruct (PrimFloat.leb _ _); [|done].
  eapply queued_trans; [exact H1 | by apply _place_order_queued].
Qed.

Lemma risk_fold_queued cfg bar items s :
  queued (risk_order bar) s (fold_left (risk_check cfg bar) items s).
Proof.
  revert s. induction items as [|item items IH]; intros s; simpl.
  - apply queued_refl.
  - eapply queued_trans; [apply risk_check_queued | apply IH].
Qed.

Lemma _check_risk_management_queued cfg bar s :
  queued (risk_order bar) s (_check_risk_management cfg bar s).
Proof.
  unfold _check_risk_management.
  destruct (stop_loss_pct cfg), (take_profit_pct cfg);
    first [apply queued_refl | apply risk_fold_queued].
Qed.

Lemma _process_signal_queued cfg signal bar ts s :
  queued (placed_at ts) s (_process_signal cfg signal bar ts s).
Proof.
  unfold _process_signal.
  destruct (String.eqb _ "buy").
  - destruct (Qeq_bool _ 0); [apply queued_refl|].
    destruct (Qlt_bool 0 _); [|apply queued_refl].
    by apply _place_order_queued.
  - destruct (String.eqb _ "sell"); [|apply queued_refl].
    destruct (lookup _ _); [|apply queued_refl].
    destruct (_ !! _); [|apply queued_refl].
    destruct (Qlt_bool 0 _); [|apply queued_refl].
    by apply _place_order_queued.
Qed.

Lemma queue_orders_queued cfg strategy data i bar s :
  queued (placed_at (Bar.name bar)) s (queue_orders cfg strategy data i bar s).
Proof.
  unfold queue_orders.
  assert (H3 : queued (placed_at (Bar.name bar)) s
                      (_check_risk_management cfg bar s)).
  { eapply queued_weaken; [|apply _check_risk_management_queued].
    by intros o [H _]. }
  destruct (_ <=? _)%Z; [|done]. destruct (strategy _); [|done].
  eapply queued_trans; [exact H3 | apply _process_signal_queued].
Qed.

(** The order list after one bar: every order that was there, settled, then
    the orders queued during the bar. *)
Lemma process_bar_orders cfg strategy data i bar s :
  exists new,
    orders (process_bar cfg strategy data i bar s) =
      (settle cfg bar <$> orders s) ++ new /\
    Forall (placed_at (Bar.name bar)) new.
Proof.
  unfold process_bar.
  destruct (queue_orders_queued cfg strategy data i bar
              (_execute_orders cfg bar (_update_positions bar s)))
    as (new & E & F).
  exists new. split; [|done]. simpl. rewrite E.
  by rewrite _execute_orders_orders.
Qed.

Lemma settled_kept_refl s : settled_kept s s.
Proof. by intros j o H _. Qed.

Lemma settled_kept_trans s1 s2 s3 :
  settled_kept s1 s2 -> settled_kept s2 s3 -> settled_kept s1 s3.
Proof. intros H12 H23 j o H Hp. apply H23; [|done]. by apply H12. Qed.

Lemma settle_settled cfg bar o : Order.status o <> PENDING -> settle cfg bar o = o.
Proof. unfold settle. by destruct (Order.status o). Qed.

Lemma settled_kept_settle_app cfg bar s s' new :
  orders s' = (settle cfg bar <$> orders s) ++ new -> settled_kept s s'.
Proof.
  intros E j o H Hp. rewrite E.
  rewrite lookup_app_l by (rewrite length_fmap; by eapply lookup_lt_Some).
  rewrite list_lookup_fmap, H. simpl. by rewrite settle_settled.
Qed.

Lemma process_bar_settled_kept cfg strategy data i bar s :
  settled_kept s (process_bar cfg strategy data i bar s).
Proof.
  destruct (process_bar_orders cfg strategy data i bar s) as (new & E & _).
  by eapply settled_kept_settle_app.
Qed.

Lemma run_bars_settled_kept cfg strategy data i rest s :
  settled_kept s (run_bars cfg strategy data i rest s).
Proof.
  revert i s. induction rest as [|bar rest IH]; intros i s; simpl.
  - apply settled_kept_refl.
  - eapply settled_kept_trans; [apply process_bar_settled_kept | apply IH].
Qed.

Lemma close_position_orders cfg bar ts s item :
  close_position cfg bar ts s item = s \/
  exists sym qty prc,
    orders (close_position cfg bar ts s item) =
    settle cfg bar <$> (orders s ++ [Order.mk sym SELL qty prc ts PENDING None None]).
Proof.
  destruct item as [sym r]. unfold close_position.
  destruct (lookup _ _) as [p|]; [|by left].
  destruct (_ !! _) as [pos|]; [|by left].
  right. exists sym, (Position.quantity pos), p.
  by rewrite _execute_orders_orders.
Qed.

Lemma close_position_settled_kept cfg bar ts s item :
  settled_kept s (close_position cfg bar ts s item).
Proof.
  destruct (close_position_orders cfg bar ts s item) as [->|(sym & q & p & E)].
  - apply settled_kept_refl.
  - rewrite fmap_app in E. by eapply settled_kept_settle_app.
Qed.

Lemma close_fold_settled_kept cfg bar ts items s :
  settled_kept s (fold_left (close_position cfg bar ts) items s).
Proof.
  revert s. induction items as [|item items IH]; intros s; simpl.
  - apply settled_kept_refl.
  - eapply settled_kept_trans; [apply close_position_settled_kept | apply IH].
Qed.

Lemma close_position_liquidated cfg bar s item n0 :
  liquidated_from n0 (Bar.name bar) s ->
  liquidated_from n0 (Bar.name bar) (close_position cfg bar (Bar.name bar) s item).
Proof.
  intros Hl.
  destruct (close_position_orders cfg bar (Bar.name bar) s item)
    as [->|(sym & q & p & E)]; [done|].
  intros j o Hj Ho. rewrite E, list_lookup_fmap in Ho.
  destruct (decide (j < length (orders s))%nat) as [Hlt|Hge].
  - rewrite lookup_app_l in Ho by done.
    destruct (orders s !! j) as [o0|] eqn:E0; [|discriminate].
    simpl in Ho. injection Ho as <-.
    destruct (Hl j o0 Hj E0) as (Hst & ? & ? & ?).
    rewrite settle_settled by congruence. done.
  - rewrite lookup_app_r in Ho by lia.
    destruct (j - length (orders s))%nat as [|n]; simpl in Ho; [|discriminate].
    by injection Ho as <-.
Qed.

Lemma close_fold_liquidated cfg bar items s n0 :
  liquidated_from n0 (Bar.name bar) s ->
  liquidated_from n0 (Bar.name bar)
    (fold_left (close_position cfg bar (Bar.name bar)) items s).
Proof.
  revert s. induction items as [|item items IH]; intros s Hl; simpl; [done|].
  apply IH. by apply close_position_liquidated.
Qed.

Lemma run_from_state_after cfg strategy data k :
  (k <= length data)%nat ->
  run_bars cfg strategy data 0 data (_reset cfg) =
  run_bars cfg strategy data k (drop k data) (state_after cfg strategy data k).
Proof.
  intros Hk. unfold state_after.
  rewrite <- (take_drop k data) at 2. rewrite run_bars_app.
  rewrite length_take. simpl. by rewrite Nat.min_l by lia.
Qed.

(** C2, as amended.  In a run over a table with increasing timestamps, every
    order queued during a bar that is not the last one (by the risk overlay
    or the signal interpreter) is still pending when that bar ends and is
    filled with the next bar's timestamp, which is strictly later than its
    placement timestamp; the orders placed by the terminal close-all step
    are SELL orders filled at the timestamp they are placed. *)
Theorem execution_lag cfg strategy data final :
  run_backtest cfg strategy data = Some final ->
  increasing data ->
  (forall k bar bar' j,
     data !! k = Some bar -> data !! S k = Some bar' ->
     (length (orders (state_after cfg strategy data k)) <= j
      < length (orders (state_after cfg strategy data (S k))))%nat ->
     exists o0 o,
       orders (state_after cfg strategy data (S k)) !! j = Some o0 /\
       Order.status o0 = PENDING /\
       orders final !! j = Some o /\
       o = filled cfg bar' o0 /\
       Order.timestamp o = Bar.name bar /\
       Order.status o = FILLED /\
       Order.fill_timestamp o = Some (Bar.name bar') /\
       (Order.timestamp o < Bar.name bar')%Z) /\
  (forall j o,
     (length (orders (state_after cfg strategy data (length data))) <= j)%nat ->
     orders final !! j = Some o ->
     Order.side o = SELL /\ Order.status o = FILLED /\
     Order.fill_timestamp o = Some (Order.timestamp o)).
Proof.
  intros Hrun Hinc. unfold run_backtest in Hrun.
  destruct (last data) as [fb|] eqn:El; [|discriminate].
  injection Hrun as <-.
  set (sN := run_bars cfg strategy data 0 data (_reset cfg)).
  split.
  - intros k bar bar' j Hk Hk1 [Hj1 Hj2].
    set (sk := state_after cfg strategy data k) in *.
    rewrite (state_after_S _ _ _ _ _ Hk) in Hj2 |- *. fold sk in Hj2 |- *.
    destruct (process_bar_orders cfg strategy data k bar sk) as (new & E & F).
    set (sk1 := process_bar cfg strategy data k bar sk) in *.
    assert (Hnew : exists o0, orders sk1 !! j = Some o0 /\
                              placed_at (Bar.name bar) o0).
    { rewrite E. rewrite E, length_app, length_fmap in Hj2.
      rewrite lookup_app_r by (rewrite length_fmap; lia).
      rewrite length_fmap.
      destruct (lookup_lt_is_Some_2 new (j - length (orders sk))%nat)
        as [o0 E0]; [lia|].
      exists o0. split; [done|].
      eapply Forall_lookup_1; eauto. }
    destruct Hnew as (o0 & E0 & Hst & Hts & _).
    exists o0, (filled cfg bar' o0).
    split; [done|]. split; [done|].
    assert (Hfin : orders (_close_all_positions cfg fb (Bar.name fb) sN) !! j
                   = Some (filled cfg bar' o0)).
    { apply close_fold_settled_kept; [|simpl; congruence].
      unfold sN.
      rewrite (run_from_state_after cfg strategy data (S (S k)))
        by (apply lookup_lt_Some in Hk1; lia).
      apply run_bars_settled_kept; [|simpl; congruence].
      rewrite (state_after_S _ _ _ _ _ Hk1).
      rewrite (state_after_S _ _ _ _ _ Hk). fold sk. fold sk1.
      destruct (process_bar_orders cfg strategy data (S k) bar' sk1)
        as (new' & E' & _).
      rewrite E'. rewrite lookup_app_l by (rewrite length_fmap; lia).
      rewrite list_lookup_fmap, E0. simpl. unfold settle. by rewrite Hst. }
    split; [done|]. split; [done|]. simpl.
    split; [done|]. split; [done|]. split; [done|].
    rewrite Hts. by eapply Hinc.
  - intros j o Hj Ho. rewrite state_after_all in Hj. fold sN in Hj.
    assert (Hl : liquidated_from (length (orders sN)) (Bar.name fb) sN).
    { intros j' o' Hj' Ho'. apply lookup_lt_Some in Ho'. lia. }
    destruct (close_fold_liquidated cfg fb (positions sN) sN _ Hl j o Hj Ho)
      as (? & ? & ? & ?).
    split; [done|]. split; [done|]. congruence.
Qed.

(** ** Symbols the bar does not price *)

Lemma bar_has_false sym bar :
  bar_has sym bar = false <-> lookup sym (Bar.row bar) = None.
Proof. unfold bar_has. destruct (lookup _ _); split; congruence. Qed.

(** C3, as amended.  For a symbol absent from the bar's price row, marking
    leaves the symbol's Position object untouched, the risk overlay queues no
    order for it, and it adds nothing to the equity, all without an error
    (each step returns a state).  Order execution is not skipped: it never
    consults the bar's row, so a pending order for that symbol is filled on
    this bar, at its requested price adjusted by the slippage. *)
Theorem unpriced_symbol_skipped cfg bar s sym :
  store_ok s -> bar_has sym bar = false ->
  (forall r, (sym, r) ∈ positions s ->
     heap (_update_positions bar s) !! r = heap s !! r) /\
  positions (_update_positions bar s) = positions s /\
  (exists new,
     orders (_check_risk_management cfg bar s) = orders s ++ new /\
     Forall (fun o => Order.symbol o <> sym) new) /\
  (forall r, position_value bar (heap s) (sym, r) = 0) /\
  (forall j o, orders s !! j = Some o -> Order.status o = PENDING ->
     Order.symbol o = sym ->
     orders (_execute_orders cfg bar s) !! j = Some (filled cfg bar o) /\
     Order.status (filled cfg bar o) = FILLED /\
     Order.fill_price (filled cfg bar o) = Some (fill_price_of cfg o) /\
     Order.fill_timestamp (filled cfg bar o) = Some (Bar.name bar)).
Proof.
  intros [[Hnd Hlive] _] Hno. pose proof Hno as Hno'.
  apply bar_has_false in Hno. split; [|split; [done|split; [|split]]].
  - intros r Hin. simpl. apply mark_fold_untouched.
    intros k Hk. by rewrite (NoDup_refs_inj _ _ _ _ Hnd Hk Hin).
  - destruct (_check_risk_management_queued cfg bar s) as (new & E & F).
    exists new. split; [done|]. eapply Forall_impl; [exact F|].
    intros o (_ & _ & Hhas) Heq. rewrite Heq in Hhas. congruence.
  - intros r. unfold position_value. simpl. by rewrite Hno.
  - intros j o Ho Hp _. split; [|done].
    rewrite _execute_orders_orders, list_lookup_fmap, Ho. simpl.
    unfold settle. by rewrite Hp.
Qed.

(** ** Buy fills *)

(** A BUY fill on a symbol without a position opens one at the end of the
    store. *)
Lemma execute_buy_new cfg bar o s :
  Order.status o = PENDING -> Order.side o = BUY ->
  lookup (Order.symbol o) (positions s) = None ->
  let s' := (execute_order cfg bar o s).2 in
  positions s' = positions s ++ [(Order.symbol o, length (heap s))] /\
  heap s' = heap s ++ [Position.mk (Order.symbol o) (Order.quantity o)
                         (fill_price_of cfg o) (Bar.name bar)
                         (fill_price_of cfg o) 0].
Proof.
  intros Hp Hs Hl. unfold execute_order. rewrite Hp, Hs.
  unfold buy_update. simpl. by rewrite Hl.
Qed.

(** A BUY fill on a symbol with a position adds to it in place. *)
Lemma execute_buy_held cfg bar o s r pos :
  Order.status o = PENDING -> Order.side o = BUY ->
  lookup (Order.symbol o) (positions s) = Some r -> heap s !! r = Some pos ->
  let s' := (execute_order cfg bar o s).2 in
  positions s' = positions s /\
  heap s' =
    <[r := Position.mk (Position.symbol pos)
             (Position.quantity pos + Order.quantity o)
             ((Position.entry_price pos * Position.quantity pos
               + fill_price_of cfg o * Order.quantity o)
              / (Position.quantity pos + Order.quantity o))
             (Position.entry_timestamp pos)
             (Position.current_price pos) (Position.unrealized_pnl pos)]> (heap s).
Proof.
  intros Hp Hs Hl Hh. unfold execute_order. rewrite Hp, Hs.
  unfold buy_update. simpl. by rewrite Hl, Hh.
Qed.

Lemma buy_update_capital cfg bar o s :
  capital (buy_update cfg bar o s) = capital s.
Proof.
  unfold buy_update.
  destruct (lookup _ _); [destruct (_ !! _)|]; reflexivity.
Qed.

Lemma lookup_snoc_new {A} k (d : list (string * A)) v :
  lookup k d = None -> lookup k (d ++ [(k, v)]) = Some v.
Proof.
  intros H. rewrite lookup_app_dict, H. simpl. by rewrite String.eqb_refl.
Qed.

(** C5.  Two sequential BUY fills on the same symbol, the first of which
    opens the Position (quantity q1 at fill price p1, then q2 at p2; between
    them the Position may be re-marked, which leaves its books alone): the
    stored entry price is (q1*p1 + q2*p2)/(q1+q2), the stored quantity is
    q1+q2, and the entry timestamp is the fill timestamp of the first BUY. *)
Theorem cost_basis_weighting cfg b1 b2 o1 o2 s s1' :
  Order.status o1 = PENDING -> Order.side o1 = BUY ->
  Order.status o2 = PENDING -> Order.side o2 = BUY ->
  Order.symbol o2 = Order.symbol o1 ->
  lookup (Order.symbol o1) (positions s) = None ->
  let q1 := Order.quantity o1 in
  let p1 := fill_price_of cfg o1 in
  let q2 := Order.quantity o2 in
  let p2 := fill_price_of cfg o2 in
  let s1 := (execute_order cfg b1 o1 s).2 in
  positions s1' = positions s1 -> same_book (heap s1) (heap s1') ->
  let s2 := (execute_order cfg b2 o2 s1').2 in
  exists r pos,
    lookup (Order.symbol o1) (positions s2) = Some r /\
    heap s2 !! r = Some pos /\
    Position.entry_price pos = (p1 * q1 + p2 * q2) / (q1 + q2) /\
    Position.entry_price pos == (q1 * p1 + q2 * p2) / (q1 + q2) /\
    Position.quantity pos = q1 + q2 /\
    Position.entry_timestamp pos = Bar.name b1 /\
    Order.fill_timestamp (execute_order cfg b1 o1 s).1
      = Some (Position.entry_timestamp pos).
Proof.
  intros Hp1 Hs1 Hp2 Hs2 Hsym Hl q1 p1 q2 p2 s1 Hpos [Hlen Hsb] s2.
  destruct (execute_buy_new cfg b1 o1 s Hp1 Hs1 Hl) as [Ed Eh].
  fold s1 in Ed, Eh.
  set (r := length (heap s)).
  assert (Hl1 : lookup (Order.symbol o2) (positions s1') = Some r).
  { rewrite Hsym, Hpos, Ed. by apply lookup_snoc_new. }
  assert (Hh1 : heap s1 !! r = Some (Position.mk (Order.symbol o1) q1 p1
                                       (Bar.name b1) p1 0)).
  { rewrite Eh. rewrite lookup_app_r by (unfold r; lia).
    unfold r. by rewrite Nat.sub_diag. }
  destruct (Hsb r _ Hh1) as (pos1 & E1 & Hq & He & Ht). simpl in Hq, He, Ht.
  destruct (execute_buy_held cfg b2 o2 s1' r pos1 Hp2 Hs2 Hl1 E1) as [Ed2 Eh2].
  fold s2 in Ed2, Eh2.
  eexists r, _. split; [by rewrite Ed2, <- Hsym|]. split.
  { rewrite Eh2. apply list_lookup_insert_eq. by eapply lookup_lt_Some. }
  simpl. rewrite Hq, He, Ht. fold p2 q2.
  split; [done|]. split.
  { unfold Qdiv. ring. }
  split; [done|]. split; [done|].
  rewrite execute_order_fst. unfold settle. by rewrite Hp1.
Qed.

(** C10.  BUY execution has no capital check: whatever the capital held, a
    pending BUY order is filled and capital decreases by exactly
    quantity * fill_price + commission; and there are a configuration and a
    table for which a run leaves the capital negative after a fill. *)
Theorem buy_has_no_capital_check cfg bar o s :
  Order.status o = PENDING -> Order.side o = BUY ->
  Order.status (execute_order cfg bar o s).1 = FILLED /\
  capital (execute_order cfg bar o s).2
    = capital s - (Order.quantity o * fill_price_of cfg o + commission_of cfg o) /\
  (forall j, orders s !! j = Some o ->
     exists o', orders (_execute_orders cfg bar s) !! j = Some o' /\
                Order.status o' = FILLED) /\
  (exists cfg' strategy data k,
     0 <= capital (state_after cfg' strategy data k) /\
     capital (state_after cfg' strategy data (S k)) < 0).
Proof.
  intros Hp Hs. split; [|split; [|split]].
  - rewrite execute_order_fst. unfold settle. by rewrite Hp.
  - unfold execute_order. rewrite Hp, Hs. cbn [snd].
    unfold set_capital at 1. cbn [capital]. by rewrite buy_update_capital.
  - intros j Hj. exists (filled cfg bar o). split; [|done].
    rewrite _execute_orders_orders, list_lookup_fmap, Hj. simpl.
    unfold settle. by rewrite Hp.
  - exists all_in_config, buy_once, rising, 2%nat. split.
    + vm_compute. discriminate.
    + vm_compute. reflexivity.
Qed.

(** ** Sell fills *)

(** C6, as amended.  A SELL fill of requested quantity at least the held
    quantity q fully closes the Position (entry price p, fill price p2): the
    Position leaves the dictionary and the recorded Trade has quantity q,
    pnl = (p2 - p)*q - c, return_pct = (p2/p - 1)*100, the Position's entry
    timestamp and the fill timestamp as exit timestamp, and capital grows by
    q*p2 - c, where the commission c = |requested * p2 * commission_rate| is
    charged on the requested quantity; c is |q*p2*commission_rate| when the
    requested quantity is q. *)
Theorem full_close_trade cfg bar o s r pos :
  Order.status o = PENDING -> Order.side o = SELL ->
  lookup (Order.symbol o) (positions s) = Some r -> heap s !! r = Some pos ->
  Position.quantity pos <= Order.quantity o ->
  let p := Position.entry_price pos in
  let p2 := fill_price_of cfg o in
  let q := Position.quantity pos in
  let c := Qabs (Order.quantity o * p2 * commission_rate cfg) in
  let s' := (execute_order cfg bar o s).2 in
  lookup (Order.symbol o) (positions s') = None /\
  (exists t, trades s' = trades s ++ [t] /\
     Trade.quantity t == q /\
     Trade.entry_price t = p /\ Trade.exit_price t = p2 /\
     Trade.pnl t == (p2 - p) * q - c /\
     Trade.return_pct t = (p2 / p - 1) * 100 /\
     Trade.entry_timestamp t = Position.entry_timestamp pos /\
     Trade.exit_timestamp t = Bar.name bar /\
     Order.fill_timestamp (execute_order cfg bar o s).1
       = Some (Trade.exit_timestamp t)) /\
  capital s' == capital s + (q * p2 - c) /\
  (Order.quantity o == q -> c == Qabs (q * p2 * commission_rate cfg)).
Proof.
  intros Hp Hs Hl Hh Hle p p2 q c s'.
  destruct (execute_sell_held cfg bar o s r pos Hp Hs Hl Hh)
    as (Ht & Hcap & _ & _ & Hpos).
  fold s' in Ht, Hcap, Hpos. fold p2 in Ht, Hcap. fold q in Ht, Hcap, Hpos, Hle.
  set (closed := py_min (Order.quantity o) q) in *.
  assert (Hc : closed == q).
  { unfold closed. destruct (py_min_cases (Order.quantity o) q) as [[_ ->]|[H ->]].
    - reflexivity.
    - apply Qle_antisym; assumption. }
  split; [|split; [|split]].
  - rewrite Hpos.
    assert (Hz : Qle_bool (q - closed) 0 = true) by (apply Qle_bool_iff; lra).
    rewrite Hz. apply lookup_remove_key.
  - eexists. split; [exact Ht|]. simpl.
    split; [exact Hc|]. split; [done|]. split; [done|].
    split; [unfold commission_of; fold p2; fold c; by rewrite Hc|].
    split; [done|]. split; [done|]. split; [done|].
    rewrite execute_order_fst. unfold settle. by rewrite Hp.
  - rewrite Hcap. unfold commission_of. fold p2. fold c. by rewrite Hc.
  - intros Hq. unfold c. by rewrite Hq.
Qed.

(** C8, as amended.  Executing a pending SELL order whose symbol has no open
    Position leaves capital, the position dictionary and store, the trade
    list and total_pnl unchanged; the order is nevertheless marked Filled,
    and total_commission and total_slippage grow by the order's commission
    and slippage amounts. *)
Theorem sell_without_position cfg bar o s :
  Order.status o = PENDING -> Order.side o = SELL ->
  lookup (Order.symbol o) (positions s) = None ->
  let s' := (execute_order cfg bar o s).2 in
  capital s' = capital s /\ positions s' = positions s /\ heap s' = heap s /\
  trades s' = trades s /\ total_pnl s' = total_pnl s /\
  total_commission s' = total_commission s + commission_of cfg o /\
  total_slippage s' =
    total_slippage s
    + Qabs (fill_price_of cfg o - Order.price o) * Qabs (Order.quantity o) /\
  (execute_order cfg bar o s).1 = filled cfg bar o.
Proof.
  intros Hp Hs Hl. unfold execute_order. rewrite Hp, Hs.
  unfold sell_update. cbn [snd fst].
  change (positions (set_total_slippage ?x (set_total_commission ?y s)))
    with (positions s).
  rewrite Hl. repeat split.
Qed.

Lemma fill_price_zero cfg o : Order.price o == 0 -> fill_price_of cfg o == 0.
Proof.
  intros H. unfold fill_price_of.
  destruct (use_market_orders cfg); [destruct (Order.side o)|];
    rewrite H; ring.
Qed.

Lemma commission_zero cfg o : Order.price o == 0 -> commission_of cfg o == 0.
Proof.
  intros H. unfold commission_of. rewrite (fill_price_zero cfg o H).
  assert (E : Order.quantity o * 0 * commission_rate cfg == 0) by ring.
  by rewrite E.
Qed.

(** C9, as amended.  A sell signal on a symbol that has an open Position but
    no price in the current bar queues, when its quantity q (the explicit
    one, or by default the held quantity) is positive, a SELL order of
    quantity q with requested price 0, and queues nothing otherwise.
    Whenever that order is executed while the symbol holds a Position, it
    fills at price 0 with commission 0, leaves capital unchanged and closes
    min(q, held) at exit price 0: the Position is deleted when the held
    quantity is at most q, and reduced by q otherwise. *)
Theorem sell_signal_on_unpriced_symbol cfg signal bar ts s r pos :
  Signal.action signal = "sell"%string ->
  lookup (Signal.symbol signal) (positions s) = Some r ->
  heap s !! r = Some pos ->
  bar_has (Signal.symbol signal) bar = false ->
  let sym := Signal.symbol signal in
  let q := match Signal.quantity signal with
           | Some q => q
           | None => Position.quantity pos
           end in
  let o := Order.mk sym SELL q 0 ts PENDING None None in
  (q <= 0 -> _process_signal cfg signal bar ts s = s) /\
  (0 < q ->
   _process_signal cfg signal bar ts s = set_orders (orders s ++ [o]) s) /\
  fill_price_of cfg o == 0 /\ commission_of cfg o == 0 /\
  (forall bar' s1 r1 pos1,
     lookup sym (positions s1) = Some r1 -> heap s1 !! r1 = Some pos1 ->
     let s2 := (execute_order cfg bar' o s1).2 in
     let closed := py_min q (Position.quantity pos1) in
     capital s2 == capital s1 /\
     (exists t, trades s2 = trades s1 ++ [t] /\
                Trade.quantity t = closed /\ Trade.exit_price t == 0) /\
     (Position.quantity pos1 <= q -> lookup sym (positions s2) = None) /\
     (q < Position.quantity pos1 ->
      lookup sym (positions s2) = Some r1 /\
      exists pos2, heap s2 !! r1 = Some pos2 /\
                   Position.quantity pos2 = Position.quantity pos1 - q)).
Proof.
  intros Ha Hl Hh Hno sym q o.
  apply bar_has_false in Hno.
  assert (Hsig : _process_signal cfg signal bar ts s =
                 if Qlt_bool 0 q then _place_order sym SELL q 0 ts s else s).
  { unfold _process_signal. rewrite Ha. cbn [String.eqb Ascii.eqb Bool.eqb].
    fold sym. fold sym in Hl. rewrite Hl, Hh. unfold bar_get.
    fold sym in Hno. by rewrite Hno. }
  assert (Hf : fill_price_of cfg o == 0) by (by apply fill_price_zero).
  assert (Hc : commission_of cfg o == 0) by (by apply commission_zero).
  split; [|split; [|split; [done|split; [done|]]]].
  - intros Hq. rewrite Hsig. apply Qlt_bool_false in Hq. by rewrite Hq.
  - intros Hq. rewrite Hsig. apply Qlt_bool_iff in Hq. by rewrite Hq.
  - intros bar' s1 r1 pos1 Hl1 Hh1 s2 closed.
    destruct (execute_sell_held cfg bar' o s1 r1 pos1 eq_refl eq_refl Hl1 Hh1)
      as (Ht & Hcap & _ & Hheap & Hpos).
    fold s2 in Ht, Hcap, Hheap, Hpos.
    change (Order.quantity o) with q in Ht, Hcap, Hheap, Hpos.
    change (Order.symbol o) with sym in Ht, Hpos.
    fold closed in Ht, Hcap, Hheap, Hpos.
    split; [|split; [|split]].
    + rewrite Hcap, Hf, Hc. ring.
    + eexists. split; [exact Ht|]. simpl. by split.
    + intros Hle. rewrite Hpos.
      assert (Hz : Qle_bool (Position.quantity pos1 - closed) 0 = true).
      { apply Qle_bool_iff. unfold closed.
        destruct (py_min_cases q (Position.quantity pos1)) as [[_ ->]|[H ->]]; lra. }
      rewrite Hz. apply lookup_remove_key.
    + intros Hlt.
      assert (Hcl : closed = q).
      { unfold closed.
        destruct (py_min_cases q (Position.quantity pos1)) as [[H _]|[_ ->]];
          [lra | done]. }
      rewrite Hpos, Hheap, Hcl.
      assert (Hz : Qle_bool (Position.quantity pos1 - q) 0 = false).
      { apply Qle_bool_false. lra. }
      rewrite Hz. split; [done|].
      rewrite list_lookup_insert_eq by (eapply lookup_lt_Some; eauto).
      eexists. split; reflexivity.
Qed.

(** ** The claims on concrete runs *)

Lemma rising_increasing : increasing rising.
Proof.
  intros [|[|[|i]]] b b' H1 H2; simpl in H1, H2; simplify_eq; simpl; lia.
Qed.

(** C1 fails as stated.  With the defaults, buying X on the second bar of
    [rising]: the Position opened on the third bar is marked at its fill
    price 100.05 while the equity recorded for that bar uses the bar's price
    110.  On [late_gap], the fifth bar does not price X: the recorded equity
    is the capital alone although the Position is still marked at 100. *)
Lemma marks_do_not_reconcile :
  ~ reconciles_with_marks (state_after default_config buy_once rising 3) /\
  ~ reconciles_with_marks (state_after default_config buy_once late_gap 5).
Proof.
  split; intros (e & He & Heq); vm_compute in He; injection He as <-;
    vm_compute in Heq; discriminate.
Qed.

(** The reconciliation on the third bar of [rising]. *)
Lemma equity_reconciliation_witness :
  rising !! 2%nat = Some (one_symbol 2 110) /\
  exists e,
    last (equity_curve (state_after default_config buy_once rising 3)) = Some e /\
    e == capital (state_after default_config buy_once rising 3)
         + priced_value (one_symbol 2 110)
             (state_after default_config buy_once rising 3).
Proof.
  split; [reflexivity|].
  exact (proj1 (proj2 (equity_reconciliation default_config buy_once rising 2
                         (one_symbol 2 110) eq_refl))).
Defined.

(** C2 fails as stated.  On [rising], the sell signal of the last bar queues
    order number 1 at timestamp 2; the terminal close-all step executes it
    together with its own liquidation order (number 2), so it is filled at
    timestamp 2, the timestamp of the bar it was placed in.  And a BUY queued
    on the last bar while nothing is held is never filled: no bar follows and
    the close-all step has nothing to liquidate. *)
Lemma last_bar_order_fills_at_once :
  (let placed := state_after default_config buy_then_sell rising 3 in
   exists final o0 o,
     length (orders (state_after default_config buy_then_sell rising 2)) = 1%nat /\
     length (orders placed) = 2%nat /\
     orders placed !! 1%nat = Some o0 /\
     Order.status o0 = PENDING /\ Order.timestamp o0 = 2%Z /\
     run_backtest default_config buy_then_sell rising = Some final /\
     orders final !! 1%nat = Some o /\
     Order.status o = FILLED /\
     Order.fill_timestamp o = Some (Order.timestamp o)) /\
  (exists final o,
     orders (state_after default_config buy_on_third rising 2) = [] /\
     run_backtest default_config buy_on_third rising = Some final /\
     orders final = [o] /\ Order.timestamp o = 2%Z /\
     Order.status o = PENDING /\ Order.fill_timestamp o = None).
Proof.
  split.
  - eexists _, _, _.
    repeat match goal with |- _ /\ _ => split end; by_computation.
  - eexists _, _.
    repeat match goal with |- _ /\ _ => split end; by_computation.
Qed.

(** The lag on [rising]: the BUY queued on the second bar fills on the third. *)
Lemma execution_lag_witness :
  let final :=
    _close_all_positions default_config (one_symbol 2 110) 2
      (state_after default_config buy_then_sell rising 3) in
  run_backtest default_config buy_then_sell rising = Some final /\
  increasing rising /\
  exists o, orders final !! 0%nat = Some o /\
            Order.timestamp o = 1%Z /\
            Order.fill_timestamp o = Some 2%Z.
Proof.
  intros final.
  assert (Hrun : run_backtest default_config buy_then_sell rising = Some final)
    by (vm_compute; reflexivity).
  split; [exact Hrun|]. split; [exact rising_increasing|].
  destruct (execution_lag default_config buy_then_sell rising final Hrun
              rising_increasing) as [Hlag _].
  destruct (Hlag 1%nat (one_symbol 1 100) (one_symbol 2 110) 0%nat
              eq_refl eq_refl)
    as (o0 & o & _ & _ & Ho & _ & Hts & _ & Hft & _).
  { vm_compute. split; lia. }
  exists o. by repeat split.
Defined.

(** C3 fails as stated.  On [early_gap] the BUY order for X queued on the
    second bar is pending when the third bar, which does not price X, begins;
    it is filled on that bar all the same. *)
Lemma unpriced_order_is_executed :
  exists bar o0 o,
    early_gap !! 2%nat = Some bar /\ bar_has "X" bar = false /\
    orders (state_after default_config buy_once early_gap 2) !! 0%nat = Some o0 /\
    Order.symbol o0 = "X"%string /\ Order.status o0 = PENDING /\
    orders (state_after default_config buy_once early_gap 3) !! 0%nat = Some o /\
    Order.status o = FILLED /\ Order.fill_timestamp o = Some (Bar.name bar).
Proof.
  eexists _, _, _.
  repeat match goal with |- _ /\ _ => split end; by_computation.
Qed.

(** The fifth bar of [late_gap] leaves the Position of X as it was. *)
Lemma unpriced_symbol_skipped_witness :
  let s := state_after default_config buy_once late_gap 4 in
  store_ok s /\ bar_has "X" (unpriced 4) = false /\
  heap (_update_positions (unpriced 4) s) !! 0%nat = heap s !! 0%nat.
Proof.
  intros s.
  assert (Hok : store_ok s).
  { apply (reachable_ok default_config). apply state_after_reachable. }
  split; [exact Hok|]. split; [reflexivity|].
  apply (proj1 (unpriced_symbol_skipped default_config (unpriced 4) s "X"
                  Hok eq_refl)).
  vm_compute. apply elem_of_cons. by left.
Defined.

(** The Position held after three bars of [rising] is positive. *)
Lemma positions_stay_positive_witness :
  let s := state_after default_config buy_once rising 3 in
  reachable default_config s /\
  exists pos, heap s !! 0%nat = Some pos /\ 0 < Position.quantity pos.
Proof.
  intros s.
  assert (Hr : reachable default_config s) by apply state_after_reachable.
  split; [exact Hr|].
  apply (proj1 (positions_stay_positive default_config s Hr) "X"%string).
  vm_compute. apply elem_of_cons. by left.
Defined.

(** C5 fails as stated.  A Position that holds 100 units entered at 50 at
    timestamp 7 receives two sequential BUY fills, 200 at 100 filled at
    timestamp 8 and 100 at 110 filled at timestamp 9.  It then holds 400
    units at an entry price of 90 with entry timestamp 7: for this pair of
    fills the quantity is not 200 + 100, the entry price is not
    (200*100 + 100*110)/(200 + 100), and the entry timestamp is not the fill
    timestamp of the first of the two. *)
Lemma held_position_breaks_cost_basis_weighting :
  let cfg := no_slippage_config in
  let s0 := (execute_order cfg (one_symbol 7 50) (buy_at 100 50 6)
               (_reset cfg)).2 in
  let o1 := buy_at 200 100 7 in
  let o2 := buy_at 100 110 8 in
  let s1 := (execute_order cfg (one_symbol 8 100) o1 s0).2 in
  let s2 := (execute_order cfg (one_symbol 9 110) o2 s1).2 in
  fill_price_of cfg o1 == 100 /\ fill_price_of cfg o2 == 110 /\
  Order.fill_timestamp (execute_order cfg (one_symbol 8 100) o1 s0).1
  = Some 8%Z /\
  exists r pos,
    lookup "X" (positions s2) = Some r /\ heap s2 !! r = Some pos /\
    Position.quantity pos == 400 /\
    ~ Position.quantity pos == 200 + 100 /\
    Position.entry_price pos == 90 /\
    ~ Position.entry_price pos == (200 * 100 + 100 * 110) / (200 + 100) /\
    Position.entry_timestamp pos = 7%Z /\
    Position.entry_timestamp pos <> 8%Z.
Proof.
  intros cfg s0 o1 o2 s1 s2.
  split; [by_computation|]. split; [by_computation|]. split; [by_computation|].
  eexists _, _.
  repeat match goal with |- _ /\ _ => split end; by_computation.
Qed.

(** 200 units at 100, then 100 units at 110, without slippage. *)
Lemma cost_basis_weighting_witness :
  let o1 := buy_at 200 100 1 in
  let o2 := buy_at 100 110 2 in
  let s1 := (execute_order no_slippage_config (one_symbol 2 110) o1
               (_reset no_slippage_config)).2 in
  let s1' := _update_positions (one_symbol 3 120) s1 in
  let s2 := (execute_order no_slippage_config (one_symbol 3 120) o2 s1').2 in
  lookup "X" (positions (_reset no_slippage_config)) = None /\
  same_book (heap s1) (heap s1') /\
  exists r pos,
    lookup "X" (positions s2) = Some r /\ heap s2 !! r = Some pos /\
    Position.entry_price pos == (200 * 100 + 100 * 110) / (200 + 100) /\
    Position.quantity pos = 200 + 100 /\
    Position.entry_timestamp pos = 2%Z.
Proof.
  intros o1 o2 s1 s1' s2.
  assert (Hsb : same_book (heap s1) (heap s1')).
  { apply mark_fold_same_book. }
  split; [reflexivity|]. split; [exact Hsb|].
  destruct (cost_basis_weighting no_slippage_config (one_symbol 2 110)
              (one_symbol 3 120) o1 o2 (_reset no_slippage_config) s1'
              eq_refl eq_refl eq_refl eq_refl eq_refl eq_refl eq_refl Hsb)
    as (r & pos & Hl & Hh & _ & He & Hq & Ht & _).
  exists r, pos. split; [exact Hl|]. split; [exact Hh|].
  split; [|split; [exact Hq | exact Ht]].
  rewrite He. vm_compute. reflexivity.
Defined.

(** C6 fails as stated.  On [rising_more] the sell signal asks for 300 units
    while 200 are held: the fill closes the Position fully, for 200 units,
    but the commission is charged on 300, so the recorded pnl and the capital
    credit match the identity neither for q = 200 (the closed quantity) nor
    for q = 300 (the requested one). *)
Lemma oversell_breaks_trade_identity :
  let before := state_after default_config buy_then_oversell rising_more 3 in
  let after := state_after default_config buy_then_oversell rising_more 4 in
  exists t,
    trades after = trades before ++ [t] /\ positions after = [] /\
    Trade.quantity t == 200 /\
    ~ trade_identity default_config t 200 (capital before) (capital after) /\
    ~ trade_identity default_config t 300 (capital before) (capital after).
Proof.
  eexists. split; [vm_compute; reflexivity|]. split; [reflexivity|].
  split; [reflexivity|].
  split; intros [H _]; vm_compute in H; discriminate.
Qed.

(** The scenario of the specification: 200 units bought at 100 and sold at
    120 give a pnl of 3,976 and a capital credit of 23,976. *)
Lemma full_close_trade_witness :
  let s' := (execute_order no_slippage_config (one_symbol 31 120)
               (sell_at_120 200) holding_200).2 in
  Position.quantity (Position.mk "X" 200 100 11 100 0)
    <= Order.quantity (sell_at_120 200) /\
  lookup "X" (positions s') = None /\
  (exists t, trades s' = [t] /\ Trade.pnl t == 3976 /\
             Trade.return_pct t == 20) /\
  capital s' == capital holding_200 + 23976.
Proof.
  intros s'.
  assert (Hle : Position.quantity (Position.mk "X" 200 100 11 100 0)
                <= Order.quantity (sell_at_120 200)) by by_computation.
  split; [exact Hle|].
  destruct (full_close_trade no_slippage_config (one_symbol 31 120)
              (sell_at_120 200) holding_200 0%nat
              (Position.mk "X" 200 100 11 100 0)
              eq_refl eq_refl eq_refl eq_refl Hle)
    as (Hgone & (t & Ht & _ & _ & _ & Hpnl & Hret & _) & Hcap & _).
  split; [exact Hgone|]. split.
  - exists t. split; [exact Ht|]. split.
    + rewrite Hpnl. vm_compute. reflexivity.
    + rewrite Hret. vm_compute. reflexivity.
  - fold s' in Hcap. rewrite Hcap. vm_compute. reflexivity.
Defined.

(** C8 fails as stated.  A SELL of X executed on an engine that holds no
    Position still adds its commission and its slippage cost to the totals.
    The same happens in a run: on [rising], the terminal close-all step
    queues a liquidation SELL, the execution loop first fills the pending
    sell of the signal, which closes the Position, and then fills the
    liquidation order on no Position; capital is what it is after the first
    fill alone, total_commission is not. *)
Lemma ghost_sell_is_charged :
  (let s' := _execute_orders default_config (one_symbol 1 100) lone_sell in
   lookup "X" (positions lone_sell) = None /\
   capital s' = capital lone_sell /\
   ~ total_commission s' == total_commission lone_sell /\
   ~ total_slippage s' == total_slippage lone_sell) /\
  (let before := state_after default_config buy_then_sell rising 3 in
   let first_only := _execute_orders default_config (one_symbol 2 110) before in
   exists final o,
     run_backtest default_config buy_then_sell rising = Some final /\
     lookup "X" (positions first_only) = None /\
     length (orders first_only) = 2%nat /\
     orders final !! 2%nat = Some o /\
     Order.side o = SELL /\ Order.status o = FILLED /\
     capital final = capital first_only /\
     trades final = trades first_only /\
     ~ total_commission final == total_commission first_only).
Proof.
  split.
  - repeat split; by_computation.
  - eexists _, _.
    repeat match goal with |- _ /\ _ => split end; by_computation.
Qed.

(** One SELL of X on a fresh engine. *)
Lemma sell_without_position_witness :
  let o := Order.mk "X" SELL 1 100 0 PENDING None None in
  let s' := (execute_order default_config (one_symbol 1 100) o
               (_reset default_config)).2 in
  lookup "X" (positions (_reset default_config)) = None /\
  capital s' = 100000 /\ trades s' = [] /\ positions s' = [] /\
  total_commission s' == 9995 # 100000.
Proof.
  intros o s'.
  destruct (sell_without_position default_config (one_symbol 1 100) o
              (_reset default_config) eq_refl eq_refl eq_refl)
    as (Hc & Hp & _ & Ht & _ & Hcom & _).
  split; [reflexivity|]. split; [exact Hc|]. split; [exact Ht|].
  split; [exact Hp|].
  fold s' in Hcom. rewrite Hcom. vm_compute. reflexivity.
Defined.

(** C9 fails as stated.  On [long_gap], with X held and unpriced on the
    fourth bar: a sell signal for 1 unit is queued at price 0 and filled on
    the fifth bar, after which the Position is still there with 199 units;
    and a sell signal for 0 units queues no order at all. *)
Lemma unpriced_sell_may_keep_position :
  let s5 := state_after default_config (buy_then_sell_late (Some 1)) long_gap 5 in
  lookup "X" (positions s5) = Some 0%nat /\
  (exists pos, heap s5 !! 0%nat = Some pos /\ Position.quantity pos == 199) /\
  (exists o, orders s5 !! 1%nat = Some o /\ Order.side o = SELL /\
             Order.price o = 0 /\ Order.status o = FILLED) /\
  length (orders (state_after default_config
                    (buy_then_sell_late (Some 0)) long_gap 5)) = 1%nat.
Proof.
  intros s5. split; [reflexivity|]. split; [|split].
  - eexists. split; [vm_compute; reflexivity | reflexivity].
  - eexists. repeat split; vm_compute; reflexivity.
  - reflexivity.
Qed.

(** A default sell signal on X, held for 200 units and unpriced. *)
Lemma sell_signal_on_unpriced_symbol_witness :
  let s1 := _process_signal default_config (sell_X None) (unpriced 12) 12
              holding_200 in
  let o := Order.mk "X" SELL 200 0 12 PENDING None None in
  bar_has "X" (unpriced 12) = false /\
  orders s1 = [o] /\
  capital (execute_order default_config (unpriced 13) o s1).2
    == capital holding_200 /\
  lookup "X" (positions (execute_order default_config (unpriced 13) o s1).2)
    = None.
Proof.
  intros s1 o.
  destruct (sell_signal_on_unpriced_symbol default_config (sell_X None)
              (unpriced 12) 12 holding_200 0%nat
              (Position.mk "X" 200 100 11 100 0)
              eq_refl eq_refl eq_refl eq_refl)
    as (_ & Hq & _ & _ & Hex).
  split; [reflexivity|]. split.
  - unfold s1. rewrite Hq; [reflexivity | by_computation].
  - destruct (Hex (unpriced 13) s1 0%nat (Position.mk "X" 200 100 11 100 0)
                eq_refl eq_refl) as (Hcap & _ & Hgone & _).
    split; [exact Hcap|]. apply Hgone. by_computation.
Defined.

(** A BUY of 2,000 units at 100 out of a capital of 100,000. *)
Lemma buy_has_no_capital_check_witness :
  let o := buy_at 2000 100 1 in
  let r := execute_order default_config (one_symbol 2 100) o
             (_reset default_config) in
  Order.status o = PENDING /\ Order.side o = BUY /\
  Order.status r.1 = FILLED /\ capital r.2 < 0.
Proof.
  intros o r.
  destruct (buy_has_no_capital_check default_config (one_symbol 2 100) o
              (_reset default_config) eq_refl eq_refl) as (Hf & Hc & _).
  split; [reflexivity|]. split; [reflexivity|]. split; [exact Hf|].
  fold r in Hc. rewrite Hc. vm_compute. reflexivity.
Defined.

(** ** The Sharpe ratio on flat curves *)

(** C7 fails on the code.  [sharpe_ratio] is guarded against an empty return
    series only: a curve with a single return sample, or with constant
    returns, has a standard deviation of 0 and the ratio is NaN (0/0) or an
    infinity (x/0) instead of 0.  The empty series does give 0.  A run over
    a single bar without trades records the curve [100000; 100000]. *)
Theorem sharpe_ratio_unguarded :
  option_map equity_curve
    (run_backtest default_config (scripted []) [one_symbol 0 100])
    = Some [100000; 100000] /\
  PrimFloat.is_nan (Metrics.sharpe_ratio [100000; 100000]%float) = true /\
  PrimFloat.is_infinity (Metrics.sharpe_ratio [100; 110]%float) = true /\
  PrimFloat.is_nan (Metrics.sharpe_ratio [100; 100; 100]%float) = true /\
  PrimFloat.is_infinity (Metrics.sharpe_ratio [100; 110; 121]%float) = true /\
  Metrics.np_std (Metrics.returns_of [100; 110; 121]%float) = 0%float /\
  Metrics.sharpe_ratio [100000]%float = 0%float.
Proof. repeat split; vm_compute; reflexivity. Qed.

(** ** Every point of a run is a step *)

Lemma execute_loop_stepwise cfg bar todo dn s :
  stepwise cfg s -> orders s = dn ++ todo ->
  stepwise cfg (set_orders (dn ++ (execute_loop cfg bar todo s).1)
                           (execute_loop cfg bar todo s).2).
Proof.
  revert dn s. induction todo as [|o todo IH]; intros dn s Hr Hos; simpl.
  - rewrite <- Hos. by rewrite set_orders_id.
  - pose proof (step_fill cfg bar s dn o todo Hr Hos) as H1.
    specialize (IH (dn ++ [(execute_order cfg bar o s).1]) _ H1).
    simpl in IH. rewrite <- app_assoc in IH. specialize (IH eq_refl).
    rewrite execute_loop_set_orders in IH. simpl in IH.
    destruct (execute_order cfg bar o s) as [o' s']. simpl in *.
    destruct (execute_loop cfg bar todo s') as [os' s'']. simpl in *.
    by rewrite <- app_assoc in IH.
Qed.

Lemma _execute_orders_stepwise cfg bar s :
  stepwise cfg s -> stepwise cfg (_execute_orders cfg bar s).
Proof.
  intros Hr.
  pose proof (execute_loop_stepwise cfg bar (orders s) [] s Hr eq_refl) as H.
  simpl in H. unfold _execute_orders.
  by destruct (execute_loop cfg bar (orders s) s).
Qed.

Lemma risk_check_stepwise cfg bar s item :
  stepwise cfg s -> stepwise cfg (risk_check cfg bar s item).
Proof.
  intros Hs. destruct item as [sym r]. unfold risk_check.
  destruct (lookup sym (Bar.row bar)) as [p|]; [|done].
  destruct (heap s !! r) as [pos|]; [|done].
  set (s1 := match stop_loss_pct cfg with Some _ => _ | None => _ end).
  assert (H1 : stepwise cfg s1).
  { unfold s1. destruct (stop_loss_pct cfg); [|done].
    destruct (PrimFloat.leb _ _); [|done]. by apply step_place. }
  destruct (take_profit_pct cfg); [|done].
  destruct (PrimFloat.leb _ _); [|done]. by apply step_place.
Qed.

Lemma _check_risk_management_stepwise cfg bar s :
  stepwise cfg s -> stepwise cfg (_check_risk_management cfg bar s).
Proof.
  intros Hs. unfold _check_risk_management.
  assert (Hf : stepwise cfg (fold_left (risk_check cfg bar) (positions s) s)).
  { apply fold_left_preserves; [|done]. intros. by apply risk_check_stepwise. }
  destruct (stop_loss_pct cfg), (take_profit_pct cfg); done.
Qed.

Lemma _process_signal_stepwise cfg signal bar ts s :
  stepwise cfg s -> stepwise cfg (_process_signal cfg signal bar ts s).
Proof.
  intros Hs. unfold _process_signal.
  destruct (String.eqb _ "buy").
  - destruct (Qeq_bool _ 0); [done|].
    destruct (Qlt_bool 0 _) eqn:E; [|done].
    apply step_place; [done|]. intros _. by apply Qlt_bool_iff.
  - destruct (String.eqb _ "sell"); [|done].
    destruct (lookup _ _); [|done]. destruct (_ !! _); [|done].
    destruct (Qlt_bool 0 _); [|done]. by apply step_place.
Qed.

Lemma close_position_stepwise cfg bar ts s item :
  stepwise cfg s -> stepwise cfg (close_position cfg bar ts s item).
Proof.
  intros Hs. destruct item as [sym r]. unfold close_position.
  destruct (lookup sym (Bar.row bar)); [|done].
  destruct (heap s !! r); [|done].
  apply _execute_orders_stepwise. by apply step_place.
Qed.

Lemma reachable_stepwise cfg s : reachable cfg s -> stepwise cfg s.
Proof.
  induction 1 as [|bar s _ IH|bar s dn o todo _ IH Hos|bar s _ IH
                  |signal bar ts s _ IH|bar s _ IH|bar ts s item _ IH].
  - apply step_reset.
  - by apply step_mark.
  - by apply step_fill.
  - by apply _check_risk_management_stepwise.
  - by apply _process_signal_stepwise.
  - by apply step_record.
  - by apply close_position_stepwise.
Qed.

Lemma stepwise_ok cfg s : stepwise cfg s -> store_ok s.
Proof.
  induction 1 as [|bar s _ IH|bar s dn o todo _ IH Hos
                  |sym sd qty prc ts s _ IH Hq|bar s _ IH].
  - apply _reset_ok.
  - by apply _update_positions_ok.
  - destruct IH as [Hb Ho]. split; simpl.
    + apply execute_order_book_ok; [done|]. apply Ho. rewrite Hos.
      apply elem_of_app. right. apply elem_of_cons. by left.
    + intros x Hin. apply elem_of_app in Hin as [Hin|Hin].
      * apply Ho. rewrite Hos. apply elem_of_app. by left.
      * apply elem_of_cons in Hin as [->|Hin].
        -- rewrite execute_order_fst. intros Hp.
           by apply settle_not_pending in Hp.
        -- apply Ho. rewrite Hos. apply elem_of_app. right.
           apply elem_of_cons. by right.
  - by apply _place_order_ok.
  - exact IH.
Qed.

(** ** One order of the loop, case by case *)

Lemma execute_settled cfg bar o s :
  Order.status o <> PENDING -> execute_order cfg bar o s = (o, s).
Proof. unfold execute_order. by destruct (Order.status o). Qed.

Lemma execute_buy_new_state cfg bar o s :
  Order.status o = PENDING -> Order.side o = BUY ->
  lookup (Order.symbol o) (positions s) = None ->
  (execute_order cfg bar o s).2 =
  mkEngine (capital s - (Order.quantity o * fill_price_of cfg o + commission_of cfg o))
           (heap s ++ [Position.mk (Order.symbol o) (Order.quantity o)
                         (fill_price_of cfg o) (Bar.name bar)
                         (fill_price_of cfg o) 0])
           (positions s ++ [(Order.symbol o, length (heap s))])
           (orders s) (trades s) (equity_curve s) (timestamps s) (total_pnl s)
           (total_commission s + commission_of cfg o)
           (total_slippage s
            + Qabs (fill_price_of cfg o - Order.price o) * Qabs (Order.quantity o)).
Proof.
  intros Hp Hs Hl. unfold execute_order. rewrite Hp, Hs.
  unfold buy_update. simpl. by rewrite Hl.
Qed.

Lemma execute_buy_held_state cfg bar o s r pos :
  Order.status o = PENDING -> Order.side o = BUY ->
  lookup (Order.symbol o) (positions s) = Some r -> heap s !! r = Some pos ->
  (execute_order cfg bar o s).2 =
  mkEngine (capital s - (Order.quantity o * fill_price_of cfg o + commission_of cfg o))
           (<[r := Position.mk (Position.symbol pos)
                     (Position.quantity pos + Order.quantity o)
                     ((Position.entry_price pos * Position.quantity pos
                       + fill_price_of cfg o * Order.quantity o)
                      / (Position.quantity pos + Order.quantity o))
                     (Position.entry_timestamp pos)
                     (Position.current_price pos)
                     (Position.unrealized_pnl pos)]> (heap s))
           (positions s)
           (orders s) (trades s) (equity_curve s) (timestamps s) (total_pnl s)
           (total_commission s + commission_of cfg o)
           (total_slippage s
            + Qabs (fill_price_of cfg o - Order.price o) * Qabs (Order.quantity o)).
Proof.
  intros Hp Hs Hl Hh. unfold execute_order. rewrite Hp, Hs.
  unfold buy_update. simpl. by rewrite Hl, Hh.
Qed.

Lemma execute_sell_held_state cfg bar o s r pos :
  Order.status o = PENDING -> Order.side o = SELL ->
  lookup (Order.symbol o) (positions s) = Some r -> heap s !! r = Some pos ->
  let fill_price := fill_price_of cfg o in
  let commission := commission_of cfg o in
  let close_quantity := py_min (Order.quantity o) (Position.quantity pos) in
  let pnl := (fill_price - Position.entry_price pos) * close_quantity - commission in
  (execute_order cfg bar o s).2 =
  mkEngine (capital s + (close_quantity * fill_price - commission))
           (<[r := Position.mk (Position.symbol pos)
                     (Position.quantity pos - close_quantity)
                     (Position.entry_price pos) (Position.entry_timestamp pos)
                     (Position.current_price pos)
                     (Position.unrealized_pnl pos)]> (heap s))
           (if Qle_bool (Position.quantity pos - close_quantity) 0
            then remove_key (Order.symbol o) (positions s) else positions s)
           (orders s)
           (trades s ++ [Trade.mk (Order.symbol o) SELL close_quantity
                           (Position.entry_price pos) fill_price
                           (Position.entry_timestamp pos) (Bar.name bar) pnl
                           ((fill_price / Position.entry_price pos - 1) * 100)
                           (Bar.name bar - Position.entry_timestamp pos)%Z])
           (equity_curve s) (timestamps s) (total_pnl s + pnl)
           (total_commission s + commission)
           (total_slippage s
            + Qabs (fill_price - Order.price o) * Qabs (Order.quantity o)).
Proof.
  intros Hp Hs Hl Hh. unfold execute_order. rewrite Hp, Hs.
  unfold sell_update. simpl. rewrite Hl, Hh. cbv zeta. simpl.
  by destruct (Qle_bool _ 0).
Qed.

Lemma execute_sell_ghost_state cfg bar o s :
  Order.status o = PENDING -> Order.side o = SELL ->
  lookup (Order.symbol o) (positions s) = None ->
  (execute_order cfg bar o s).2 =
  mkEngine (capital s) (heap s) (positions s) (orders s) (trades s)
           (equity_curve s) (timestamps s) (total_pnl s)
           (total_commission s + commission_of cfg o)
           (total_slippage s
            + Qabs (fill_price_of cfg o - Order.price o) * Qabs (Order.quantity o)).
Proof.
  intros Hp Hs Hl. unfold execute_order. rewrite Hp, Hs.
  unfold sell_update. cbn [snd fst].
  change (positions (set_total_slippage ?x (set_total_commission ?y s)))
    with (positions s).
  by rewrite Hl.
Qed.

Lemma lookup_live h d sym r :
  book_ok h d -> lookup sym d = Some r ->
  exists pos, h !! r = Some pos /\ 0 < Position.quantity pos.
Proof. intros [_ Hlive] Hl. apply (Hlive sym). by apply lookup_elem. Qed.

Lemma fill_cases cfg bar o s :
  book_ok (heap s) (positions s) -> fill_case cfg bar o s.
Proof.
  intros Hb. destruct (Order.status o) eqn:Hp.
  - destruct (Order.side o) eqn:Hs;
      destruct (lookup (Order.symbol o) (positions s)) as [r|] eqn:Hl.
    + destruct (lookup_live _ _ _ _ Hb Hl) as (pos & Hh & Hq).
      by eapply fill_buy_held.
    + by apply fill_buy_new.
    + destruct (lookup_live _ _ _ _ Hb Hl) as (pos & Hh & Hq).
      by eapply fill_sell_held.
    + by apply fill_sell_ghost.
  - apply fill_settled; [congruence|]. apply execute_settled. congruence.
  - apply fill_settled; [congruence|]. apply execute_settled. congruence.
Qed.

(** ** Sums *)

Lemma Qsum_app l1 l2 : Qsum (l1 ++ l2) == Qsum l1 + Qsum l2.
Proof.
  induction l1 as [|x l1 IH]; simpl; [ring|]. rewrite IH. ring.
Qed.

Lemma Qsum_nonneg l : Forall (fun x => 0 <= x) l -> 0 <= Qsum l.
Proof.
  induction 1 as [|x l Hx _ IH]; simpl; [lra|]. lra.
Qed.

Lemma Qsum_fmap_ext {A} (f g : A -> Q) (l : list A) :
  (forall x, x ∈ l -> f x == g x) -> Qsum (f <$> l) == Qsum (g <$> l).
Proof.
  induction l as [|x l IH]; intros H; simpl; [reflexivity|].
  rewrite (H x) by (apply elem_of_cons; by left).
  rewrite IH; [reflexivity|]. intros y Hy. apply H. apply elem_of_cons. by right.
Qed.

Lemma Qsum_middle {A} (f : A -> Q) dn x y todo :
  Qsum (f <$> dn ++ y :: todo) == Qsum (f <$> dn ++ x :: todo) + (f y - f x).
Proof.
  rewrite !fmap_app, !Qsum_app. simpl. ring.
Qed.

(** ** Orders stay well formed *)

(** X1.  At every point of a run no order is Cancelled, a Pending order has
    neither fill price nor fill timestamp, and a Filled order has both, its
    fill price being the slipped price of its own requested price. *)
Theorem order_lifecycle cfg s :
  reachable cfg s ->
  forall o, o ∈ orders s ->
    Order.status o <> CANCELLED /\
    (Order.status o = PENDING ->
     Order.fill_price o = None /\ Order.fill_timestamp o = None) /\
    (Order.status o = FILLED ->
     Order.fill_price o = Some (fill_price_of cfg o) /\
     exists ts, Order.fill_timestamp o = Some ts).
Proof.
  intros Hr. apply reachable_stepwise in Hr.
  induction Hr as [|bar s _ IH|bar s dn o todo _ IH Hos
                   |sym sd qty prc ts s _ IH Hq|bar s _ IH]; try exact IH.
  - intros o Ho. by apply elem_of_nil in Ho.
  - intros x Hin. simpl in Hin.
    assert (Hold : forall y, y ∈ dn \/ y ∈ todo -> y ∈ orders s).
    { intros y Hy. rewrite Hos. apply elem_of_app.
      destruct Hy; [by left|]. right. apply elem_of_cons. by right. }
    apply elem_of_app in Hin as [Hin|Hin]; [apply IH, Hold; by left|].
    apply elem_of_cons in Hin as [->|Hin]; [|apply IH, Hold; by right].
    rewrite execute_order_fst. unfold settle.
    assert (Ho : o ∈ orders s).
    { rewrite Hos. apply elem_of_app. right. apply elem_of_cons. by left. }
    destruct (Order.status o) eqn:Hp.
    + simpl. split; [done|]. split; [done|]. intros _. split; [done|]. eauto.
    + by apply IH.
    + by apply IH.
  - intros o Hin. simpl in Hin. apply elem_of_app in Hin as [Hin|Hin]; [by apply IH|].
    apply list_elem_of_singleton in Hin. subst o. simpl.
    split; [done|]. split; [done|]. discriminate.
Qed.

(** The lifecycle at the end of [rising]. *)
Lemma order_lifecycle_witness :
  let s := state_after default_config buy_then_sell rising 3 in
  reachable default_config s /\
  forall o, o ∈ orders s -> Order.status o <> CANCELLED.
Proof.
  intros s.
  assert (Hr : reachable default_config s) by apply state_after_reachable.
  split; [exact Hr|].
  intros o Ho. exact (proj1 (order_lifecycle default_config s Hr o Ho)).
Defined.

(** ** Run totals *)

Lemma execute_order_totals cfg bar o s :
  total_commission (execute_order cfg bar o s).2 =
    match Order.status o with
    | PENDING => total_commission s + commission_of cfg o
    | _ => total_commission s
    end /\
  total_slippage (execute_order cfg bar o s).2 =
    match Order.status o with
    | PENDING => total_slippage s
                 + Qabs (fill_price_of cfg o - Order.price o)
                   * Qabs (Order.quantity o)
    | _ => total_slippage s
    end.
Proof.
  unfold execute_order. destruct (Order.status o); try done.
  destruct (Order.side o); simpl.
  - unfold buy_update. simpl.
    destruct (lookup _ _); [destruct (_ !! _)|]; done.
  - unfold sell_update. simpl.
    destruct (lookup _ _); [destruct (_ !! _)|]; try done.
    cbv zeta. by destruct (Qle_bool _ _).
Qed.

Lemma order_commission_settle cfg bar o :
  order_commission cfg (settle cfg bar o) = commission_of cfg o.
Proof.
  unfold settle, order_commission. by destruct (Order.status o) eqn:Hp; rewrite ?Hp.
Qed.

Lemma order_slippage_settle cfg bar o :
  order_slippage cfg (settle cfg bar o) =
  Qabs (fill_price_of cfg o - Order.price o) * Qabs (Order.quantity o).
Proof.
  unfold settle, order_slippage. by destruct (Order.status o) eqn:Hp; rewrite ?Hp.
Qed.

Lemma buy_commission_settle cfg bar o :
  buy_commission cfg (settle cfg bar o) =
  match Order.side o with BUY => commission_of cfg o | SELL => 0 end.
Proof.
  unfold settle, buy_commission.
  by destruct (Order.status o) eqn:Hp; rewrite ?Hp.
Qed.

(** X2.  At every point of a run, total_commission is the sum of the
    commissions of the orders executed so far and total_slippage the sum of
    their slippage costs, pending orders counting for nothing; neither total
    is ever negative. *)
Theorem totals_account_for_fills cfg s :
  reachable cfg s ->
  total_commission s == charged cfg (orders s) /\
  total_slippage s == slipped cfg (orders s) /\
  0 <= total_commission s /\ 0 <= total_slippage s.
Proof.
  intros Hr. apply reachable_stepwise in Hr.
  assert (H : total_commission s == charged cfg (orders s) /\
              total_slippage s == slipped cfg (orders s)).
  { induction Hr as [|bar s _ IH|bar s dn o todo _ IH Hos
                     |sym sd qty prc ts s _ IH Hq|bar s _ IH]; try exact IH.
    - split; reflexivity.
    - destruct IH as [IHc IHs].
      destruct (execute_order_totals cfg bar o s) as [Ec Es].
      cbn [total_commission total_slippage orders set_orders].
      rewrite Ec, Es, execute_order_fst.
      unfold charged, slipped in *. rewrite Hos in IHc, IHs.
      rewrite (Qsum_middle (order_commission cfg) dn o (settle cfg bar o) todo).
      rewrite (Qsum_middle (order_slippage cfg) dn o (settle cfg bar o) todo).
      rewrite <- IHc, <- IHs.
      rewrite (order_commission_settle cfg bar o).
      rewrite (order_slippage_settle cfg bar o).
      unfold order_commission, order_slippage.
      destruct (Order.status o); split; ring.
    - destruct IH as [IHc IHs]. unfold charged, slipped in *.
      cbn [total_commission total_slippage orders _place_order set_orders].
      rewrite !fmap_app, !Qsum_app. rewrite <- IHc, <- IHs.
      unfold order_commission, order_slippage. simpl. split; ring. }
  destruct H as [Hc Hs]. split; [done|]. split; [done|].
  rewrite Hc, Hs. split; apply Qsum_nonneg; apply Forall_fmap, Forall_forall;
    intros o _; unfold compose, order_commission, order_slippage, commission_of;
    destruct (Order.status o).
  all: first [ apply Qle_refl
          | apply Qabs_nonneg
          | apply Qmult_le_0_compat; apply Qabs_nonneg ].
Qed.

(** The totals at the end of [rising], where one of the three executed
    orders was a SELL on no Position. *)
Lemma totals_account_for_fills_witness :
  exists final,
    run_backtest default_config buy_then_sell rising = Some final /\
    reachable default_config final /\
    total_commission final == charged default_config (orders final).
Proof.
  eexists. split; [vm_compute; reflexivity|].
  match goal with |- reachable ?c ?f /\ _ =>
    assert (Hr : reachable c f)
  end.
  { apply (run_backtest_reachable default_config buy_then_sell rising).
    vm_compute. reflexivity. }
  split; [exact Hr|].
  exact (proj1 (totals_account_for_fills default_config _ Hr)).
Defined.

(** ** Realized profit *)

Lemma execute_order_pnl cfg bar o s :
  book_ok (heap s) (positions s) ->
  (trades (execute_order cfg bar o s).2 = trades s /\
   total_pnl (execute_order cfg bar o s).2 = total_pnl s) \/
  (exists t, trades (execute_order cfg bar o s).2 = trades s ++ [t] /\
             total_pnl (execute_order cfg bar o s).2 = total_pnl s + Trade.pnl t /\
             Trade.side t = SELL /\ Trade.symbol t = Order.symbol o).
Proof.
  intros Hb.
  destruct (fill_cases cfg bar o s Hb)
    as [Hp E|Hp Hs Hl|r pos Hp Hs Hl Hh Hq|r pos Hp Hs Hl Hh Hq|Hp Hs Hl].
  - left. by rewrite E.
  - left. by rewrite (execute_buy_new_state cfg bar o s Hp Hs Hl).
  - left. by rewrite (execute_buy_held_state cfg bar o s r pos Hp Hs Hl Hh).
  - right. rewrite (execute_sell_held_state cfg bar o s r pos Hp Hs Hl Hh).
    eexists. split; [reflexivity|]. by simpl.
  - left. by rewrite (execute_sell_ghost_state cfg bar o s Hp Hs Hl).
Qed.

(** X3.  At every point of a run total_pnl is the sum of the pnl of the
    recorded trades, and every recorded trade is a SELL. *)
Theorem realized_pnl_is_sum_of_trades cfg s :
  reachable cfg s ->
  total_pnl s == realized (trades s) /\
  Forall (fun t => Trade.side t = SELL) (trades s).
Proof.
  intros Hr. apply reachable_stepwise in Hr.
  induction Hr as [|bar s Hs IH|bar s dn o todo Hs IH Hos
                   |sym sd qty prc ts s _ IH Hq|bar s _ IH]; try exact IH.
  - split; [reflexivity | constructor].
  - destruct IH as [IHp IHt]. simpl.
    destruct (stepwise_ok cfg s Hs) as [Hb _].
    destruct (execute_order_pnl cfg bar o s Hb) as [[Et Ep]|(t & Et & Ep & Hsd & _)].
    + by rewrite Et, Ep.
    + rewrite Et, Ep. split.
      * unfold realized in *. rewrite fmap_app, Qsum_app. simpl. rewrite IHp. ring.
      * apply Forall_app. split; [done|]. by constructor.
Qed.

(** The realized profit after the oversell on [rising_more]. *)
Lemma realized_pnl_is_sum_of_trades_witness :
  let s := state_after default_config buy_then_oversell rising_more 4 in
  reachable default_config s /\ total_pnl s == realized (trades s).
Proof.
  intros s.
  assert (Hr : reachable default_config s) by apply state_after_reachable.
  split; [exact Hr|].
  exact (proj1 (realized_pnl_is_sum_of_trades default_config s Hr)).
Defined.

(** ** One Position per symbol *)

Lemma lookup_None_keys {A} k (d : list (string * A)) :
  lookup k d = None -> k ∉ d.*1.
Proof.
  induction d as [|[k' v] d IH]; simpl.
  - intros _ H. by apply elem_of_nil in H.
  - destruct (String.eqb_spec k k') as [->|Hne]; [discriminate|].
    intros Hl Hin. apply elem_of_cons in Hin as [Hin|Hin]; [done|]. by apply IH.
Qed.

Lemma lookup_of_elem {A} k v (d : list (string * A)) :
  NoDup d.*1 -> (k, v) ∈ d -> lookup k d = Some v.
Proof.
  induction d as [|[k' v'] d IH]; simpl.
  - intros _ H. by apply elem_of_nil in H.
  - rewrite NoDup_cons. intros [Hni Hnd] Hin.
    apply elem_of_cons in Hin as [Heq|Hin].
    + injection Heq as <- <-. by rewrite String.eqb_refl.
    + destruct (String.eqb_spec k k') as [->|Hne]; [|by apply IH].
      exfalso. apply Hni. apply list_elem_of_fmap. by exists (k', v).
Qed.

Lemma NoDup_keys_remove_key {A} k (d : list (string * A)) :
  NoDup d.*1 -> NoDup (remove_key k d).*1.
Proof.
  induction d as [|[k' v'] d IH]; simpl; [done|].
  rewrite NoDup_cons. intros [Hni Hnd].
  destruct (String.eqb k k'); [auto|].
  simpl. apply NoDup_cons. split; [|auto].
  intros Hin. apply Hni.
  apply list_elem_of_fmap in Hin as [[k0 v0] [-> Hin]].
  apply elem_remove_key in Hin as [Hin _].
  apply list_elem_of_fmap. by exists (k0, v0).
Qed.

Lemma mark_position_symbol bar h item r pos' :
  mark_position bar h item !! r = Some pos' ->
  exists pos, h !! r = Some pos /\ Position.symbol pos' = Position.symbol pos.
Proof.
  destruct item as [sym r0]. unfold mark_position.
  destruct (lookup sym (Bar.row bar)) as [p|]; [|by eauto].
  destruct (h !! r0) as [pos0|] eqn:E0; [|by eauto].
  destruct (decide (r0 = r)) as [->|Hne].
  - rewrite list_lookup_insert_eq by (eapply lookup_lt_Some; eauto).
    intros [= <-]. by exists pos0.
  - rewrite list_lookup_insert_ne by done. by eauto.
Qed.

Lemma mark_fold_symbol bar items h r pos' :
  fold_left (mark_position bar) items h !! r = Some pos' ->
  exists pos, h !! r = Some pos /\ Position.symbol pos' = Position.symbol pos.
Proof.
  revert h. induction items as [|item items IH]; intros h; simpl; [by eauto|].
  intros H. destruct (IH _ H) as (pos1 & E1 & Hs1).
  destruct (mark_position_symbol bar h item r pos1 E1) as (pos & E & Hs).
  exists pos. split; [done|]. congruence.
Qed.

Lemma stepwise_keys_ok cfg s : stepwise cfg s -> keys_ok s.
Proof.
  induction 1 as [|bar s Hs IH|bar s dn o todo Hs IH Hos
                  |sym sd qty prc ts s _ IH Hq|bar s _ IH]; try exact IH.
  - split; simpl; [apply NoDup_nil_2|]. intros sym r pos H.
    by apply elem_of_nil in H.
  - destruct IH as [Hk Hsym]. split; [done|]. simpl.
    intros sym r pos' Hin H'.
    destruct (mark_fold_symbol bar _ _ r pos' H') as (pos & E & ->).
    by eapply Hsym.
  - destruct IH as [Hk Hsym]. destruct (stepwise_ok cfg s Hs) as [Hb _].
    unfold keys_ok. cbn [positions heap set_orders].
    destruct (fill_cases cfg bar o s Hb)
      as [Hp E|Hp Hsd Hl|r pos Hp Hsd Hl Hh Hq|r pos Hp Hsd Hl Hh Hq|Hp Hsd Hl].
    + by rewrite E.
    + rewrite (execute_buy_new_state cfg bar o s Hp Hsd Hl). simpl. split.
      * rewrite fmap_app. apply NoDup_app. split; [done|]. split.
        -- intros k Hin Hin'. apply list_elem_of_singleton in Hin'. subst k.
           by apply lookup_None_keys in Hl.
        -- apply NoDup_singleton.
      * intros sym r pos Hin Hpos. apply elem_of_app in Hin as [Hin|Hin].
        -- apply (Hsym sym r); [done|].
           rewrite lookup_app_l in Hpos; [done|].
           by eapply book_ok_ref_lt.
        -- apply list_elem_of_singleton in Hin. injection Hin as -> ->.
           rewrite lookup_app_r in Hpos by lia.
           rewrite Nat.sub_diag in Hpos. by injection Hpos as <-.
    + rewrite (execute_buy_held_state cfg bar o s r pos Hp Hsd Hl Hh). simpl.
      split; [done|]. intros sym r' pos' Hin Hpos.
      destruct (decide (r = r')) as [<-|Hne].
      * rewrite list_lookup_insert_eq in Hpos by (eapply lookup_lt_Some; eauto).
        injection Hpos as <-. simpl. by eapply Hsym.
      * rewrite list_lookup_insert_ne in Hpos by done. by eapply Hsym.
    + rewrite (execute_sell_held_state cfg bar o s r pos Hp Hsd Hl Hh). simpl.
      assert (Hheap : forall sym r' pos', (sym, r') ∈ positions s ->
                <[r := Position.mk (Position.symbol pos)
                     (Position.quantity pos
                      - py_min (Order.quantity o) (Position.quantity pos))
                     (Position.entry_price pos) (Position.entry_timestamp pos)
                     (Position.current_price pos)
                     (Position.unrealized_pnl pos)]> (heap s) !! r' = Some pos' ->
                Position.symbol pos' = sym).
      { intros sym r' pos' Hin Hpos.
        destruct (decide (r = r')) as [<-|Hne].
        - rewrite list_lookup_insert_eq in Hpos by (eapply lookup_lt_Some; eauto).
          injection Hpos as <-. simpl. by eapply Hsym.
        - rewrite list_lookup_insert_ne in Hpos by done. by eapply Hsym. }
      destruct (Qle_bool _ 0).
      * split; [by apply NoDup_keys_remove_key|].
        intros sym r' pos' Hin. apply elem_remove_key in Hin as [Hin _].
        by apply Hheap.
      * split; [done|]. exact Hheap.
    + by rewrite (execute_sell_ghost_state cfg bar o s Hp Hsd Hl).
Qed.

(** ** Cost basis *)

Lemma item_cost_app h extra item :
  (item.2 < length h)%nat -> item_cost (h ++ extra) item = item_cost h item.
Proof. intros H. unfold item_cost. by rewrite lookup_app_l. Qed.

Lemma item_cost_insert_ne (h : list Position.t) r new item :
  item.2 <> r -> item_cost (<[r := new]> h) item = item_cost h item.
Proof. intros H. unfold item_cost. by rewrite list_lookup_insert_ne. Qed.

Lemma cost_insert_absent (h : list Position.t) r new (d : list (string * nat)) :
  r ∉ d.*2 -> item_cost (<[r := new]> h) <$> d = item_cost h <$> d.
Proof.
  induction d as [|[k v] d IH]; [done|].
  rewrite !fmap_cons. intros Hni. rewrite item_cost_insert_ne, IH; [done| |].
  - intros Hin. apply Hni. apply elem_of_cons. by right.
  - simpl. intros ->. apply Hni. apply elem_of_cons. by left.
Qed.

Lemma Qsum_cons x l : Qsum (x :: l) = x + Qsum l.
Proof. reflexivity. Qed.

Lemma cost_insert (h : list Position.t) (d : list (string * nat)) sym r old new :
  NoDup d.*2 -> (sym, r) ∈ d -> h !! r = Some old ->
  Qsum (item_cost (<[r := new]> h) <$> d) ==
  Qsum (item_cost h <$> d)
  + (Position.entry_price new * Position.quantity new
     - Position.entry_price old * Position.quantity old).
Proof.
  intros Hnd Hin Hold. induction d as [|[k v] d IH].
  - by apply elem_of_nil in Hin.
  - rewrite fmap_cons in Hnd. apply NoDup_cons in Hnd as [Hni Hnd].
    rewrite !fmap_cons, !Qsum_cons.
    apply elem_of_cons in Hin as [Heq|Hin].
    + injection Heq as <- <-. rewrite cost_insert_absent by done.
      unfold item_cost at 1 3. cbn [snd].
      rewrite list_lookup_insert_eq by (eapply lookup_lt_Some; eauto).
      rewrite Hold. ring.
    + rewrite IH by done.
      rewrite item_cost_insert_ne; [ring|].
      simpl. intros ->. apply Hni. apply list_elem_of_fmap. by exists (sym, r).
Qed.

Lemma remove_key_absent {A} k (d : list (string * A)) :
  k ∉ d.*1 -> remove_key k d = d.
Proof.
  induction d as [|[k' v'] d IH]; simpl; [done|].
  intros Hni. destruct (String.eqb_spec k k') as [->|Hne].
  - exfalso. apply Hni. apply elem_of_cons. by left.
  - rewrite IH; [done|]. intros H. apply Hni. apply elem_of_cons. by right.
Qed.

Lemma cost_remove_key h (d : list (string * nat)) sym r :
  NoDup d.*1 -> (sym, r) ∈ d ->
  Qsum (item_cost h <$> remove_key sym d) ==
  Qsum (item_cost h <$> d) - item_cost h (sym, r).
Proof.
  intros Hnd Hin. induction d as [|[k v] d IH].
  - by apply elem_of_nil in Hin.
  - rewrite fmap_cons in Hnd. apply NoDup_cons in Hnd as [Hni Hnd].
    cbn [remove_key]. rewrite fmap_cons, Qsum_cons.
    apply elem_of_cons in Hin as [Heq|Hin].
    + injection Heq as <- <-. rewrite String.eqb_refl.
      rewrite remove_key_absent by done. ring.
    + destruct (String.eqb_spec sym k) as [->|Hne].
      * exfalso. apply Hni. apply list_elem_of_fmap. by exists (k, r).
      * rewrite fmap_cons, Qsum_cons. rewrite IH by done. ring.
Qed.

Lemma cost_basis_mark bar s :
  cost_basis (_update_positions bar s) = cost_basis s.
Proof.
  unfold cost_basis. simpl. f_equal. apply list_fmap_ext.
  intros _ [sym r] _. unfold item_cost. simpl.
  destruct (mark_fold_same_book bar (positions s) (heap s)) as [Hlen Hsb].
  destruct (heap s !! r) as [pos|] eqn:E.
  - destruct (Hsb r pos E) as (pos' & -> & -> & -> & _). done.
  - apply lookup_ge_None in E. rewrite <- Hlen in E.
    apply lookup_ge_None in E. by rewrite E.
Qed.

(** X4.  At every point of a run, capital plus the cost basis of the open
    positions (Σ entry price × quantity) equals the initial capital plus the
    realized pnl minus the commissions of the executed BUY orders: no money
    appears or leaks through buys, additive buys, partial or full sells. *)
Theorem capital_is_conserved cfg s :
  reachable cfg s ->
  capital s + cost_basis s ==
  initial_capital cfg + total_pnl s - buy_commissions cfg (orders s).
Proof.
  intros Hr. apply reachable_stepwise in Hr.
  induction Hr as [|bar s Hs IH|bar s dn o todo Hs IH Hos
                   |sym sd qty prc ts s _ IH Hq|bar s _ IH]; try exact IH.
  - unfold cost_basis, buy_commissions. simpl. ring.
  - rewrite cost_basis_mark. exact IH.
  - pose proof (stepwise_ok cfg s Hs) as [Hb Hbuys].
    pose proof (stepwise_keys_ok cfg s Hs) as [Hk _].
    pose proof Hb as [Hnd Hlive].
    assert (Ho : o ∈ orders s).
    { rewrite Hos. apply elem_of_app. right. apply elem_of_cons. by left. }
    unfold cost_basis, buy_commissions in *.
    cbn [capital heap positions orders total_pnl set_orders].
    rewrite Hos in IH.
    rewrite (Qsum_middle (buy_commission cfg) dn o
               (execute_order cfg bar o s).1 todo).
    rewrite execute_order_fst, buy_commission_settle.
    set (bc := Qsum (buy_commission cfg <$> dn ++ o :: todo)) in *.
    set (cb := Qsum (item_cost (heap s) <$> positions s)) in *.
    destruct (fill_cases cfg bar o s Hb)
      as [Hp E|Hp Hsd Hl|r pos Hp Hsd Hl Hh Hq|r pos Hp Hsd Hl Hh Hq|Hp Hsd Hl].
    + rewrite E. cbn [snd]. fold cb.
      assert (Hz : match Order.side o with
                   | BUY => commission_of cfg o
                   | SELL => 0
                   end - buy_commission cfg o == 0).
      { unfold buy_commission.
        destruct (Order.status o); [done| |]; destruct (Order.side o); ring. }
      nra.
    + rewrite (execute_buy_new_state cfg bar o s Hp Hsd Hl).
      cbn [capital heap positions total_pnl].
      unfold buy_commission. rewrite Hp, Hsd.
      rewrite fmap_app, Qsum_app.
      rewrite (Qsum_fmap_ext (item_cost (heap s ++ _)) (item_cost (heap s))).
      * fold cb. rewrite fmap_cons, Qsum_cons. unfold item_cost at 1. cbn [snd].
        rewrite lookup_app_r by lia. rewrite Nat.sub_diag.
        match goal with
        | |- context [ [?p] !! 0%nat ] => change ([p] !! 0%nat) with (Some p)
        end.
        cbn [Position.entry_price Position.quantity].
        rewrite fmap_nil. cbn [Qsum]. nra.
      * intros [k v] Hin. rewrite item_cost_app; [reflexivity|].
        simpl. by eapply book_ok_ref_lt.
    + rewrite (execute_buy_held_state cfg bar o s r pos Hp Hsd Hl Hh).
      cbn [capital heap positions total_pnl].
      unfold buy_commission. rewrite Hp, Hsd.
      rewrite (cost_insert (heap s) (positions s) (Order.symbol o) r pos)
        by (try done; by apply lookup_elem).
      fold cb. cbn [Position.entry_price Position.quantity].
      assert (Hoq : 0 < Order.quantity o) by (by apply Hbuys).
      assert (Hw : (Position.entry_price pos * Position.quantity pos
                    + fill_price_of cfg o * Order.quantity o)
                   / (Position.quantity pos + Order.quantity o)
                   * (Position.quantity pos + Order.quantity o)
                   == Position.entry_price pos * Position.quantity pos
                      + fill_price_of cfg o * Order.quantity o).
      { field. lra. }
      rewrite Hw. nra.
    + rewrite (execute_sell_held_state cfg bar o s r pos Hp Hsd Hl Hh).
      cbn [capital heap positions total_pnl].
      unfold buy_commission. rewrite Hp, Hsd.
      set (closed := py_min (Order.quantity o) (Position.quantity pos)) in *.
      pose proof (py_min_le_r (Order.quantity o) (Position.quantity pos)) as Hcl.
      fold closed in Hcl.
      pose proof (lookup_elem _ _ _ Hl) as Hel.
      destruct (Qle_bool (Position.quantity pos - closed) 0) eqn:Ez.
      * apply Qle_bool_iff in Ez.
        assert (Hc : closed == Position.quantity pos) by nra.
        rewrite cost_insert_absent.
        -- rewrite (cost_remove_key (heap s) (positions s) (Order.symbol o) r)
             by done.
           fold cb. unfold item_cost. cbn [snd]. rewrite Hh.
           rewrite Hc. nra.
        -- intros Hin. apply list_elem_of_fmap in Hin as [[k v] [Hv Hin]].
           simpl in Hv. subst v.
           apply elem_remove_key in Hin as [Hin Hne]. simpl in Hne.
           apply Hne. eapply NoDup_refs_inj; eauto.
      * rewrite (cost_insert (heap s) (positions s) (Order.symbol o) r pos)
          by done.
        fold cb. cbn [Position.entry_price Position.quantity].
        nra.
    + rewrite (execute_sell_ghost_state cfg bar o s Hp Hsd Hl).
      cbn [capital heap positions total_pnl]. fold cb.
      unfold buy_commission. rewrite Hp, Hsd. nra.
  - unfold cost_basis, buy_commissions in *.
    cbn [capital heap positions total_pnl orders _place_order set_orders].
    rewrite fmap_app, Qsum_app. unfold buy_commission at 2. simpl.
    nra.
Qed.

(** The conservation after the oversell on [rising_more]. *)
Lemma capital_is_conserved_witness :
  let s := state_after default_config buy_then_oversell rising_more 4 in
  reachable default_config s /\
  capital s + cost_basis s ==
  initial_capital default_config + total_pnl s
  - buy_commissions default_config (orders s).
Proof.
  intros s.
  assert (Hr : reachable default_config s) by apply state_after_reachable.
  split; [exact Hr|].
  exact (capital_is_conserved default_config s Hr).
Defined.

(** ** Orders are executed once *)

Lemma execute_loop_settled cfg bar os s :
  Forall (fun o => Order.status o <> PENDING) os ->
  execute_loop cfg bar os s = (os, s).
Proof.
  induction 1 as [|o os Ho _ IH]; simpl; [done|].
  by rewrite (execute_settled cfg bar o s Ho), IH.
Qed.

Lemma _execute_orders_settled cfg bar s :
  Forall (fun o => Order.status o <> PENDING) (orders s) ->
  _execute_orders cfg bar s = s.
Proof.
  intros H. unfold _execute_orders. rewrite execute_loop_settled by done.
  apply set_orders_id.
Qed.

Lemma _execute_orders_all_settled cfg bar s :
  Forall (fun o => Order.status o <> PENDING) (orders (_execute_orders cfg bar s)).
Proof.
  rewrite _execute_orders_orders. apply Forall_fmap, Forall_forall.
  intros o _. apply settle_not_pending.
Qed.

(** X5.  One pass of [_execute_orders] leaves no order pending and keeps the
    number of orders; a second pass, on whatever bar, changes nothing: an
    order is processed once and never again. *)
Theorem orders_are_executed_once cfg bar bar' s :
  Forall (fun o => Order.status o <> PENDING) (orders (_execute_orders cfg bar s)) /\
  length (orders (_execute_orders cfg bar s)) = length (orders s) /\
  _execute_orders cfg bar' (_execute_orders cfg bar s) = _execute_orders cfg bar s.
Proof.
  split; [apply _execute_orders_all_settled|]. split.
  - by rewrite _execute_orders_orders, length_fmap.
  - apply _execute_orders_settled, _execute_orders_all_settled.
Qed.

(** ** Orders keep their place and their request *)

Lemma orders_kept_refl cfg s : orders_kept cfg s s.
Proof. intros j o H. exists o. split; [done | by left]. Qed.

Lemma orders_kept_trans cfg s1 s2 s3 :
  orders_kept cfg s1 s2 -> orders_kept cfg s2 s3 -> orders_kept cfg s1 s3.
Proof.
  intros H12 H23 j o H1.
  destruct (H12 j o H1) as (o2 & E2 & C2).
  destruct (H23 j o2 E2) as (o3 & E3 & C3).
  exists o3. split; [done|].
  destruct C2 as [->|[Hp [bar ->]]]; [done|].
  destruct C3 as [->|[Hp' _]]; [|by simpl in Hp'].
  right. split; [done|]. by exists bar.
Qed.

Lemma orders_kept_settle_app cfg bar s s' new :
  orders s' = (settle cfg bar <$> orders s) ++ new -> orders_kept cfg s s'.
Proof.
  intros E j o H. exists (settle cfg bar o). split.
  - rewrite E.
    rewrite lookup_app_l by (rewrite length_fmap; by eapply lookup_lt_Some).
    by rewrite list_lookup_fmap, H.
  - unfold settle. destruct (Order.status o) eqn:Hp; [|by left|by left].
    right. split; [done|]. by exists bar.
Qed.

Lemma process_bar_orders_kept cfg strategy data i bar s :
  orders_kept cfg s (process_bar cfg strategy data i bar s).
Proof.
  destruct (process_bar_orders cfg strategy data i bar s) as (new & E & _).
  by eapply orders_kept_settle_app.
Qed.

Lemma run_bars_orders_kept cfg strategy data i rest s :
  orders_kept cfg s (run_bars cfg strategy data i rest s).
Proof.
  revert i s. induction rest as [|bar rest IH]; intros i s; simpl.
  - apply orders_kept_refl.
  - eapply orders_kept_trans; [apply process_bar_orders_kept | apply IH].
Qed.

Lemma close_fold_orders_kept cfg bar ts items s :
  orders_kept cfg s (fold_left (close_position cfg bar ts) items s).
Proof.
  revert s. induction items as [|item items IH]; intros s; simpl.
  - apply orders_kept_refl.
  - eapply orders_kept_trans; [|apply IH].
    destruct (close_position_orders cfg bar ts s item) as [->|(sym & q & p & E)].
    + apply orders_kept_refl.
    + rewrite fmap_app in E. by eapply orders_kept_settle_app.
Qed.

Lemma state_after_le cfg strategy data k k' :
  (k <= k')%nat ->
  exists i rest,
    state_after cfg strategy data k' =
    run_bars cfg strategy data i rest (state_after cfg strategy data k).
Proof.
  intros Hle. unfold state_after.
  replace k' with (k + (k' - k))%nat by lia.
  rewrite <- take_take_drop, run_bars_app. eauto.
Qed.

Lemma run_backtest_from cfg strategy data k final :
  run_backtest cfg strategy data = Some final ->
  exists i rest bar ts,
    final = _close_all_positions cfg bar ts
              (run_bars cfg strategy data i rest (state_after cfg strategy data k)).
Proof.
  unfold run_backtest. destruct (last data) as [fb|]; [|discriminate].
  intros [= <-].
  destruct (state_after_le cfg strategy data k (k + length data)) as (i & rest & E);
    [lia|].
  exists i, rest, fb, (Bar.name fb). f_equal. rewrite <- E.
  unfold state_after. by rewrite take_ge by lia.
Qed.

(** X6.  Along a run the order list only grows at its end: an order that is
    in the list after k bars is at the same index after any later bar and in
    the final state, either untouched or, if it was pending, filled; its
    symbol, side, quantity, price and placement timestamp never change, and
    an order that is no longer pending never changes at all. *)
Theorem orders_keep_their_request cfg strategy data k k' j o :
  (k <= k')%nat ->
  orders (state_after cfg strategy data k) !! j = Some o ->
  (exists o', orders (state_after cfg strategy data k') !! j = Some o' /\
              same_request o o' /\
              (Order.status o <> PENDING -> o' = o)) /\
  (forall final, run_backtest cfg strategy data = Some final ->
     exists o', orders final !! j = Some o' /\ same_request o o' /\
                (Order.status o <> PENDING -> o' = o)).
Proof.
  intros Hle Ho.
  assert (Hkept : forall s', orders_kept cfg (state_after cfg strategy data k) s' ->
            exists o', orders s' !! j = Some o' /\ same_request o o' /\
                       (Order.status o <> PENDING -> o' = o)).
  { intros s' Hk. destruct (Hk j o Ho) as (o' & E & C). exists o'.
    split; [done|]. destruct C as [->|[Hp [bar ->]]].
    - split; [by repeat split | done].
    - split; [by repeat split | congruence]. }
  split.
  - apply Hkept. destruct (state_after_le cfg strategy data k k' Hle)
      as (i & rest & ->). apply run_bars_orders_kept.
  - intros final Hrun. apply Hkept.
    destruct (run_backtest_from cfg strategy data k final Hrun)
      as (i & rest & bar & ts & ->).
    eapply orders_kept_trans; [apply run_bars_orders_kept|].
    apply close_fold_orders_kept.
Qed.

(** The BUY queued on the second bar of [rising], one bar later. *)
Lemma orders_keep_their_request_witness :
  let o := Order.mk "X" BUY (default_config.(initial_capital)
                             * default_config.(max_position_size) / 100)
                    100 1 PENDING None None in
  (2 <= 3)%nat /\
  orders (state_after default_config buy_then_sell rising 2) !! 0%nat = Some o /\
  exists o', orders (state_after default_config buy_then_sell rising 3) !! 0%nat
             = Some o' /\ Order.quantity o' = Order.quantity o.
Proof.
  intros o.
  assert (Hle : (2 <= 3)%nat) by lia.
  assert (Ho : orders (state_after default_config buy_then_sell rising 2) !! 0%nat
               = Some o) by reflexivity.
  split; [exact Hle|]. split; [exact Ho|].
  destruct (proj1 (orders_keep_their_request default_config buy_then_sell rising
                     2 3 0 o Hle Ho)) as (o' & E & (_ & _ & Hq & _) & _).
  by exists o'.
Defined.

(** ** The signal interpreter *)

(** X7.  [_process_signal] either leaves the engine as it is or appends one
    order, Pending, of strictly positive quantity, for the signal's symbol,
    at the given timestamp and at the bar's price of the symbol (0 when the
    bar has none), a BUY for a buy signal and a SELL for a sell signal.  It
    leaves the engine as it is for any other action, for a buy of a symbol
    the bar does not price, and for a sell of a symbol without a Position;
    it never touches capital, positions or trades. *)
Theorem signal_queues_at_most_one_order cfg signal bar ts s :
  let s' := _process_signal cfg signal bar ts s in
  let sym := Signal.symbol signal in
  (s' = s \/
   exists sd q,
     s' = _place_order sym sd q (bar_get sym bar) ts s /\ 0 < q /\
     ((sd = BUY /\ Signal.action signal = "buy"%string /\
       bar_has sym bar = true) \/
      (sd = SELL /\ Signal.action signal = "sell"%string /\
       exists r, lookup sym (positions s) = Some r))) /\
  (Signal.action signal <> "buy"%string ->
   Signal.action signal <> "sell"%string -> s' = s) /\
  (Signal.action signal = "buy"%string -> bar_has sym bar = false -> s' = s) /\
  (Signal.action signal = "sell"%string ->
   lookup sym (positions s) = None -> s' = s) /\
  capital s' = capital s /\ positions s' = positions s /\ heap s' = heap s /\
  trades s' = trades s.
Proof.
  intros s' sym.
  assert (Hframe : only_orders s s') by apply _process_signal_only_orders.
  split; [|split; [|split; [|split]]].
  - unfold s', _process_signal. fold sym.
    destruct (String.eqb_spec (Signal.action signal) "buy") as [Ha|Ha].
    + destruct (Qeq_bool (bar_get sym bar) 0) eqn:Ez; [by left|].
      destruct (Qlt_bool 0 _) eqn:Eq; [|by left].
      right. eexists BUY, _. split; [reflexivity|].
      split; [by apply Qlt_bool_iff|]. left. split; [done|]. split; [done|].
      unfold bar_has. unfold bar_get in Ez.
      destruct (lookup sym (Bar.row bar)); [done|]. by vm_compute in Ez.
    + destruct (String.eqb_spec (Signal.action signal) "sell") as [Hb|Hb];
        [|by left].
      destruct (lookup sym (positions s)) as [r|] eqn:El; [|by left].
      destruct (heap s !! r); [|by left].
      destruct (Qlt_bool 0 _) eqn:Eq; [|by left].
      right. eexists SELL, _. split; [reflexivity|].
      split; [by apply Qlt_bool_iff|]. right. split; [done|]. split; [done|].
      by exists r.
  - intros Ha Hb. unfold s', _process_signal.
    apply String.eqb_neq in Ha, Hb. by rewrite Ha, Hb.
  - intros Ha Hno. unfold s', _process_signal. rewrite Ha. simpl.
    fold sym. unfold bar_get. apply bar_has_false in Hno. by rewrite Hno.
  - intros Ha Hno. unfold s', _process_signal. rewrite Ha. simpl.
    fold sym. by rewrite Hno.
  - rewrite Hframe. by repeat split.
Qed.

(** X8.  The quantity of a BUY queued by [_process_signal] never exceeds
    capital × max_position_size / price, whatever quantity the signal asks
    for; at a positive price its notional quantity × price is at most
    capital × max_position_size.  Without an explicit quantity it is exactly
    that maximum. *)
Theorem signal_buy_is_capped cfg signal bar ts s :
  Signal.action signal = "buy"%string ->
  let sym := Signal.symbol signal in
  let price := bar_get sym bar in
  let max_quantity := capital s * max_position_size cfg / price in
  let asked := match Signal.quantity signal with
               | Some q => q
               | None => max_quantity
               end in
  let q := py_min asked max_quantity in
  ~ price == 0 -> 0 < q ->
  _process_signal cfg signal bar ts s = _place_order sym BUY q price ts s /\
  q <= max_quantity /\ q <= asked /\
  (Signal.quantity signal = None -> q = max_quantity) /\
  (0 < price -> q * price <= capital s * max_position_size cfg).
Proof.
  intros Ha sym price max_quantity asked q Hp Hq.
  split; [|split; [|split; [|split]]].
  - unfold _process_signal. rewrite Ha. simpl. fold sym. fold price.
    destruct (Qeq_bool price 0) eqn:Ez; [by apply Qeq_bool_iff in Ez|].
    fold max_quantity. fold asked. fold q.
    apply Qlt_bool_iff in Hq. by rewrite Hq.
  - apply py_min_le_r.
  - unfold q, py_min. destruct (Qlt_bool max_quantity asked) eqn:E.
    + apply Qlt_bool_iff in E. lra.
    + lra.
  - intros Hn. unfold q, asked. rewrite Hn. unfold py_min.
    by destruct (Qlt_bool max_quantity max_quantity).
  - intros Hpos.
    assert (Hle : q <= max_quantity) by apply py_min_le_r.
    assert (Hm : max_quantity * price == capital s * max_position_size cfg).
    { unfold max_quantity. field. lra. }
    rewrite <- Hm. apply Qmult_le_compat_r; lra.
Qed.

(** A buy signal for 500 units of X at 100 out of a capital of 100,000 is
    cut down to 200 units. *)
Lemma signal_buy_is_capped_witness :
  let signal := Signal.mk "X" "buy" (Some 500) in
  let s := _reset default_config in
  ~ bar_get "X" (one_symbol 1 100) == 0 /\
  exists o, orders (_process_signal default_config signal (one_symbol 1 100) 1 s)
            = [o] /\ Order.quantity o * 100 <= 20000.
Proof.
  intros signal s.
  assert (Hp : ~ bar_get "X" (one_symbol 1 100) == 0) by by_computation.
  split; [exact Hp|].
  destruct (signal_buy_is_capped default_config signal (one_symbol 1 100) 1 s
              eq_refl Hp) as (E & _ & _ & _ & Hcap).
  { by_computation. }
  eexists. split; [rewrite E; reflexivity|].
  simpl Order.quantity.
  eapply Qle_trans; [apply Hcap; by_computation|]. by_computation.
Defined.

(** ** Slippage and commission *)

(** X9.  With a non-negative requested price and non-negative slippage_bps,
    the fill price of a BUY is never below the requested price and that of a
    SELL never above it; in limit mode they are equal.  The commission is
    never negative, and the slippage cost added to the run total is
    price × slippage_bps/10000 × |quantity| in market mode. *)
Theorem slippage_is_adverse cfg o :
  0 <= Order.price o -> 0 <= slippage_bps cfg ->
  (Order.side o = BUY -> Order.price o <= fill_price_of cfg o) /\
  (Order.side o = SELL -> fill_price_of cfg o <= Order.price o) /\
  (use_market_orders cfg = false -> fill_price_of cfg o = Order.price o) /\
  0 <= commission_of cfg o /\
  (use_market_orders cfg = true ->
   Qabs (fill_price_of cfg o - Order.price o) * Qabs (Order.quantity o) ==
   Order.price o * (slippage_bps cfg / 10000) * Qabs (Order.quantity o)).
Proof.
  intros Hp Hb.
  assert (Hs : 0 <= slippage_bps cfg / 10000).
  { unfold Qdiv. apply Qmult_le_0_compat; [done | by_computation]. }
  assert (Hps : 0 <= Order.price o * (slippage_bps cfg / 10000))
    by (by apply Qmult_le_0_compat).
  unfold fill_price_of, commission_of.
  split; [|split; [|split; [|split]]].
  - intros ->. destruct (use_market_orders cfg); [|lra].
    cbv zeta. ring_simplify. lra.
  - intros ->. destruct (use_market_orders cfg); [|lra].
    cbv zeta. ring_simplify. lra.
  - by intros ->.
  - apply Qabs_nonneg.
  - intros ->. cbv zeta. destruct (Order.side o).
    + assert (E : Order.price o * (1 + slippage_bps cfg / 10000) - Order.price o
                  == Order.price o * (slippage_bps cfg / 10000)) by ring.
      rewrite E. by rewrite (Qabs_pos _ Hps).
    + assert (E : Order.price o * (1 - slippage_bps cfg / 10000) - Order.price o
                  == - (Order.price o * (slippage_bps cfg / 10000))) by ring.
      rewrite E, Qabs_opp. by rewrite (Qabs_pos _ Hps).
Qed.

(** A BUY at 100 with the default 5 basis points fills at 100.05. *)
Lemma slippage_is_adverse_witness :
  0 <= Order.price (buy_at 200 100 1) /\ 0 <= slippage_bps default_config /\
  Order.price (buy_at 200 100 1) <= fill_price_of default_config (buy_at 200 100 1).
Proof.
  assert (Hp : 0 <= Order.price (buy_at 200 100 1)) by by_computation.
  assert (Hb : 0 <= slippage_bps default_config) by by_computation.
  split; [exact Hp|]. split; [exact Hb|].
  exact (proj1 (slippage_is_adverse default_config (buy_at 200 100 1) Hp Hb)
               eq_refl).
Defined.

(** ** The risk overlay *)

Lemma risk_check_orders cfg bar s item :
  risk_check cfg bar s item =
  set_orders (orders s ++ risk_orders cfg bar (heap s) item) s.
Proof.
  destruct item as [sym r]. unfold risk_check, risk_orders. cbn [fst snd].
  destruct (lookup sym (Bar.row bar)) as [p|];
    [|by rewrite app_nil_r, set_orders_id].
  destruct (heap s !! r) as [pos|]; [|by rewrite app_nil_r, set_orders_id].
  cbv zeta.
  destruct (stop_loss_pct cfg) as [sl|], (take_profit_pct cfg) as [tp|];
    repeat destruct (PrimFloat.leb _ _);
    unfold _place_order; cbn [orders set_orders];
    rewrite ?app_nil_r, ?set_orders_id, <- ?app_assoc; reflexivity.
Qed.

Lemma risk_fold_orders cfg bar items s :
  fold_left (risk_check cfg bar) items s =
  set_orders (orders s ++ flat_map (risk_orders cfg bar (heap s)) items) s.
Proof.
  revert s. induction items as [|item items IH]; intros s; simpl.
  - by rewrite app_nil_r, set_orders_id.
  - rewrite IH, risk_check_orders. cbn [orders heap set_orders].
    by rewrite <- app_assoc.
Qed.

(** X10.  When a stop loss or a take profit is configured,
    [_check_risk_management] appends, position by position in dictionary
    order, a full-quantity SELL at the bar's price for each breached stop
    loss and one for each reached take profit, and nothing else.  The
    return is computed and compared in binary64 as in the code
    ([return_pct_of]): every position for which the code's test succeeds
    queues its order, every queued order comes from such a position, and
    the ledger is left as it is. *)
Theorem risk_overlay_queues_breaches cfg bar s :
  (stop_loss_pct cfg <> None \/ take_profit_pct cfg <> None) ->
  let s' := _check_risk_management cfg bar s in
  let return_pct := fun p pos => return_pct_of p (Position.entry_price pos) in
  let protective := fun sym p pos =>
    Order.mk sym SELL (Position.quantity pos) p (Bar.name bar) PENDING None None in
  s' = set_orders
         (orders s ++ flat_map (risk_orders cfg bar (heap s)) (positions s)) s /\
  (forall sym r pos p sl,
     (sym, r) ∈ positions s -> heap s !! r = Some pos ->
     lookup sym (Bar.row bar) = Some p -> stop_loss_pct cfg = Some sl ->
     PrimFloat.leb (return_pct p pos) (- binary64 sl)%float = true ->
     protective sym p pos ∈ orders s') /\
  (forall sym r pos p tp,
     (sym, r) ∈ positions s -> heap s !! r = Some pos ->
     lookup sym (Bar.row bar) = Some p -> take_profit_pct cfg = Some tp ->
     PrimFloat.leb (binary64 tp) (return_pct p pos) = true ->
     protective sym p pos ∈ orders s') /\
  (forall j o, (length (orders s) <= j)%nat -> orders s' !! j = Some o ->
     exists sym r pos p,
       (sym, r) ∈ positions s /\ heap s !! r = Some pos /\
       lookup sym (Bar.row bar) = Some p /\ o = protective sym p pos /\
       ((exists sl, stop_loss_pct cfg = Some sl /\
                    PrimFloat.leb (return_pct p pos) (- binary64 sl)%float = true) \/
        (exists tp, take_profit_pct cfg = Some tp /\
                    PrimFloat.leb (binary64 tp) (return_pct p pos) = true))).
Proof.
  intros Hcfg s' return_pct protective.
  assert (E : s' = set_orders
                (orders s ++ flat_map (risk_orders cfg bar (heap s)) (positions s)) s).
  { unfold s', _check_risk_management.
    destruct (stop_loss_pct cfg) eqn:E1, (take_profit_pct cfg) eqn:E2;
      try apply risk_fold_orders.
    by destruct Hcfg. }
  split; [exact E|]. rewrite E. cbn [orders set_orders].
  split; [|split].
  - intros sym r pos p sl Hin Hh Hp Hsl Hbreach.
    apply elem_of_app. right. apply list_elem_of_In, in_flat_map.
    exists (sym, r). split; [by apply list_elem_of_In|].
    unfold risk_orders. cbn [fst snd]. rewrite Hp, Hh, Hsl. cbv zeta.
    fold (return_pct p pos). rewrite Hbreach.
    apply in_or_app. left. by left.
  - intros sym r pos p tp Hin Hh Hp Htp Hbreach.
    apply elem_of_app. right. apply list_elem_of_In, in_flat_map.
    exists (sym, r). split; [by apply list_elem_of_In|].
    unfold risk_orders. cbn [fst snd]. rewrite Hp, Hh, Htp. cbv zeta.
    fold (return_pct p pos). rewrite Hbreach.
    apply in_or_app. right. by left.
  - intros j o Hj Ho. rewrite lookup_app_r in Ho by done.
    assert (Hin : In o (flat_map (risk_orders cfg bar (heap s)) (positions s))).
    { apply list_elem_of_In, list_elem_of_lookup. eauto. }
    apply in_flat_map in Hin as ([sym r] & Hitem & Hin).
    apply list_elem_of_In in Hitem.
    unfold risk_orders in Hin. cbn [fst snd] in Hin.
    destruct (lookup sym (Bar.row bar)) as [p|] eqn:Hp; [|done].
    destruct (heap s !! r) as [pos|] eqn:Hh; [|done].
    cbv zeta in Hin. fold (return_pct p pos) in Hin.
    fold (protective sym p pos) in Hin.
    exists sym, r, pos, p. split; [done|]. split; [done|]. split; [done|].
    apply in_app_or in Hin as [Hin|Hin].
    + destruct (stop_loss_pct cfg) as [sl|]; [|done].
      destruct (PrimFloat.leb _ _) eqn:Eb; [|done].
      destruct Hin as [<-|[]]. split; [done|]. left. by exists sl.
    + destruct (take_profit_pct cfg) as [tp|]; [|done].
      destruct (PrimFloat.leb _ _) eqn:Eb; [|done].
      destruct Hin as [<-|[]]. split; [done|]. right. by exists tp.
Qed.

(** The scenario of the specification: a stop loss of 5%, 200 units entered
    at 100, a bar at 94. *)
Lemma risk_overlay_queues_breaches_witness :
  (stop_loss_pct guarded_config <> None \/ take_profit_pct guarded_config <> None) /\
  orders (_check_risk_management guarded_config (one_symbol 12 94) holding_200)
  = [Order.mk "X" SELL 200 94 12 PENDING None None].
Proof.
  assert (Hcfg : stop_loss_pct guarded_config <> None
                 \/ take_profit_pct guarded_config <> None) by (by left).
  split; [exact Hcfg|].
  rewrite (proj1 (risk_overlay_queues_breaches guarded_config (one_symbol 12 94)
                    holding_200 Hcfg)).
  reflexivity.
Defined.

(** From an entry at 100 a bar at 115 is a return of 14.999999999999991 in
    binary64: a take profit of 15% is not reached, and the overlay queues
    nothing; a bar at 116 reaches it. *)
Example take_profit_is_tested_in_binary64 :
  PrimFloat.ltb (return_pct_of 115 100) 15 = true /\
  orders (_check_risk_management take_profit_15 (one_symbol 12 115) holding_200)
  = [] /\
  orders (_check_risk_management take_profit_15 (one_symbol 12 116) holding_200)
  = [Order.mk "X" SELL 200 116 12 PENDING None None].
Proof.
  repeat split; vm_compute; reflexivity.
Qed.

(** Over an entry price of 0 the return of a positive price is infinite:
    the take profit is reached, a stop loss is not. *)
Example return_over_zero_entry_price :
  return_pct_of 115 0 = infinity /\
  orders (_check_risk_management take_profit_15 (one_symbol 12 115)
            holding_free_200)
  = [Order.mk "X" SELL 200 115 12 PENDING None None] /\
  orders (_check_risk_management guarded_config (one_symbol 12 115)
            holding_free_200)
  = [Order.mk "X" SELL 200 115 12 PENDING None None].
Proof.
  repeat split; vm_compute; reflexivity.
Qed.

(** ** Marking *)

Lemma mark_fold_exact bar items h sym r p pos :
  NoDup items.*2 -> (sym, r) ∈ items -> lookup sym (Bar.row bar) = Some p ->
  h !! r = Some pos ->
  fold_left (mark_position bar) items h !! r =
  Some (Position.mk (Position.symbol pos) (Position.quantity pos)
                    (Position.entry_price pos) (Position.entry_timestamp pos) p
                    ((p - Position.entry_price pos) * Position.quantity pos)).
Proof.
  revert h pos. induction items as [|[k v] items IH]; intros h pos Hnd Hin Hp Hh.
  - by apply elem_of_nil in Hin.
  - rewrite fmap_cons in Hnd. apply NoDup_cons in Hnd as [Hni Hnd].
    apply elem_of_cons in Hin as [Heq|Hin].
    + injection Heq as <- <-. simpl. rewrite Hp, Hh.
      rewrite mark_fold_untouched.
      * apply list_lookup_insert_eq. by eapply lookup_lt_Some.
      * intros k Hk. exfalso. apply Hni. apply list_elem_of_fmap.
        by exists (k, r).
    + change (fold_left (mark_position bar) ((k, v) :: items) h)
        with (fold_left (mark_position bar) items (mark_position bar h (k, v))).
      apply IH; try done.
      assert (Hne : v <> r).
      { intros ->. apply Hni. apply list_elem_of_fmap. by exists (sym, r). }
      unfold mark_position.
      destruct (lookup k (Bar.row bar)); [|done].
      destruct (h !! v); [|done]. by rewrite list_lookup_insert_ne.
Qed.

(** X11.  [_update_positions] gives every Position whose symbol the bar
    prices that price as current price and (price − entry price) × quantity
    as unrealized pnl, and changes nothing else: quantity, entry price and
    entry timestamp of every Position, the dictionary, the capital, the
    orders and the trades are as before. *)
Theorem marking_reprices cfg s bar :
  reachable cfg s ->
  let s' := _update_positions bar s in
  (forall sym r pos p,
     (sym, r) ∈ positions s -> heap s !! r = Some pos ->
     lookup sym (Bar.row bar) = Some p ->
     heap s' !! r =
     Some (Position.mk (Position.symbol pos) (Position.quantity pos)
                       (Position.entry_price pos) (Position.entry_timestamp pos)
                       p ((p - Position.entry_price pos) * Position.quantity pos))) /\
  same_book (heap s) (heap s') /\
  s' = set_heap (heap s') s.
Proof.
  intros Hr s'. destruct (reachable_ok cfg s Hr) as [[Hnd _] _].
  split; [|split].
  - intros sym r pos p Hin Hh Hp. simpl. by eapply mark_fold_exact.
  - apply mark_fold_same_book.
  - reflexivity.
Qed.

(** The Position held after three bars of [rising], marked by a bar at 120. *)
Lemma marking_reprices_witness :
  let s := state_after default_config buy_once rising 3 in
  reachable default_config s /\
  exists pos, heap (_update_positions (one_symbol 3 120) s) !! 0%nat = Some pos /\
              Position.current_price pos = 120.
Proof.
  intros s.
  assert (Hr : reachable default_config s) by apply state_after_reachable.
  split; [exact Hr|].
  destruct (heap s !! 0%nat) as [pos|] eqn:Hh; [|by vm_compute in Hh].
  eexists. split.
  - apply (proj1 (marking_reprices default_config s (one_symbol 3 120) Hr)
             "X"%string 0%nat pos 120); [|exact Hh|reflexivity].
    vm_compute. apply elem_of_cons. by left.
  - reflexivity.
Defined.

(** ** A round trip *)

Lemma remove_key_snoc {A} k v (d : list (string * A)) :
  k ∉ d.*1 -> remove_key k (d ++ [(k, v)]) = d.
Proof.
  induction d as [|[k' v'] d IH]; simpl.
  - intros _. by rewrite String.eqb_refl.
  - intros Hni. destruct (String.eqb_spec k k') as [->|Hne].
    + exfalso. apply Hni. apply elem_of_cons. by left.
    + rewrite IH; [done|]. intros H. apply Hni. apply elem_of_cons. by right.
Qed.

(** X12.  Buying a quantity of a symbol that has no Position and selling the
    same quantity back restores the position dictionary; one trade is
    recorded, with pnl (sell fill − buy fill) × quantity − sell commission,
    and the capital changes by (sell fill − buy fill) × quantity minus both
    commissions.  When both orders ask the same non-negative price and
    slippage_bps is non-negative, the capital lost is exactly what the two
    fills added to total_commission and total_slippage. *)
Theorem round_trip_costs cfg b1 b2 ob os s :
  Order.status ob = PENDING -> Order.side ob = BUY ->
  Order.status os = PENDING -> Order.side os = SELL ->
  Order.symbol os = Order.symbol ob ->
  Order.quantity os = Order.quantity ob -> 0 < Order.quantity ob ->
  lookup (Order.symbol ob) (positions s) = None ->
  let q := Order.quantity ob in
  let fb := fill_price_of cfg ob in
  let fs := fill_price_of cfg os in
  let s1 := (execute_order cfg b1 ob s).2 in
  let s2 := (execute_order cfg b2 os s1).2 in
  positions s2 = positions s /\
  (exists t, trades s2 = trades s ++ [t] /\ Trade.quantity t = q /\
             Trade.entry_price t = fb /\ Trade.exit_price t = fs /\
             Trade.pnl t = (fs - fb) * q - commission_of cfg os) /\
  capital s2 == capital s + (fs - fb) * q
                - commission_of cfg ob - commission_of cfg os /\
  (Order.price os = Order.price ob -> 0 <= Order.price ob ->
   0 <= slippage_bps cfg ->
   capital s - capital s2 ==
   (total_commission s2 - total_commission s)
   + (total_slippage s2 - total_slippage s)).
Proof.
  intros Hpb Hsb Hps Hss Hsym Hqty Hq Hl q fb fs s1 s2.
  pose proof (execute_buy_new_state cfg b1 ob s Hpb Hsb Hl) as E1.
  fold s1 in E1.
  assert (Hl1 : lookup (Order.symbol os) (positions s1) = Some (length (heap s))).
  { rewrite E1, Hsym. simpl. by apply lookup_snoc_new. }
  assert (Hh1 : heap s1 !! length (heap s) =
                Some (Position.mk (Order.symbol ob) q fb (Bar.name b1) fb 0)).
  { rewrite E1. simpl. rewrite lookup_app_r by lia. by rewrite Nat.sub_diag. }
  pose proof (execute_sell_held_state cfg b2 os s1 _ _ Hps Hss Hl1 Hh1) as E2.
  fold s2 in E2. cbv zeta in E2. cbn [Position.quantity Position.entry_price] in E2.
  rewrite Hqty in E2. fold q in E2. fold fs in E2.
  assert (Hmin : py_min q q = q).
  { unfold py_min. destruct (Qlt_bool q q) eqn:E; [|done]. done. }
  rewrite Hmin in E2.
  assert (Hz : Qle_bool (q - q) 0 = true) by (apply Qle_bool_iff; lra).
  rewrite Hz in E2.
  split; [|split; [|split]].
  - rewrite E2. cbn [positions]. rewrite E1. cbn [positions]. rewrite Hsym.
    apply remove_key_snoc. by apply lookup_None_keys.
  - eexists. split; [rewrite E2; cbn [trades]; rewrite E1; reflexivity|].
    by repeat split.
  - rewrite E2. cbn [capital]. rewrite E1. cbn [capital]. fold q fb. ring.
  - intros Hprice Hp Hb.
    rewrite E2. cbn [capital total_commission total_slippage].
    rewrite E1. cbn [capital total_commission total_slippage].
    assert (Hs : 0 <= slippage_bps cfg / 10000).
    { unfold Qdiv. apply Qmult_le_0_compat; [done | by_computation]. }
    assert (Hps' : 0 <= Order.price ob * (slippage_bps cfg / 10000))
      by (by apply Qmult_le_0_compat).
    assert (Hqa : Qabs (Order.quantity ob) == Order.quantity ob)
      by (apply Qabs_pos; lra).
    assert (Hfb : Qabs (fill_price_of cfg ob - Order.price ob)
                  == fill_price_of cfg ob - Order.price ob).
    { apply Qabs_pos. unfold fill_price_of. rewrite Hsb.
      destruct (use_market_orders cfg); cbv zeta; lra. }
    assert (Hfs : Qabs (fill_price_of cfg os - Order.price os)
                  == Order.price os - fill_price_of cfg os).
    { rewrite <- Qabs_opp. rewrite Qabs_pos; [ring|].
      unfold fill_price_of. rewrite Hss, Hprice.
      destruct (use_market_orders cfg); cbv zeta; lra. }
    subst q fb fs.
    rewrite Hqa, Hfb, Hfs, Hprice. ring.
Qed.

(** 200 units of X bought and sold back at 100 with the defaults. *)
Lemma round_trip_costs_witness :
  let ob := buy_at 200 100 1 in
  let os := Order.mk "X" SELL 200 100 2 PENDING None None in
  let s := _reset default_config in
  let s2 := (execute_order default_config (one_symbol 3 100) os
               (execute_order default_config (one_symbol 2 100) ob s).2).2 in
  0 < Order.quantity ob /\ lookup "X" (positions s) = None /\
  0 <= Order.price ob /\ 0 <= slippage_bps default_config /\
  positions s2 = [] /\
  capital s - capital s2 ==
  total_commission s2 - total_commission s + (total_slippage s2 - total_slippage s).
Proof.
  intros ob os s s2.
  assert (Hq : 0 < Order.quantity ob) by by_computation.
  assert (Hp : 0 <= Order.price ob) by by_computation.
  assert (Hb : 0 <= slippage_bps default_config) by by_computation.
  destruct (round_trip_costs default_config (one_symbol 2 100) (one_symbol 3 100)
              ob os s eq_refl eq_refl eq_refl eq_refl eq_refl eq_refl Hq eq_refl)
    as (Hpos & _ & _ & Hcost).
  split; [exact Hq|]. split; [reflexivity|]. split; [exact Hp|].
  split; [exact Hb|]. split; [exact Hpos|].
  exact (Hcost eq_refl Hp Hb).
Defined.

(** ** The equity curve of a run *)

Lemma execute_order_curve cfg bar o s :
  equity_curve (execute_order cfg bar o s).2 = equity_curve s /\
  timestamps (execute_order cfg bar o s).2 = timestamps s.
Proof.
  unfold execute_order. destruct (Order.status o); try done.
  destruct (Order.side o); simpl.
  - unfold buy_update. simpl.
    destruct (lookup _ _); [destruct (_ !! _)|]; done.
  - unfold sell_update. simpl.
    destruct (lookup _ _); [destruct (_ !! _)|]; try done.
    cbv zeta. by destruct (Qle_bool _ _).
Qed.

Lemma execute_loop_curve cfg bar os s :
  equity_curve (execute_loop cfg bar os s).2 = equity_curve s /\
  timestamps (execute_loop cfg bar os s).2 = timestamps s.
Proof.
  revert s. induction os as [|o os IH]; intros s; simpl; [done|].
  destruct (execute_order_curve cfg bar o s) as [E1 E2].
  destruct (execute_order cfg bar o s) as [o' s']. simpl in *.
  destruct (IH s') as [E3 E4].
  destruct (execute_loop cfg bar os s') as [os' s'']. simpl in *.
  split; congruence.
Qed.

Lemma _execute_orders_curve cfg bar s :
  equity_curve (_execute_orders cfg bar s) = equity_curve s /\
  timestamps (_execute_orders cfg bar s) = timestamps s.
Proof.
  rewrite _execute_orders_eq. apply execute_loop_curve.
Qed.

Lemma process_bar_curve cfg strategy data i bar s :
  exists e,
    equity_curve (process_bar cfg strategy data i bar s) = equity_curve s ++ [e] /\
    timestamps (process_bar cfg strategy data i bar s) = timestamps s ++ [Bar.name bar].
Proof.
  unfold process_bar.
  pose proof (queue_orders_only_orders cfg strategy data i bar
                (_execute_orders cfg bar (_update_positions bar s))) as Hq.
  destruct (_execute_orders_curve cfg bar (_update_positions bar s)) as [E1 E2].
  eexists. simpl. rewrite Hq. simpl. rewrite E1, E2. done.
Qed.

Lemma run_bars_curve cfg strategy data i rest s :
  length (equity_curve (run_bars cfg strategy data i rest s))
  = (length (equity_curve s) + length rest)%nat /\
  head (equity_curve (run_bars cfg strategy data i rest s))
  = match equity_curve s with
    | [] => head (equity_curve (run_bars cfg strategy data i rest s))
    | e :: _ => Some e
    end /\
  timestamps (run_bars cfg strategy data i rest s)
  = timestamps s ++ (Bar.name <$> rest).
Proof.
  revert i s. induction rest as [|bar rest IH]; intros i s; simpl.
  - split; [lia|]. split; [by destruct (equity_curve s)|]. by rewrite app_nil_r.
  - destruct (process_bar_curve cfg strategy data i bar s) as (e & E1 & E2).
    destruct (IH (S i) (process_bar cfg strategy data i bar s)) as (L & H & T).
    rewrite L, T, E1, E2. rewrite E1 in H. split; [rewrite length_app; simpl; lia|].
    split; [|by rewrite <- app_assoc].
    destruct (equity_curve s) as [|e0 curve]; [done|]. exact H.
Qed.

Lemma close_fold_curve cfg bar ts items s :
  equity_curve (fold_left (close_position cfg bar ts) items s) = equity_curve s /\
  timestamps (fold_left (close_position cfg bar ts) items s) = timestamps s.
Proof.
  revert s. induction items as [|[sym r] items IH]; intros s; [done|].
  cbn [fold_left].
  destruct (IH (close_position cfg bar ts s (sym, r))) as [E1 E2].
  rewrite E1, E2. unfold close_position.
  destruct (lookup sym (Bar.row bar)) as [q|]; [|done].
  destruct (heap s !! r) as [pos|]; [|done].
  exact (_execute_orders_curve cfg bar
           (_place_order sym SELL (Position.quantity pos) q ts s)).
Qed.

(** X13.  [run_backtest] fails on an empty table and on no other.  After k
    bars the engine has recorded k timestamps, those of the bars in order,
    and k + 1 equity values, the first being the initial capital.  The
    terminal close-all step records nothing: the equity curve and
    timestamps of the final state are those left by the last bar, so the
    last equity value is the one computed before the liquidation fills. *)
Theorem run_records_every_bar cfg strategy data :
  (run_backtest cfg strategy data = None <-> data = []) /\
  (forall k,
     timestamps (state_after cfg strategy data k) = Bar.name <$> take k data /\
     length (equity_curve (state_after cfg strategy data k))
     = S (length (take k data)) /\
     head (equity_curve (state_after cfg strategy data k))
     = Some (initial_capital cfg)) /\
  (forall final, run_backtest cfg strategy data = Some final ->
     timestamps final = Bar.name <$> data /\
     equity_curve final
     = equity_curve (state_after cfg strategy data (length data)) /\
     length (equity_curve final) = S (length data)).
Proof.
  assert (Hk : forall k,
     timestamps (state_after cfg strategy data k) = Bar.name <$> take k data /\
     length (equity_curve (state_after cfg strategy data k))
     = S (length (take k data)) /\
     head (equity_curve (state_after cfg strategy data k))
     = Some (initial_capital cfg)).
  { intros k. unfold state_after.
    destruct (run_bars_curve cfg strategy data 0 (take k data) (_reset cfg))
      as (L & H & T).
    rewrite L, T. simpl in H. by rewrite H. }
  split; [|split; [exact Hk|]].
  - unfold run_backtest. split.
    + destruct (last data) eqn:E; [done|]. intros _.
      by apply last_None in E.
    + by intros ->.
  - intros final Hrun. unfold run_backtest in Hrun.
    destruct (last data) as [fb|]; [|done]. injection Hrun as <-.
    unfold _close_all_positions.
    destruct (close_fold_curve cfg fb (Bar.name fb)
                (positions (run_bars cfg strategy data 0 data (_reset cfg)))
                (run_bars cfg strategy data 0 data (_reset cfg))) as [E1 E2].
    rewrite E1, E2. rewrite <- state_after_all.
    destruct (Hk (length data)) as (T & L & _).
    rewrite firstn_all in T, L. by rewrite T, L.
Qed.

(** The curve of the run over [rising]. *)
Lemma run_records_every_bar_witness :
  exists final,
    run_backtest default_config buy_then_sell rising = Some final /\
    timestamps final = [0; 1; 2]%Z /\ length (equity_curve final) = 4%nat.
Proof.
  eexists. split; [vm_compute; reflexivity|].
  match goal with |- timestamps ?f = _ /\ _ =>
    destruct (proj2 (proj2 (run_records_every_bar default_config buy_then_sell
                              rising)) f) as (T & _ & L)
  end.
  { vm_compute. reflexivity. }
  split; [exact T | exact L].
Defined.

(** ** Closing all positions *)

Lemma execute_loop_app cfg bar l1 l2 s :
  (execute_loop cfg bar (l1 ++ l2) s).2 =
  (execute_loop cfg bar l2 (execute_loop cfg bar l1 s).2).2.
Proof.
  revert s. induction l1 as [|o l1 IH]; intros s; simpl; [done|].
  destruct (execute_order cfg bar o s) as [o' s']. specialize (IH s').
  destruct (execute_loop cfg bar (l1 ++ l2) s') as [os1 s1].
  destruct (execute_loop cfg bar l1 s') as [os2 s2]. simpl in *. done.
Qed.

Lemma execute_loop_one cfg bar o s :
  (execute_loop cfg bar [o] s).2 = (execute_order cfg bar o s).2.
Proof.
  simpl. by destruct (execute_order cfg bar o s).
Qed.

Lemma elem_remove_key_ne {A} k (d : list (string * A)) x :
  x ∈ d -> x.1 <> k -> x ∈ remove_key k d.
Proof.
  induction d as [|[k' v'] d IH]; simpl; [done|].
  intros Hin Hne. destruct (String.eqb_spec k k') as [->|Hk].
  - apply elem_of_cons in Hin as [->|Hin]; [done | by apply IH].
  - apply elem_of_cons in Hin as [->|Hin];
      apply elem_of_cons; [by left | right; by apply IH].
Qed.

(** The liquidation of one priced, held symbol when nothing is pending. *)
Lemma close_position_priced cfg bar ts s sym r pos p :
  Forall (fun o => Order.status o <> PENDING) (orders s) ->
  lookup sym (positions s) = Some r -> heap s !! r = Some pos ->
  lookup sym (Bar.row bar) = Some p ->
  positions (close_position cfg bar ts s (sym, r)) = remove_key sym (positions s) /\
  length (trades (close_position cfg bar ts s (sym, r))) = S (length (trades s)).
Proof.
  intros Hset Hl Hh Hp. unfold close_position. rewrite Hp, Hh.
  rewrite _execute_orders_eq. cbn [positions trades set_orders].
  set (o := Order.mk sym SELL (Position.quantity pos) p ts PENDING None None).
  change (orders (_place_order sym SELL (Position.quantity pos) p ts s))
    with (orders s ++ [o]).
  rewrite execute_loop_app.
  rewrite (execute_loop_settled cfg bar (orders s)) by done. cbn [snd].
  rewrite execute_loop_one.
  rewrite (execute_sell_held_state cfg bar o
             (_place_order sym SELL (Position.quantity pos) p ts s) r pos
             eq_refl eq_refl Hl Hh).
  cbn [positions trades _place_order set_orders Order.quantity Order.symbol o].
  assert (Hmin : py_min (Position.quantity pos) (Position.quantity pos)
                 = Position.quantity pos).
  { unfold py_min. by destruct (Qlt_bool _ _). }
  rewrite Hmin.
  assert (Hz : Qle_bool (Position.quantity pos - Position.quantity pos) 0 = true)
    by (apply Qle_bool_iff; lra).
  rewrite Hz. split; [done|]. rewrite length_app. simpl. lia.
Qed.

Lemma remove_priced_cons bar it items (d : list (string * nat)) :
  remove_priced bar (it :: items) d
  = remove_priced bar items (if priced bar it then remove_key it.1 d else d).
Proof. reflexivity. Qed.

Lemma close_fold_positions cfg bar ts items s :
  reachable cfg s ->
  Forall (fun o => Order.status o <> PENDING) (orders s) ->
  NoDup items.*1 -> (forall item, item ∈ items -> item ∈ positions s) ->
  let s' := fold_left (close_position cfg bar ts) items s in
  positions s' = remove_priced bar items (positions s) /\
  length (trades s')
  = (length (trades s) + length (List.filter (priced bar) items))%nat /\
  Forall (fun o => Order.status o <> PENDING) (orders s').
Proof.
  revert s. induction items as [|[sym r] items IH]; intros s Hr Hset Hnd Hin.
  - simpl. split; [done|]. split; [lia | done].
  - rewrite fmap_cons in Hnd. apply NoDup_cons in Hnd as [Hni Hnd].
    cbn [fold_left List.filter]. rewrite remove_priced_cons.
    pose proof (reach_close cfg bar ts s (sym, r) Hr) as Hr'.
    assert (Hhere : (sym, r) ∈ positions s)
      by (apply Hin; apply elem_of_cons; by left).
    destruct (reachable_ok cfg s Hr) as [[Hrefs Hlive] _].
    destruct (stepwise_keys_ok cfg s (reachable_stepwise cfg s Hr)) as [Hkeys _].
    destruct (Hlive sym r Hhere) as (pos & Hh & Hq).
    destruct (priced bar (sym, r)) eqn:Epr; unfold priced, bar_has in Epr;
      cbn [fst] in *.
    + destruct (lookup sym (Bar.row bar)) as [p|] eqn:Hp; [|done].
      destruct (close_position_priced cfg bar ts s sym r pos p Hset
                  (lookup_of_elem _ _ _ Hkeys Hhere) Hh Hp) as [Epos Etr].
      assert (Hset' : Forall (fun o => Order.status o <> PENDING)
                        (orders (close_position cfg bar ts s (sym, r)))).
      { unfold close_position. rewrite Hp, Hh. apply _execute_orders_all_settled. }
      destruct (IH (close_position cfg bar ts s (sym, r)) Hr' Hset' Hnd)
        as (P & T & S).
      { intros item Hitem. rewrite Epos. apply elem_remove_key_ne.
        - apply Hin. apply elem_of_cons. by right.
        - intros Heq. apply Hni. apply list_elem_of_fmap. exists item.
          split; [symmetry; exact Heq | exact Hitem]. }
      rewrite P, T, Epos, Etr. split; [done|]. split; [simpl; lia | done].
    + destruct (lookup sym (Bar.row bar)) as [p|] eqn:Hp; [done|].
      assert (Esame : close_position cfg bar ts s (sym, r) = s).
      { unfold close_position. by rewrite Hp. }
      rewrite Esame.
      apply IH; try done. intros item Hitem. apply Hin. apply elem_of_cons.
      by right.
Qed.

Lemma filter_unpriced_remove_key bar k (d : list (string * nat)) :
  bar_has k bar = true ->
  unpriced_items bar (remove_key k d) = unpriced_items bar d.
Proof.
  intros Hk. unfold unpriced_items.
  induction d as [|[k' v'] d IH]; simpl; [done|].
  destruct (String.eqb_spec k k') as [->|Hne].
  - unfold priced at 2. cbn [fst]. rewrite Hk. simpl. exact IH.
  - simpl. by rewrite IH.
Qed.

Lemma filter_unpriced_id bar (d : list (string * nat)) :
  (forall item, item ∈ d -> priced bar item = false) -> unpriced_items bar d = d.
Proof.
  unfold unpriced_items. induction d as [|x d IH]; intros H; simpl; [done|].
  rewrite (H x) by (apply elem_of_cons; by left). simpl.
  rewrite IH; [done|]. intros y Hy. apply H. apply elem_of_cons. by right.
Qed.

Lemma filter_unpriced_all bar (d : list (string * nat)) :
  (forall item, item ∈ d -> priced bar item = true) -> unpriced_items bar d = [].
Proof.
  unfold unpriced_items. induction d as [|x d IH]; intros H; simpl; [done|].
  rewrite (H x) by (apply elem_of_cons; by left). simpl.
  apply IH. intros y Hy. apply H. apply elem_of_cons. by right.
Qed.

Lemma remove_priced_filter bar items (d : list (string * nat)) :
  (forall item, item ∈ d -> priced bar item = true -> item.1 ∈ items.*1) ->
  remove_priced bar items d = unpriced_items bar d.
Proof.
  revert d. induction items as [|it items IH]; intros d Hcov.
  - unfold remove_priced. simpl. symmetry. apply filter_unpriced_id.
    intros item Hin. destruct (priced bar item) eqn:E; [|done].
    specialize (Hcov item Hin E). by apply elem_of_nil in Hcov.
  - rewrite remove_priced_cons. destruct (priced bar it) eqn:Eit.
    + rewrite IH.
      * by apply filter_unpriced_remove_key.
      * intros item Hin Hpr. apply elem_remove_key in Hin as [Hin Hne].
        specialize (Hcov item Hin Hpr). rewrite fmap_cons in Hcov.
        apply elem_of_cons in Hcov as [Heq|Hcov]; [done | done].
    + apply IH. intros item Hin Hpr.
      specialize (Hcov item Hin Hpr). rewrite fmap_cons in Hcov.
      apply elem_of_cons in Hcov as [Heq|Hcov]; [|done].
      unfold priced in *. rewrite Heq in Hpr. congruence.
Qed.

(** X14.  When no order is pending, [_close_all_positions] closes every
    Position whose symbol the bar prices, with one SELL and one trade each,
    and keeps the Positions the bar does not price, in their order; it
    leaves no order pending. *)
Theorem close_all_closes_priced cfg bar ts s :
  reachable cfg s ->
  Forall (fun o => Order.status o <> PENDING) (orders s) ->
  let s' := _close_all_positions cfg bar ts s in
  positions s' = unpriced_items bar (positions s) /\
  length (trades s')
  = (length (trades s) + length (List.filter (priced bar) (positions s)))%nat /\
  Forall (fun o => Order.status o <> PENDING) (orders s') /\
  ((forall item, item ∈ positions s -> priced bar item = true) ->
   positions s' = []).
Proof.
  intros Hr Hset s'.
  destruct (stepwise_keys_ok cfg s (reachable_stepwise cfg s Hr)) as [Hkeys _].
  destruct (close_fold_positions cfg bar ts (positions s) s Hr Hset Hkeys)
    as (P & T & S); [done|].
  fold (_close_all_positions cfg bar ts s) in P, T, S. fold s' in P, T, S.
  assert (E : positions s' = unpriced_items bar (positions s)).
  { rewrite P. apply remove_priced_filter. intros item Hin _.
    apply list_elem_of_fmap. by exists item. }
  split; [exact E|]. split; [exact T|]. split; [exact S|].
  intros Hall. rewrite E. by apply filter_unpriced_all.
Qed.

(** The Position held after three bars of [rising], liquidated at 110. *)
Lemma close_all_closes_priced_witness :
  let s := state_after default_config buy_once rising 3 in
  reachable default_config s /\
  Forall (fun o => Order.status o <> PENDING) (orders s) /\
  positions (_close_all_positions default_config (one_symbol 2 110) 2 s) = [].
Proof.
  intros s.
  assert (Hr : reachable default_config s) by apply state_after_reachable.
  assert (Hset : Forall (fun o => Order.status o <> PENDING) (orders s)).
  { vm_compute. repeat constructor. discriminate. }
  split; [exact Hr|]. split; [exact Hset|].
  rewrite (proj1 (close_all_closes_priced default_config (one_symbol 2 110) 2 s
                    Hr Hset)).
  reflexivity.
Defined.

(** ** Walk-forward analysis *)

Lemma py_slice_inner {A} (l : list A) a b :
  (0 <= a <= b)%Z -> (b <= Z.of_nat (length l))%Z ->
  py_slice l a b = firstn (Z.to_nat (b - a)) (skipn (Z.to_nat a) l).
Proof.
  intros Ha Hb. unfold py_slice, py_bound.
  destruct (Z.ltb_spec a 0); [lia|]. destruct (Z.ltb_spec b 0); [lia|].
  by rewrite !Z.min_l by lia.
Qed.

Lemma py_slice_length {A} (l : list A) a b :
  (0 <= a <= b)%Z -> (b <= Z.of_nat (length l))%Z ->
  length (py_slice l a b) = Z.to_nat (b - a).
Proof.
  intros Ha Hb. rewrite py_slice_inner by done.
  rewrite length_take, length_drop. lia.
Qed.

Lemma py_slice_same {A} (l : list A) a : py_slice l a a = [].
Proof.
  unfold py_slice. by rewrite Z.sub_diag.
Qed.

Lemma head_last_nonempty {A} (l : list A) :
  (0 < length l)%nat -> exists x y, head l = Some x /\ last l = Some y.
Proof.
  intros Hl. destruct l as [|x l]; [simpl in Hl; lia|].
  exists x. destruct (last (x :: l)) as [y|] eqn:E.
  - by exists y.
  - by apply last_None in E.
Qed.

Lemma walk_window_runs cfg factory data start_idx :
  (0 <= start_idx)%Z -> (0 < train_period_days cfg)%Z ->
  (0 < test_period_days cfg)%Z ->
  (start_idx + train_period_days cfg + test_period_days cfg
   <= Z.of_nat (length data))%Z ->
  exists w, walk_window cfg factory data start_idx = Some w /\
    run_backtest cfg
      (factory (py_slice data start_idx (start_idx + train_period_days cfg)))
      (py_slice data (start_idx + train_period_days cfg)
                (start_idx + train_period_days cfg + test_period_days cfg))
    = Some (Window.result w).
Proof.
  intros Hs Htr Hte Hfit. unfold walk_window.
  set (train_data := py_slice data start_idx _).
  set (test_data := py_slice data _ _).
  destruct (head_last_nonempty train_data) as (a & b & -> & ->).
  { unfold train_data. rewrite py_slice_length by lia. lia. }
  destruct (head_last_nonempty test_data) as (c & d & Ec & Ed).
  { unfold test_data. rewrite py_slice_length by lia. lia. }
  rewrite Ec, Ed. unfold run_backtest at 1. rewrite Ed.
  eexists. split; [reflexivity|]. unfold run_backtest. by rewrite Ed.
Qed.

Lemma walk_window_result cfg factory data start_idx w :
  walk_window cfg factory data start_idx = Some w ->
  reachable cfg (Window.result w).
Proof.
  unfold walk_window. intros H.
  destruct (head _); [|done]. destruct (last _); [|done].
  destruct (head _); [|done]. destruct (last _); [|done].
  destruct (run_backtest _ _ _) as [final|] eqn:E; [|done].
  injection H as <-. simpl. by eapply run_backtest_reachable.
Qed.

Lemma window_count_next cfg total :
  (0 < step_days cfg)%Z ->
  (0 <= total - train_period_days cfg - test_period_days cfg)%Z ->
  window_count cfg total = S (window_count cfg (total - step_days cfg)).
Proof.
  intros Hstep Hspare. unfold window_count.
  set (spare := (total - train_period_days cfg - test_period_days cfg)%Z) in *.
  replace (total - step_days cfg - train_period_days cfg - test_period_days cfg)%Z
    with (spare - step_days cfg)%Z by (unfold spare; lia).
  destruct (Z.ltb_spec spare 0); [lia|]. f_equal.
  destruct (Z.ltb_spec (spare - step_days cfg) 0) as [Hlt|Hge].
  - rewrite Z.div_small by lia. done.
  - replace spare with (spare - step_days cfg + 1 * step_days cfg)%Z at 1 by lia.
    rewrite Z.div_add by lia.
    pose proof (Z.div_pos (spare - step_days cfg) (step_days cfg) Hge Hstep).
    lia.
Qed.

Lemma walk_loop_windows cfg factory data :
  (0 < train_period_days cfg)%Z -> (0 < test_period_days cfg)%Z ->
  (0 < step_days cfg)%Z ->
  forall n start_idx results fuel,
    (0 <= start_idx)%Z ->
    window_count cfg (Z.of_nat (length data) - start_idx) = n ->
    (n < fuel)%nat ->
    exists ws,
      walk_loop cfg factory data fuel start_idx results
      = Some (Returned (results ++ ws)) /\
      length ws = n /\
      forall k, (k < n)%nat ->
        ws !! k = walk_window cfg factory data
                              (start_idx + Z.of_nat k * step_days cfg).
Proof.
  intros Htr Hte Hstep n.
  induction n as [|n IH]; intros start_idx results fuel Hs Hn Hfuel;
    (destruct fuel as [|fuel]; [lia|]); cbn [walk_loop].
  - unfold window_count in Hn.
    destruct (Z.ltb_spec (Z.of_nat (length data) - start_idx
                          - train_period_days cfg - test_period_days cfg) 0);
      [|done].
    destruct (Z.leb_spec (start_idx + train_period_days cfg + test_period_days cfg)
                         (Z.of_nat (length data))); [lia|].
    exists []. rewrite app_nil_r. split; [done|]. split; [done|]. lia.
  - assert (Hfit : (start_idx + train_period_days cfg + test_period_days cfg
                    <= Z.of_nat (length data))%Z).
    { unfold window_count in Hn.
      destruct (Z.ltb_spec (Z.of_nat (length data) - start_idx
                            - train_period_days cfg - test_period_days cfg) 0);
        [done | lia]. }
    destruct (Z.leb_spec (start_idx + train_period_days cfg + test_period_days cfg)
                         (Z.of_nat (length data))); [|lia].
    destruct (walk_window_runs cfg factory data start_idx Hs Htr Hte Hfit)
      as (w & Ew & _).
    rewrite Ew.
    rewrite window_count_next in Hn by lia.
    destruct (IH (start_idx + step_days cfg)%Z (results ++ [w]) fuel)
      as (ws & E & L & W); [lia | | lia |].
    { injection Hn as Hn. rewrite <- Hn. f_equal. lia. }
    exists (w :: ws). rewrite E, <- app_assoc. split; [done|].
    split; [simpl; lia|].
    intros [|k] Hk.
    + simpl. rewrite <- Ew. f_equal. lia.
    + simpl. rewrite W by lia. f_equal. lia.
Qed.

(** X15.  With positive train, test and step periods the walk ends: it
    returns one window per start index 0, step, 2·step, ... for which train
    and test rows fit into the table, that is
    floor((rows − train − test) / step) + 1 windows when at least
    train + test rows are given.  The k-th window is the loop body run at
    start index k·step, and its result is a state of a backtest over the
    test rows. *)
Theorem walk_forward_windows cfg scores factory data fuel :
  (0 < train_period_days cfg)%Z -> (0 < test_period_days cfg)%Z ->
  (0 < step_days cfg)%Z ->
  (window_count cfg (Z.of_nat (length data)) < fuel)%nat ->
  exists agg,
    run_walk_forward cfg scores factory data fuel = Some (Returned agg) /\
    Aggregate.n_windows agg = window_count cfg (Z.of_nat (length data)) /\
    length (Aggregate.windows agg) = Aggregate.n_windows agg /\
    forall k, (k < Aggregate.n_windows agg)%nat ->
      exists w,
        Aggregate.windows agg !! k = Some w /\
        walk_window cfg factory data (Z.of_nat k * step_days cfg) = Some w /\
        reachable cfg (Window.result w).
Proof.
  intros Htr Hte Hstep Hfuel.
  destruct (walk_loop_windows cfg factory data Htr Hte Hstep
              (window_count cfg (Z.of_nat (length data))) 0 [] fuel)
    as (ws & E & L & W); [lia | f_equal; lia | done |].
  unfold run_walk_forward. rewrite E. eexists. split; [reflexivity|].
  cbn [_aggregate_walk_forward_results Aggregate.n_windows Aggregate.windows app].
  split; [exact L|]. split; [done|].
  intros k Hk. rewrite L in Hk.
  destruct (lookup_lt_is_Some_2 ws k) as [w Ew]; [lia|].
  exists w. split; [exact Ew|].
  rewrite (W k Hk) in Ew. rewrite Z.add_0_l in Ew. split; [exact Ew|].
  by eapply walk_window_result.
Qed.

(** Four bars, two to train and one to test, moving by one: two windows. *)
Lemma walk_forward_windows_witness :
  exists agg,
    run_walk_forward (walk_config 2 1 1) no_scores never (flat 4) 5
    = Some (Returned agg) /\
    Aggregate.n_windows agg = 2%nat.
Proof.
  destruct (walk_forward_windows (walk_config 2 1 1) no_scores never (flat 4) 5)
    as (agg & E & N & _).
  - vm_compute. reflexivity.
  - vm_compute. reflexivity.
  - vm_compute. reflexivity.
  - vm_compute. lia.
  - exists agg. split; [exact E|]. rewrite N. vm_compute. reflexivity.
Defined.

Lemma walk_loop_stuck cfg factory data :
  step_days cfg = 0%Z ->
  (0 < train_period_days cfg)%Z -> (0 < test_period_days cfg)%Z ->
  (train_period_days cfg + test_period_days cfg <= Z.of_nat (length data))%Z ->
  forall fuel results, walk_loop cfg factory data fuel 0 results = None.
Proof.
  intros Hstep Htr Hte Hfit fuel.
  induction fuel as [|fuel IH]; intros results; cbn [walk_loop]; [done|].
  destruct (Z.leb_spec (0 + train_period_days cfg + test_period_days cfg)
                       (Z.of_nat (length data))); [|lia].
  destruct (walk_window_runs cfg factory data 0) as (w & -> & _); [lia..|].
  rewrite Hstep. apply IH.
Qed.

(** X16.  With [step_days = 0] and a table that holds at least one window,
    the loop of [run_walk_forward] never ends: the start index stays at 0,
    and no number of iterations reaches the return. *)
Theorem walk_forward_zero_step_never_returns cfg scores factory data :
  step_days cfg = 0%Z ->
  (0 < train_period_days cfg)%Z -> (0 < test_period_days cfg)%Z ->
  (train_period_days cfg + test_period_days cfg <= Z.of_nat (length data))%Z ->
  forall fuel, run_walk_forward cfg scores factory data fuel = None.
Proof.
  intros Hstep Htr Hte Hfit fuel. unfold run_walk_forward.
  by rewrite (walk_loop_stuck cfg factory data Hstep Htr Hte Hfit).
Qed.

(** Four bars, two to train and one to test, not moving. *)
Lemma walk_forward_zero_step_never_returns_witness :
  run_walk_forward (walk_config 2 1 0) no_scores never (flat 4) 1000 = None.
Proof.
  apply walk_forward_zero_step_never_returns.
  - vm_compute. reflexivity.
  - vm_compute. reflexivity.
  - vm_compute. reflexivity.
  - vm_compute. discriminate.
Defined.

(** X17.  On a table with fewer rows than train + test periods the walk
    runs no backtest: it returns at once with [n_windows = 0], no window,
    and every average and the consistency NaN. *)
Theorem walk_forward_short_table cfg scores factory data fuel :
  (Z.of_nat (length data) < train_period_days cfg + test_period_days cfg)%Z ->
  (0 < fuel)%nat ->
  exists agg,
    run_walk_forward cfg scores factory data fuel = Some (Returned agg) /\
    Aggregate.n_windows agg = 0%nat /\ Aggregate.windows agg = [] /\
    PrimFloat.is_nan (Aggregate.avg_sharpe agg) = true /\
    PrimFloat.is_nan (Aggregate.avg_return agg) = true /\
    PrimFloat.is_nan (Aggregate.avg_max_drawdown agg) = true /\
    PrimFloat.is_nan (Aggregate.avg_win_rate agg) = true /\
    PrimFloat.is_nan (Aggregate.consistency agg) = true.
Proof.
  intros Hshort Hfuel. destruct fuel as [|fuel]; [lia|].
  unfold run_walk_forward. cbn [walk_loop].
  destruct (Z.leb_spec (0 + train_period_days cfg + test_period_days cfg)
                       (Z.of_nat (length data))); [lia|].
  eexists. split; [reflexivity|].
  repeat match goal with |- _ /\ _ => split end; by_computation.
Qed.

(** Four bars under the defaults, which ask for 315. *)
Lemma walk_forward_short_table_witness :
  exists agg,
    run_walk_forward default_config no_scores never (flat 4) 1
    = Some (Returned agg) /\
    Aggregate.n_windows agg = 0%nat.
Proof.
  destruct (walk_forward_short_table default_config no_scores never (flat 4) 1)
    as (agg & E & N & _).
  - vm_compute. reflexivity.
  - lia.
  - exists agg. split; [exact E | exact N].
Defined.

(** X18.  With a train or a test period of zero days and a table that
    passes the loop condition, the first window raises IndexError: its train
    or test slice is empty, and the timestamps of its first row are read. *)
Theorem walk_forward_empty_period_raises cfg scores factory data fuel :
  train_period_days cfg = 0%Z \/ test_period_days cfg = 0%Z ->
  (train_period_days cfg + test_period_days cfg <= Z.of_nat (length data))%Z ->
  (0 < fuel)%nat ->
  run_walk_forward cfg scores factory data fuel = Some IndexError.
Proof.
  intros Hzero Hfit Hfuel. destruct fuel as [|fuel]; [lia|].
  unfold run_walk_forward. cbn [walk_loop].
  destruct (Z.leb_spec (0 + train_period_days cfg + test_period_days cfg)
                       (Z.of_nat (length data))); [|lia].
  assert (E : walk_window cfg factory data 0 = None).
  { unfold walk_window. destruct Hzero as [Hz|Hz]; rewrite Hz.
    - rewrite Z.add_0_r, py_slice_same. done.
    - rewrite Z.add_0_r, (py_slice_same data (0 + train_period_days cfg)).
      cbn [head]. destruct (head _); [|done]. by destruct (last _). }
  by rewrite E.
Qed.

(** Four bars, none to train. *)
Lemma walk_forward_empty_period_raises_witness :
  run_walk_forward (walk_config 0 1 1) no_scores never (flat 4) 1
  = Some IndexError.
Proof.
  apply walk_forward_empty_period_raises.
  - left. reflexivity.
  - vm_compute. discriminate.
  - lia.
Defined.

(** ** Trade statistics *)

Lemma total_pnl_realized cfg s :
  stepwise cfg s -> total_pnl s == realized (trades s).
Proof.
  intros Hr.
  induction Hr as [|bar s Hs IH|bar s dn o todo Hs IH Hos
                   |sym sd qty prc ts s _ IH Hq|bar s _ IH]; try exact IH.
  - reflexivity.
  - simpl. destruct (stepwise_ok cfg s Hs) as [Hb _].
    destruct (execute_order_pnl cfg bar o s Hb) as [[Et Ep]|(t & Et & Ep & _)].
    + by rewrite Et, Ep.
    + rewrite Et, Ep. unfold realized in *. rewrite fmap_app, Qsum_app. simpl.
      rewrite IH. ring.
Qed.

Lemma trades_partition ts :
  (length (winning_trades ts) + length (losing_trades ts))%nat = length ts.
Proof.
  unfold winning_trades, losing_trades, Qlt_bool.
  induction ts as [|t ts IH]; [done|]. cbn [List.filter].
  destruct (Qle_bool (Trade.pnl t) 0); simpl; lia.
Qed.

Lemma realized_split ts :
  realized ts == total_wins ts + Qsum (Trade.pnl <$> losing_trades ts).
Proof.
  unfold realized, total_wins, winning_trades, losing_trades, Qlt_bool.
  induction ts as [|t ts IH]; [reflexivity|]. cbn [List.filter].
  rewrite fmap_cons, Qsum_cons, IH.
  destruct (Qle_bool (Trade.pnl t) 0); cbn [negb];
    rewrite fmap_cons, Qsum_cons; ring.
Qed.

Lemma total_wins_nonneg ts : 0 <= total_wins ts.
Proof.
  unfold total_wins, winning_trades.
  induction ts as [|t ts IH]; [apply Qle_refl|]. cbn [List.filter].
  destruct (Qlt_bool 0 (Trade.pnl t)) eqn:E; [|exact IH].
  rewrite fmap_cons, Qsum_cons. apply Qlt_bool_iff in E. lra.
Qed.

Lemma losing_sum_nonpos ts : Qsum (Trade.pnl <$> losing_trades ts) <= 0.
Proof.
  unfold losing_trades.
  induction ts as [|t ts IH]; [apply Qle_refl|]. cbn [List.filter].
  destruct (Qle_bool (Trade.pnl t) 0) eqn:E; [|exact IH].
  rewrite fmap_cons, Qsum_cons. apply Qle_bool_iff in E. lra.
Qed.

Lemma total_losses_eq ts :
  total_losses ts == - Qsum (Trade.pnl <$> losing_trades ts).
Proof.
  unfold total_losses. apply Qabs_neg. apply losing_sum_nonpos.
Qed.

Lemma Qlen_le {A B} (l : list A) (l' : list B) :
  (length l <= length l')%nat -> Qlen l <= Qlen l'.
Proof.
  intros H. unfold Qlen. rewrite <- Zle_Qle. lia.
Qed.

Lemma Qlen_pos {A} (l : list A) : (0 < length l)%nat -> 0 < Qlen l.
Proof.
  intros H. unfold Qlen. change 0 with (inject_Z 0). rewrite <- Zlt_Qlt. lia.
Qed.

Lemma Qlen_nonneg {A} (l : list A) : 0 <= Qlen l.
Proof.
  unfold Qlen. change 0 with (inject_Z 0). rewrite <- Zle_Qle. lia.
Qed.

(** X19.  On the trades of a run the statistics of [_calculate_metrics] are
    tied to the ledger: every trade is a winner or a loser, never both;
    gross wins minus gross losses is the engine's total_pnl; the win rate
    lies between 0 and 100; the profit factor is never negative and, when
    there are losses, exceeds 1 exactly when total_pnl is positive. *)
Theorem trade_statistics cfg s :
  reachable cfg s ->
  let ts := trades s in
  (length (winning_trades ts) + length (losing_trades ts))%nat = length ts /\
  total_wins ts - total_losses ts == total_pnl s /\
  (0 <= win_rate ts /\ win_rate ts <= 100) /\
  0 <= profit_factor ts /\
  (0 < total_losses ts -> (1 < profit_factor ts <-> 0 < total_pnl s)).
Proof.
  intros Hr ts. apply reachable_stepwise in Hr.
  pose proof (total_pnl_realized cfg s Hr) as Hpnl. fold ts in Hpnl.
  pose proof (realized_split ts) as Hsplit.
  pose proof (total_losses_eq ts) as Hloss.
  pose proof (total_wins_nonneg ts) as Hwin.
  pose proof (trades_partition ts) as Hpart.
  split; [exact Hpart|]. split; [lra|]. split; [|split].
  - unfold win_rate. destruct ts as [|t ts'] eqn:Ets; [lra|]. rewrite <- Ets in *.
    assert (Hn : 0 < Qlen ts) by (apply Qlen_pos; rewrite Ets; simpl; lia).
    assert (Hw : Qlen (winning_trades ts) <= Qlen ts) by (apply Qlen_le; lia).
    pose proof (Qlen_nonneg (winning_trades ts)) as Hw0.
    assert (Hx : Qlen (winning_trades ts) / Qlen ts * Qlen ts
                 == Qlen (winning_trades ts)) by (field; lra).
    set (x := Qlen (winning_trades ts) / Qlen ts) in *.
    split; nra.
  - unfold profit_factor. destruct (Qlt_bool 0 (total_losses ts)) eqn:E; [|lra].
    apply Qlt_bool_iff in E.
    assert (Hx : total_wins ts / total_losses ts * total_losses ts
                 == total_wins ts) by (field; lra).
    set (x := total_wins ts / total_losses ts) in *. nra.
  - intros Hl. unfold profit_factor.
    assert (E : Qlt_bool 0 (total_losses ts) = true) by (by apply Qlt_bool_iff).
    rewrite E.
    assert (Hx : total_wins ts / total_losses ts * total_losses ts
                 == total_wins ts) by (field; lra).
    set (x := total_wins ts / total_losses ts) in *.
    split; intros H; nra.
Qed.

(** The statistics after the oversell on [rising_more]. *)
Lemma trade_statistics_witness :
  let s := state_after default_config buy_then_oversell rising_more 4 in
  reachable default_config s /\
  total_wins (trades s) - total_losses (trades s) == total_pnl s.
Proof.
  intros s.
  assert (Hr : reachable default_config s) by apply state_after_reachable.
  split; [exact Hr|].
  exact (proj1 (proj2 (trade_statistics default_config s Hr))).
Defined.
